(** * Nautilus assembly kernels: a shallow embedding and its properties

    The kernels are the ARM64 routines of [nautilus_assembly/src/*.s]
    together with the Cython glue of [nautilus_assembly.pyx] and the
    scalar engine [AssemblyEngine].  Registers are modelled by the values
    they hold: [x]-registers as 64-bit words, [w]-registers as 32-bit
    words, [s]-registers as IEEE binary32 and [d]-registers as IEEE
    binary64 numbers (the parametric specification of the Standard
    Library, round to nearest even).  Buffers behind pointers are lists of
    slots read and written by index. *)

From Stdlib Require Import ZArith List Bool Lia.
From Stdlib Require Import Floats.SpecFloat.
From Equations Require Import Equations.
Import ListNotations.

Local Open Scope Z_scope.

(** ** Machine words *)

Module Word.

(** The value left in an [x] register: the low 64 bits. *)
Definition wrap64 (z : Z) : Z := z mod 2 ^ 64.

(** The value left in a [w] register: the low 32 bits. *)
Definition wrap32 (z : Z) : Z := z mod 2 ^ 32.

(** Two's-complement reading of a 64-bit word (signed compares). *)
Definition signed64 (z : Z) : Z := (z + 2 ^ 63) mod 2 ^ 64 - 2 ^ 63.

(** Two's-complement reading of a 32-bit word. *)
Definition signed32 (z : Z) : Z := (z + 2 ^ 31) mod 2 ^ 32 - 2 ^ 31.

(** [lsl xd, xn, xm]: the shift amount is the low six bits of [xm]. *)
Definition lsl64 (v s : Z) : Z := wrap64 (Z.shiftl v (s mod 64)).

End Word.

(** ** IEEE arithmetic at a given format *)

Module IEEE.

Section Format.
Variables prec emax : Z.

Definition of_Z (z : Z) : spec_float := binary_normalize prec emax z 0 false.

(** [m * 2^e], rounded into the format. *)
Definition dyadic (m e : Z) : spec_float := binary_normalize prec emax m e false.

Definition zero : spec_float := S754_zero false.

Definition fadd := SFadd prec emax.
Definition fsub := SFsub prec emax.
Definition fmul := SFmul prec emax.
Definition fdiv := SFdiv prec emax.
Definition fsqrt := SFsqrt prec emax.
Definition fneg : spec_float -> spec_float := SFopp.

(** [scvtf]: signed 64-bit integer to floating point. *)
Definition scvtf (x : Z) : spec_float := of_Z (Word.signed64 x).
End Format.

(** [fcvtzs] to a 64-bit register: round toward zero, saturate, NaN
    gives 0.  The result is the register read as a signed integer. *)
Definition fcvtzs (x : spec_float) : Z :=
  match x with
  | S754_zero _ => 0
  | S754_nan => 0
  | S754_infinity s => if s then - 2 ^ 63 else 2 ^ 63 - 1
  | S754_finite s m e =>
      let t := Z.shiftl (Zpos m) e in
      if s then Z.max (- 2 ^ 63) (- t) else Z.min (2 ^ 63 - 1) t
  end.

(** The NZCV outcome of [fcmp]. *)
Inductive fcmp_flags := FEq | FLt | FGt | FUn.

Definition fcmp (x y : spec_float) : fcmp_flags :=
  match SFcompare x y with
  | Some Eq => FEq
  | Some Lt => FLt
  | Some Gt => FGt
  | None => FUn
  end.

(** [b.lt] after [fcmp] tests N <> V: less than, or unordered. *)
Definition cond_lt (f : fcmp_flags) : bool :=
  match f with FLt | FUn => true | _ => false end.

(** [b.eq] after [fcmp] tests Z: equal only. *)
Definition cond_eq (f : fcmp_flags) : bool :=
  match f with FEq => true | _ => false end.

(** The numbers [fcvtzs] turns into a non-negative integer. *)
Definition not_negative (x : spec_float) : Prop :=
  match x with
  | S754_infinity true | S754_finite true _ _ => False
  | _ => True
  end.

(** [fmax]: a NaN operand gives NaN, and +0 is greater than -0. *)
Definition fmax (x y : spec_float) : spec_float :=
  match SFcompare x y with
  | None => S754_nan
  | Some Lt => y
  | Some Gt => x
  | Some Eq =>
      match x, y with
      | S754_zero true, S754_zero _ => y
      | _, _ => x
      end
  end.

End IEEE.

(** Binary32, the format of the [s] registers and [.4s] lanes. *)
Module F32.
Definition t := spec_float.
Definition prec := 24.
Definition emax := 128.
Definition of_Z := IEEE.of_Z prec emax.
Definition dyadic := IEEE.dyadic prec emax.
Definition zero : t := IEEE.zero.
Definition one : t := of_Z 1.
Definition fadd := IEEE.fadd prec emax.
Definition fsub := IEEE.fsub prec emax.
Definition fmul := IEEE.fmul prec emax.
Definition fdiv := IEEE.fdiv prec emax.
Definition fsqrt := IEEE.fsqrt prec emax.
Definition fneg := IEEE.fneg.
Definition scvtf := IEEE.scvtf prec emax.
End F32.

(** Binary64, the format of the [d] registers and [.2d] lanes. *)
Module F64.
Definition t := spec_float.
Definition prec := 53.
Definition emax := 1024.
Definition of_Z := IEEE.of_Z prec emax.
Definition dyadic := IEEE.dyadic prec emax.
Definition zero : t := IEEE.zero.
Definition fmul := IEEE.fmul prec emax.
End F64.

(** ** signals.s and the scalar engine *)

Module Signals.

(** *** EMA *)

(** A [.4s] vector register: lanes 0 to 3. *)
Definition V4 := list F32.t.

Definition dup (x : F32.t) : V4 := repeat x 4.

Definition lane (v : V4) (k : nat) : F32.t := nth k v F32.zero.

Definition map2 (f : F32.t -> F32.t -> F32.t) (a b : V4) : V4 :=
  map (fun p => f (fst p) (snd p)) (combine a b).

(** [ld1 {v.4s}, [x0], #16]: four consecutive prices. *)
Definition ld1_4s (mem : list F32.t) : V4 * list F32.t :=
  ([nth 0 mem F32.zero; nth 1 mem F32.zero; nth 2 mem F32.zero; nth 3 mem F32.zero],
   skipn 4 mem).

(** [ema_vector_loop], lines 32-53: [x5] iterations; [x0] is the
    unread input, [s18] the value broadcast to the four lanes; the
    stores go to consecutive outputs. *)
Fixpoint ema_vector_loop (x5 : nat) (v16 v17 : V4) (x0 : list F32.t) (s18 : F32.t)
  : list F32.t * list F32.t * F32.t :=
  match x5 with
  | O => ([], x0, s18)
  | S x5' =>
      let '(v0, x0') := ld1_4s x0 in
      let v1 := dup s18 in
      let v2 := map2 F32.fmul v16 v0 in
      let v3 := map2 F32.fmul v17 v1 in
      let v4 := map2 F32.fadd v2 v3 in
      let s18' := lane v4 3 in
      let '(out, x0'', s18'') := ema_vector_loop x5' v16 v17 x0' s18' in
      (v4 ++ out, x0'', s18'')
  end.

(** [ema_scalar_loop], lines 59-71: [x4] remaining elements. *)
Fixpoint ema_scalar_loop (x4 : nat) (s16 s17 : F32.t) (x0 : list F32.t) (s18 : F32.t)
  : list F32.t :=
  match x4 with
  | O => []
  | S x4' =>
      let s0 := nth 0 x0 F32.zero in
      let s1 := F32.fmul s16 s0 in
      let s2 := F32.fmul s17 s18 in
      let s18' := F32.fadd s1 s2 in
      s18' :: ema_scalar_loop x4' s16 s17 (skipn 1 x0) s18'
  end.

(** [_nautilus_calculate_ema_vectorized] on a buffer of
    [count = 1 + length rest] prices; the result is the output buffer.
    The routine reads [prices[0]] before any test of [count], so the
    input is taken non-empty. *)
Definition nautilus_calculate_ema_vectorized
    (p0 : F32.t) (rest : list F32.t) (alpha : F32.t) : list F32.t :=
  let v16 := dup alpha in
  let v17 := map2 F32.fsub (dup F32.one) v16 in
  let s18 := p0 in
  let x2 := Z.of_nat (length rest) in
  let x5 := x2 / 4 in
  let '(out_v, x0, s18') := ema_vector_loop (Z.to_nat x5) v16 v17 rest s18 in
  let x4 := Z.land x2 3 in
  p0 :: out_v ++ ema_scalar_loop (Z.to_nat x4) (lane v16 0) (lane v17 0) x0 s18'.

(** [_fast_ema_update] of optimized_core.s. *)
Definition fast_ema_update (new_price prev_ema alpha : F32.t) : F32.t :=
  let s3 := F32.fsub F32.one alpha in
  let s4 := F32.fmul new_price alpha in
  let s5 := F32.fmul prev_ema s3 in
  F32.fadd s4 s5.

(** The loop of [AssemblyEngine.ema_batch]: [for i in range(1, count)]. *)
Fixpoint ema_batch_loop (prices : list F32.t) (ema_val alpha : F32.t) : list F32.t :=
  match prices with
  | [] => []
  | p :: tl =>
      let ema_val' := fast_ema_update p ema_val alpha in
      ema_val' :: ema_batch_loop tl ema_val' alpha
  end.

(** [AssemblyEngine.ema_batch]; [prices[0]] is read first, so the input
    is taken non-empty here too. *)
Definition ema_batch (p0 : F32.t) (rest : list F32.t) (alpha : F32.t) : list F32.t :=
  p0 :: ema_batch_loop rest p0 alpha.

(** *** RSI *)

(** [ldr s, [x0, x, lsl 2]] on a modelled buffer.  An index outside the
    buffer is outside what the caller handed over; it reads as +0 here
    and no statement below relies on such a load. *)
Definition load (mem : list F32.t) (i : Z) : F32.t :=
  if (0 <=? i) && (i <? Z.of_nat (length mem)) then nth (Z.to_nat i) mem F32.zero
  else F32.zero.

(** [str s, [x1, x, lsl 2]] into a modelled buffer. *)
Fixpoint store_nat (i : nat) (v : F32.t) (mem : list F32.t) : list F32.t :=
  match mem, i with
  | [], _ => []
  | _ :: tl, O => v :: tl
  | x :: tl, S i' => x :: store_nat i' v tl
  end.

Definition store (mem : list F32.t) (i : Z) (v : F32.t) : list F32.t :=
  if 0 <=? i then store_nat (Z.to_nat i) v mem else mem.

Definition hundred : F32.t := F32.of_Z 100.

(** [initial_period_loop], lines 96-123: [n] passes left, [x20] the
    index of the current price, [s20]/[s21] the running gain and loss
    totals. *)
Fixpoint initial_period_loop (n : nat) (x0 : list F32.t) (x20 : Z) (s20 s21 : F32.t)
  : F32.t * F32.t :=
  match n with
  | O => (s20, s21)
  | S n' =>
      let x21 := x20 - 1 in
      let s0 := load x0 x20 in
      let s1 := load x0 x21 in
      let s2 := F32.fsub s0 s1 in
      if IEEE.cond_lt (IEEE.fcmp s2 F32.zero)
      then initial_period_loop n' x0 (x20 + 1) s20 (F32.fadd s21 (F32.fneg s2))
      else initial_period_loop n' x0 (x20 + 1) (F32.fadd s20 s2) s21
  end.

(** Lines 178-192: the RSI value from the two smoothed averages. *)
Definition rsi_value (s20 s21 : F32.t) : F32.t :=
  if IEEE.cond_eq (IEEE.fcmp s21 F32.zero) then hundred
  else
    let s9 := F32.fdiv s20 s21 in
    let s11 := F32.fadd F32.one s9 in
    let s13 := F32.fdiv hundred s11 in
    F32.fsub hundred s13.

(** [rsi_calculation_loop], lines 134-199: [n] passes left, [x20] the
    index of the current price and of the output written. *)
Fixpoint rsi_calculation_loop (n : nat) (x0 x1 : list F32.t) (x19 x20 : Z)
    (s20 s21 : F32.t) : list F32.t :=
  match n with
  | O => x1
  | S n' =>
      let x21 := x20 - 1 in
      let s0 := load x0 x20 in
      let s1 := load x0 x21 in
      let s2 := F32.fsub s0 s1 in
      let lt := IEEE.cond_lt (IEEE.fcmp s2 F32.zero) in
      let s3 := if lt then F32.zero else s2 in
      let s4 := if lt then F32.fneg s2 else F32.zero in
      let s5 := F32.scvtf (x19 - 1) in
      let s6 := F32.scvtf x19 in
      let s20' := F32.fdiv (F32.fadd (F32.fmul s5 s20) s3) s6 in
      let s21' := F32.fdiv (F32.fadd (F32.fmul s5 s21) s4) s6 in
      let s14 := rsi_value s20' s21' in
      rsi_calculation_loop n' x0 (store x1 x20 s14) x19 (x20 + 1) s20' s21'
  end.

(** [_nautilus_calculate_rsi_vectorized]: [x0] the prices, [x1] the
    output buffer as the caller passed it, [x2] the count, [x3] the
    period.  The first loop runs for [x20 = 1 .. x19], the second for
    [x20 = x19 .. x2 - 1], both compared as signed words. *)
Definition nautilus_calculate_rsi_vectorized
    (x0 x1 : list F32.t) (x2 x3 : Z) : list F32.t :=
  let x19 := x3 in
  let '(sum_gain, sum_loss) :=
    initial_period_loop (Z.to_nat (Word.signed64 x19)) x0 1 F32.zero F32.zero in
  let s24 := F32.scvtf x19 in
  let s20 := F32.fdiv sum_gain s24 in
  let s21 := F32.fdiv sum_loss s24 in
  rsi_calculation_loop (Z.to_nat (Word.signed64 x2 - Word.signed64 x19))
                       x0 x1 x19 x19 s20 s21.

(** [AssemblySignalEngine.calculate_rsi]: a zeroed output of the same
    length as the prices is handed to the routine. *)
Definition calculate_rsi (prices : list F32.t) (period : Z) : list F32.t :=
  nautilus_calculate_rsi_vectorized prices (repeat F32.zero (length prices))
    (Z.of_nat (length prices)) period.

(** *** Wilder's RSI as the specification words it

    Per-step changes split into gain and loss; the averages are seeded
    with the mean over the first [P] changes; each later change is
    folded in once with [((P-1)*avg + x)/P]; positions before [P] carry
    no value. *)

Definition change (prices : list F32.t) (k : Z) : F32.t :=
  F32.fsub (load prices k) (load prices (k - 1)).

Definition gain (c : F32.t) : F32.t := IEEE.fmax c F32.zero.
Definition loss (c : F32.t) : F32.t := IEEE.fmax (F32.fneg c) F32.zero.

Definition mean (xs : list F32.t) (P : Z) : F32.t :=
  F32.fdiv (fold_left F32.fadd xs F32.zero) (F32.of_Z P).

Definition wilder_step (P : Z) (avg x : F32.t) : F32.t :=
  F32.fdiv (F32.fadd (F32.fmul (F32.of_Z (P - 1)) avg) x) (F32.of_Z P).

Definition wilder_value (avg_gain avg_loss : F32.t) : F32.t :=
  if SFeqb avg_loss F32.zero then hundred
  else F32.fsub hundred
         (F32.fdiv hundred (F32.fadd F32.one (F32.fdiv avg_gain avg_loss))).

(** The values at positions [P+1, P+2, ...] from the changes after the
    seed window. *)
Fixpoint wilder_tail (P : Z) (later : list F32.t) (avg_gain avg_loss : F32.t)
  : list (option F32.t) :=
  match later with
  | [] => []
  | c :: tl =>
      let ag := wilder_step P avg_gain (gain c) in
      let al := wilder_step P avg_loss (loss c) in
      Some (wilder_value ag al) :: wilder_tail P tl ag al
  end.

Definition wilder_rsi_reference (prices : list F32.t) (P : Z) : list (option F32.t) :=
  let n := length prices in
  let changes := map (fun k => change prices (Z.of_nat k)) (seq 1 (n - 1)) in
  let seed := firstn (Z.to_nat P) changes in
  let later := skipn (Z.to_nat P) changes in
  let ag := mean (map gain seed) P in
  let al := mean (map loss seed) P in
  repeat None (Z.to_nat P) ++ Some (wilder_value ag al) :: wilder_tail P later ag al.

End Signals.

(** ** order_book.s *)

Module OrderBook.

(** A 16-byte level: two 64-bit words. *)
Record Level := { price_field : Z; quantity_field : Z }.

Definition zero_level : Level := {| price_field := 0; quantity_field := 0 |}.

(** The book structure.  [bids_array] and [asks_array] stand for the
    memory behind the two pointers, slot by slot from the base address. *)
Record Book := {
  bids_array : list Level;
  asks_array : list Level;
  bid_count : Z;
  ask_count : Z;
  bid_capacity : Z;
  ask_capacity : Z;
  instrument_id : Z;
  sequence : Z;
  timestamp_ns : Z
}.

(** [ldr]/[ldp] of slot [i]. *)
Definition load_level (arr : list Level) (i : Z) : Level :=
  nth (Z.to_nat i) arr zero_level.

(** [str]/[stp] into slot [i].  The routine addresses raw memory and
    never compares an index with a capacity, so a store one past the
    slots tracked so far lands in the next slot of that memory. *)
Fixpoint store_nat (i : nat) (v : Level) (arr : list Level) : list Level :=
  match i, arr with
  | O, [] => [v]
  | O, _ :: tl => v :: tl
  | S i', [] => zero_level :: store_nat i' v []
  | S i', x :: tl => x :: store_nat i' v tl
  end.

Definition store_level (arr : list Level) (i : Z) (v : Level) : list Level :=
  store_nat (Z.to_nat i) v arr.

Inductive search_result :=
| found_exact (x13 : Z)
| not_found (x11 : Z).

(** [binary_search], lines 53-88: [x9] the working array, [x1] the
    side, [x2] the price looked for, [x11]/[x12] left and right. *)
Equations? binary_search (x9 : list Level) (x1 x2 : Z) (x11 x12 : Z)
  : search_result by wf (Z.to_nat (x12 - x11)) lt :=
  binary_search x9 x1 x2 x11 x12 with Z_lt_dec x11 x12 => {
    | right _ => not_found x11
    | left _ =>
        let x13 := Z.shiftr (x11 + x12) 1 in
        let x15 := price_field (load_level x9 x13) in
        if x2 =? x15 then found_exact x13
        else if x1 =? 0 then
          (* bid_search: descending *)
          if Word.signed64 x2 >? Word.signed64 x15
          then binary_search x9 x1 x2 x11 x13
          else binary_search x9 x1 x2 (x13 + 1) x12
        else
          (* ask_search: ascending *)
          if Word.signed64 x2 <? Word.signed64 x15
          then binary_search x9 x1 x2 x11 x13
          else binary_search x9 x1 x2 (x13 + 1) x12 }.
Proof.
  all: subst x13; rewrite Z.shiftr_div_pow2 by lia; change (2 ^ 1) with 2;
    pose proof (Z.div_mod (x11 + x12) 2 ltac:(lia));
    pose proof (Z.mod_pos_bound (x11 + x12) 2 ltac:(lia)); lia.
Qed.

(** [shift_loop], lines 117-129: [n] passes left; slot [x13] is copied
    to slot [x13 - 1]. *)
Fixpoint shift_loop (n : nat) (x9 : list Level) (x13 : Z) : list Level :=
  match n with
  | O => x9
  | S n' => shift_loop n' (store_level x9 (x13 - 1) (load_level x9 x13)) (x13 + 1)
  end.

(** [insert_shift_loop], lines 142-154: [n] passes left; slot
    [x13 - 1] is copied to slot [x13]. *)
Fixpoint insert_shift_loop (n : nat) (x9 : list Level) (x13 : Z) : list Level :=
  match n with
  | O => x9
  | S n' => insert_shift_loop n' (store_level x9 x13 (load_level x9 (x13 - 1))) (x13 - 1)
  end.

(** [update_counts] and [update_sequence], lines 172-185. *)
Definition update_counts (b : Book) (x1 : Z) (x9 : list Level) (x10 : Z) : Book :=
  {| bids_array := if x1 =? 0 then x9 else bids_array b;
     asks_array := if x1 =? 0 then asks_array b else x9;
     bid_count := if x1 =? 0 then Word.wrap32 x10 else bid_count b;
     ask_count := if x1 =? 0 then ask_count b else Word.wrap32 x10;
     bid_capacity := bid_capacity b;
     ask_capacity := ask_capacity b;
     instrument_id := instrument_id b;
     sequence := Word.wrap64 (sequence b + 1);
     timestamp_ns := timestamp_ns b |}.

(** [_nautilus_update_l2_level]: the book, then [x1] side (0 bid,
    otherwise ask), [x2] price, [x3] quantity, [x4] action (1 deletes).
    Returns the flags of [x0] (bit 0 book changed, bit 1 top changed)
    and the book after the call. *)
Definition nautilus_update_l2_level (b : Book) (x1 x2 x3 x4 : Z) : Z * Book :=
  let x9 := if x1 =? 0 then bids_array b else asks_array b in
  let x10 := if x1 =? 0 then bid_count b else ask_count b in
  match binary_search x9 x1 x2 0 x10 with
  | found_exact x13 =>
      let x19 := x13 in
      let x20 := if x13 =? 0 then 3 else 1 in
      if x4 =? 1 then
        (* delete_level *)
        let x9' := shift_loop (Z.to_nat (x10 - (x19 + 1))) x9 (x19 + 1) in
        (x20, update_counts b x1 x9' (x10 - 1))
      else
        let l := load_level x9 x19 in
        let x9' := store_level x9 x19
                     {| price_field := price_field l; quantity_field := x3 |} in
        (x20, update_counts b x1 x9' x10)
  | not_found x11 =>
      if x3 =? 0 then (0, b)       (* skip_insert *)
      else
        let x9' := insert_shift_loop (Z.to_nat (x10 - x11)) x9 x10 in
        let x9'' := store_level x9' x11 {| price_field := x2; quantity_field := x3 |} in
        let x20 := if x11 =? 0 then 3 else 1 in
        (x20, update_counts b x1 x9'' (x10 + 1))
  end.

(** [_nautilus_get_best_bid_ask]; 0 stands for "no level available". *)
Definition nautilus_get_best_bid_ask (b : Book) : Z * Z :=
  let x5 := if Word.wrap32 (bid_count b) =? 0 then 0
            else price_field (load_level (bids_array b) 0) in
  let x6 := if Word.wrap32 (ask_count b) =? 0 then 0
            else price_field (load_level (asks_array b) 0) in
  (x5, x6).

(** Names of the interface: sides, actions and flag bits. *)
Definition BID : Z := 0.
Definition ASK : Z := 1.
Definition UPSERT : Z := 0.
Definition REMOVE : Z := 1.

Definition book_changed (flags : Z) : bool := Z.testbit flags 0.
Definition top_changed (flags : Z) : bool := Z.testbit flags 1.

Definition side_array (b : Book) (side : Z) : list Level :=
  if side =? 0 then bids_array b else asks_array b.

Definition side_count (b : Book) (side : Z) : Z :=
  if side =? 0 then bid_count b else ask_count b.

Definition side_capacity (b : Book) (side : Z) : Z :=
  if side =? 0 then bid_capacity b else ask_capacity b.

(** The levels present on a side: the first [count] slots. *)
Definition levels (b : Book) (side : Z) : list Level :=
  firstn (Z.to_nat (side_count b side)) (side_array b side).

Definition present (b : Book) (side price : Z) : Prop :=
  exists i, 0 <= i < side_count b side /\
            price_field (load_level (side_array b side) i) = price.

(** [price * 1e8] as [update_level] of the bindings scales it. *)
Definition scaled (units : Z) : Z := units * 100000000.

Definition empty_book (capacity : Z) : Book :=
  {| bids_array := repeat zero_level (Z.to_nat capacity);
     asks_array := repeat zero_level (Z.to_nat capacity);
     bid_count := 0; ask_count := 0;
     bid_capacity := capacity; ask_capacity := capacity;
     instrument_id := 1; sequence := 0; timestamp_ns := 0 |}.

End OrderBook.

(** ** risk_engine.s and the bindings of the risk engine *)

Module Risk.

(** A 16-byte order: 32-bit words at offsets 0, 4 and 8 (the word at
    offset 12 is never read). *)
Record OrderRecord := { symbol_id : Z; quantity : Z; price : Z }.

(** The limits buffer: 32-bit words at offsets 0, 4 and 8. *)
Record LimitSet := { max_position_size : Z; min_price : Z; max_price : Z }.

(** An 8-byte slot of the positions buffer.  The routine reads the
    word at offset 0 of slot [symbol_id] as the current position. *)
Record PositionSlot := { slot_word0 : Z; slot_word1 : Z }.

Definition zero_order : OrderRecord := {| symbol_id := 0; quantity := 0; price := 0 |}.
Definition zero_slot : PositionSlot := {| slot_word0 := 0; slot_word1 := 0 |}.

(** The three buffers handed to the routine. *)
Record Memory := {
  orders : list OrderRecord;
  positions : list PositionSlot;
  limits : LimitSet
}.

(** Registers of the loop and the memory it runs on. *)
Record VState := { x4 : Z; x5 : Z; mem : Memory }.

(** Lines 20-53 for the order at index [x5]: [true] when control
    reaches [order_valid].  A symbol id outside the positions buffer
    makes the routine read memory the caller did not hand over; such a
    slot is all zero here. *)
Definition order_check (m : Memory) (x5 : Z) : bool :=
  let o := nth (Z.to_nat x5) (orders m) zero_order in
  let w8 := Word.wrap32 (symbol_id o) in
  let w9 := Word.wrap32 (quantity o) in
  let w10 := Word.wrap32 (price o) in
  let w13 := Word.wrap32 (slot_word0 (nth (Z.to_nat w8) (positions m) zero_slot)) in
  let w14 := Word.wrap32 (w13 + w9) in
  let w15 := Word.wrap32 (max_position_size (limits m)) in
  if Word.signed32 w14 >? Word.signed32 w15 then false
  else
    let w16 := Word.wrap32 (- w15) in
    if Word.signed32 w14 <? Word.signed32 w16 then false
    else
      let w16 := Word.wrap32 (min_price (limits m)) in
      let w17 := Word.wrap32 (max_price (limits m)) in
      if Word.signed32 w10 <? Word.signed32 w16 then false
      else if Word.signed32 w10 >? Word.signed32 w17 then false
      else true.

(** One pass of [validation_loop], lines 16-62.  There is no store to
    memory in it. *)
Definition validation_body (s : VState) : VState :=
  let x4' := if order_check (mem s) (x5 s)
             then Z.lor (x4 s) (Word.lsl64 1 (x5 s))
             else x4 s in
  {| x4 := x4'; x5 := x5 s + 1; mem := mem s |}.

Fixpoint validation_loop (n : nat) (s : VState) : VState :=
  match n with
  | O => s
  | S n' => validation_loop n' (validation_body s)
  end.

(** The states the loop goes through, the initial one first. *)
Fixpoint validation_trace (n : nat) (s : VState) : list VState :=
  match n with
  | O => [s]
  | S n' => s :: validation_trace n' (validation_body s)
  end.

Definition validation_init (m : Memory) : VState := {| x4 := 0; x5 := 0; mem := m |}.

(** [_nautilus_validate_order_batch]: [x3] is the count; the loop runs
    while [x5 < x3] as signed words.  Returns the bitmask of [x0] and the
    memory after the call. *)
Definition nautilus_validate_order_batch (m : Memory) (x3 : Z) : Z * Memory :=
  let s := validation_loop (Z.to_nat (Word.signed64 x3)) (validation_init m) in
  (x4 s, mem s).

(** Lines 219-222 of the bindings: [(result_mask & (1 << i)) != 0] for
    [i] in [range(count)], on Python integers. *)
Definition mask_to_list (count : nat) (result_mask : Z) : list bool :=
  map (fun i => negb (Z.land result_mask (Z.shiftl 1 (Z.of_nat i)) =? 0)) (seq 0 count).

(** [AssemblyRiskEngine.validate_order_batch] from the point where the
    three buffers have been filled. *)
Definition validate_order_batch (m : Memory) : list bool :=
  let count := length (orders m) in
  match count with
  | O => []
  | _ => mask_to_list count (fst (nautilus_validate_order_batch m (Z.of_nat count)))
  end.

(** The same buffers with the order at index [i] as the only order. *)
Definition alone (m : Memory) (i : nat) : Memory :=
  {| orders := [nth i (orders m) zero_order];
     positions := positions m;
     limits := limits m |}.

(** The checks of all orders, in order: what a faithful report is. *)
Definition checks (m : Memory) : list bool :=
  map (fun i => order_check m (Z.of_nat i)) (seq 0 (length (orders m))).

(** *** The check of one order, in numbers *)

(** The word the routine loads as the current position of [sym]
    ([ldr w13, [x12]], line 31): the first word of slot [sym], read as
    a signed number. *)
Definition position_of (m : Memory) (sym : Z) : Z :=
  Word.signed32 (slot_word0 (nth (Z.to_nat sym) (positions m) zero_slot)).

Definition within_limits (new_position price_ : Z) (l : LimitSet) : Prop :=
  - max_position_size l <= new_position <= max_position_size l /\
  min_price l <= price_ <= max_price l.

Definition int32 (z : Z) : Prop := - 2 ^ 31 <= z < 2 ^ 31.
Definition uint32 (z : Z) : Prop := 0 <= z < 2 ^ 32.

(** *** Portfolio variance *)

(** [ldr s, [base, offset]] on a buffer of 4-byte floats.  A load
    outside the buffer reads memory the caller did not hand over; it is
    +0 here and the statements below are about buffers that hold what
    the loops read. *)
Definition ldr_s (buf : list F32.t) (offset : Z) : F32.t :=
  if (0 <=? offset) && (offset / 4 <? Z.of_nat (length buf))
  then nth (Z.to_nat (offset / 4)) buf F32.zero
  else F32.zero.

(** [inner_variance_loop], lines 96-121: [n] passes left, [x6] is j. *)
Fixpoint inner_variance_loop (n : nat) (x0 x1 x2 : list F32.t) (x19 x4 x6 : Z)
    (s0 s1 s16 : F32.t) : F32.t :=
  match n with
  | O => s16
  | S n' =>
      let x7 := Z.shiftl x6 3 in
      let s2 := ldr_s x0 x7 in
      let s3 := ldr_s x2 x7 in
      let x8 := Z.shiftl (x4 * x19 + x6) 2 in
      let s4 := ldr_s x1 x8 in
      let s5 := F32.fmul (F32.fmul s1 s3) s4 in
      let s6 := F32.fmul (F32.fmul s0 s2) s5 in
      inner_variance_loop n' x0 x1 x2 x19 x4 (x6 + 1) s0 s1 (F32.fadd s16 s6)
  end.

(** [outer_variance_loop], lines 85-125: [n] passes left, [x4] is i. *)
Fixpoint outer_variance_loop (n : nat) (x0 x1 x2 : list F32.t) (x19 x4 : Z)
    (s16 : F32.t) : F32.t :=
  match n with
  | O => s16
  | S n' =>
      let x5 := Z.shiftl x4 3 in
      let s0 := ldr_s x0 x5 in
      let s1 := ldr_s x2 x5 in
      let s16' := inner_variance_loop (Z.to_nat (Word.signed64 x19))
                                      x0 x1 x2 x19 x4 0 s0 s1 s16 in
      outer_variance_loop n' x0 x1 x2 x19 (x4 + 1) s16'
  end.

(** [s16] at [variance_calculation_done], before [fsqrt]; both loops
    compare their counter with the count as signed words. *)
Definition accumulated_variance (x0 x1 x2 : list F32.t) (x3 : Z) : F32.t :=
  outer_variance_loop (Z.to_nat (Word.signed64 x3)) x0 x1 x2 x3 0 F32.zero.

(** [s16] after [fsqrt s16, s16], line 129. *)
Definition portfolio_volatility (x0 x1 x2 : list F32.t) (x3 : Z) : F32.t :=
  F32.fsqrt (accumulated_variance x0 x1 x2 x3).

Definition scale_factor : F32.t := F32.of_Z 100000000.

(** [_nautilus_calculate_portfolio_var]: [x0] positions, [x1]
    correlations, [x2] volatilities, [x3] count; the result is [x0]. *)
Definition nautilus_calculate_portfolio_var (x0 x1 x2 : list F32.t) (x3 : Z) : Z :=
  IEEE.fcvtzs (F32.fmul (portfolio_volatility x0 x1 x2 x3) scale_factor).

(** *** The sum the two loops accumulate

    What the loops load as [weight_i] and [volatility_i] is the float
    at byte offset [8 * i] of its buffer ([lsl #3]); what they load as
    [correlation_ij] is the float at byte offset [4 * (i * n + j)]. *)

Definition weight (x0 : list F32.t) (i : nat) : F32.t := ldr_s x0 (8 * Z.of_nat i).
Definition volatility (x2 : list F32.t) (i : nat) : F32.t := ldr_s x2 (8 * Z.of_nat i).
Definition correlation (x1 : list F32.t) (n i j : nat) : F32.t :=
  ldr_s x1 (4 * (Z.of_nat i * Z.of_nat n + Z.of_nat j)).

(** One term, [weight_i * weight_j * volatility_i * volatility_j *
    correlation_ij], with the products grouped as the routine does. *)
Definition term (x0 x1 x2 : list F32.t) (n : nat) (ij : nat * nat) : F32.t :=
  let '(i, j) := ij in
  F32.fmul (F32.fmul (weight x0 i) (weight x0 j))
           (F32.fmul (F32.fmul (volatility x2 i) (volatility x2 j))
                     (correlation x1 n i j)).

(** The double sum, rows first, added up from +0. *)
Definition double_sum (x0 x1 x2 : list F32.t) (n : nat) : F32.t :=
  fold_left (fun acc ij => F32.fadd acc (term x0 x1 x2 n ij))
            (list_prod (seq 0 n) (seq 0 n)) F32.zero.

(** [sqrt(max(variance, 0))], scaled and truncated like the result. *)
Definition clamped_result (variance : F32.t) : Z :=
  IEEE.fcvtzs (F32.fmul (F32.fsqrt (IEEE.fmax variance F32.zero)) scale_factor).

End Risk.

(** ** market_data.s *)

Module MarketData.

(** A [.2d] vector register: lanes 0 and 1. *)
Definition V2 : Type := F64.t * F64.t.

Definition zip1 (a b : V2) : V2 := (fst a, fst b).

Definition scale_factor : F64.t := F64.of_Z 100000000.

(** A 32-byte input tick as four doubles. *)
Record RawTick := { price : F64.t; quantity : F64.t; timestamp : F64.t; padding : F64.t }.

Definition tick_words (t : RawTick) : list F64.t :=
  [price t; quantity t; timestamp t; padding t].

(** [ld1 {va.2d, vb.2d}, [x0], #32]: four consecutive doubles. *)
Definition ld1_2x2d (x0 : list F64.t) : V2 * V2 * list F64.t :=
  ((nth 0 x0 F64.zero, nth 1 x0 F64.zero),
   (nth 2 x0 F64.zero, nth 3 x0 F64.zero),
   skipn 4 x0).

(** [tick_vector_loop], lines 20-46: [x5] passes; returns the words
    stored through [x1] and the unread input. *)
Fixpoint tick_vector_loop (x5 : nat) (x3 : Z) (x0 : list F64.t) : list Z * list F64.t :=
  match x5 with
  | O => ([], x0)
  | S x5' =>
      let '(v0, v1, x0a) := ld1_2x2d x0 in
      let '(v2, v3, x0b) := ld1_2x2d x0a in
      let v4 := zip1 v0 v2 in
      let v5 := zip1 v1 v3 in
      let v4 := (F64.fmul (fst v4) scale_factor, F64.fmul (snd v4) scale_factor) in
      let v5 := (F64.fmul (fst v5) scale_factor, F64.fmul (snd v5) scale_factor) in
      let v7 := (IEEE.fcvtzs (fst v4), IEEE.fcvtzs (snd v4)) in
      let v8 := (IEEE.fcvtzs (fst v5), IEEE.fcvtzs (snd v5)) in
      let stored := [x3; x3; fst v7; snd v7; fst v8; snd v8] in
      let '(out, x0c) := tick_vector_loop x5' x3 x0b in
      (stored ++ out, x0c)
  end.

(** [remaining_ticks], lines 48-64. *)
Definition remaining_ticks (x2 x3 : Z) (x0 : list F64.t) : list Z :=
  if Z.land x2 1 =? 0 then []
  else
    let d0 := nth 0 x0 F64.zero in
    let d1 := nth 1 x0 F64.zero in
    let d0 := F64.fmul d0 scale_factor in
    let d1 := F64.fmul d1 scale_factor in
    [x3; IEEE.fcvtzs d0; IEEE.fcvtzs d1].

(** [_nautilus_process_tick_batch]: [x0] the input as doubles, [x2] the
    count, [x3] the instrument id; the result is the sequence of 64-bit
    words stored through [x1]. *)
Definition nautilus_process_tick_batch (x0 : list F64.t) (x2 x3 : Z) : list Z :=
  let x5 := x2 / 2 in
  let '(out, x0') := tick_vector_loop (Z.to_nat x5) x3 x0 in
  out ++ remaining_ticks x2 x3 x0'.

Definition process (ticks : list RawTick) (instrument : Z) : list Z :=
  nautilus_process_tick_batch (flat_map tick_words ticks)
    (Z.of_nat (length ticks)) instrument.

(** The same ticks handed over one per call. *)
Definition process_one_at_a_time (ticks : list RawTick) (instrument : Z) : list Z :=
  flat_map (fun t => process [t] instrument) ticks.

(** The output record the single-tick path stores: three words. *)
Record ScaledTickEvent := {
  instrument_id : Z;
  scaled_price : Z;
  scaled_quantity : Z
}.

(** The stored words read back as consecutive records. *)
Fixpoint records (n : nat) (words : list Z) : list ScaledTickEvent :=
  match n with
  | O => []
  | S n' =>
      {| instrument_id := nth 0 words 0;
         scaled_price := nth 1 words 0;
         scaled_quantity := nth 2 words 0 |} :: records n' (skipn 3 words)
  end.

(** What one tick becomes on its own. *)
Definition scaled_event (instrument : Z) (t : RawTick) : ScaledTickEvent :=
  {| instrument_id := instrument;
     scaled_price := IEEE.fcvtzs (F64.fmul (price t) scale_factor);
     scaled_quantity := IEEE.fcvtzs (F64.fmul (quantity t) scale_factor) |}.

End MarketData.

(** ** Concrete inputs used below *)

Module Examples.

Definition f32 (z : Z) : F32.t := F32.of_Z z.
Definition f64 (z : Z) : F64.t := F64.of_Z z.

(** alpha = 0.5 *)
Definition half : F32.t := F32.dyadic 1 (-1).

(** Two bids, 150.00 and 100.00, on a side of capacity 2. *)
Definition full_bid_book : OrderBook.Book :=
  {| OrderBook.bids_array :=
       [ {| OrderBook.price_field := OrderBook.scaled 150;
            OrderBook.quantity_field := OrderBook.scaled 1 |};
         {| OrderBook.price_field := OrderBook.scaled 100;
            OrderBook.quantity_field := OrderBook.scaled 1 |} ];
     OrderBook.asks_array := [OrderBook.zero_level; OrderBook.zero_level];
     OrderBook.bid_count := 2; OrderBook.ask_count := 0;
     OrderBook.bid_capacity := 2; OrderBook.ask_capacity := 2;
     OrderBook.instrument_id := 1; OrderBook.sequence := 2;
     OrderBook.timestamp_ns := 0 |}.

Definition limits_1000 : Risk.LimitSet :=
  {| Risk.max_position_size := 1000; Risk.min_price := 0; Risk.max_price := 100000 |}.

Definition order (sym qty px : Z) : Risk.OrderRecord :=
  {| Risk.symbol_id := sym; Risk.quantity := qty; Risk.price := px |}.

(** A slot by its first word, the word the routine loads. *)
Definition slot (word0 : Z) : Risk.PositionSlot :=
  {| Risk.slot_word0 := word0; Risk.slot_word1 := 0 |}.

(** The word loaded for symbol 0 is 400; limit 1000. *)
Definition mem_with (os : list Risk.OrderRecord) : Risk.Memory :=
  {| Risk.orders := os; Risk.positions := [slot 400]; Risk.limits := limits_1000 |}.

(** A loaded word and a quantity whose 32-bit sum wraps to -2. *)
Definition mem_overflow : Risk.Memory :=
  {| Risk.orders := [order 0 2147483647 50];
     Risk.positions := [slot 2147483647];
     Risk.limits := {| Risk.max_position_size := 10; Risk.min_price := 0;
                       Risk.max_price := 100 |} |}.

(** The most negative word as position limit, and as the word loaded. *)
Definition mem_min_limit : Risk.Memory :=
  {| Risk.orders := [order 0 0 50];
     Risk.positions := [slot (-2147483648)];
     Risk.limits := {| Risk.max_position_size := -2147483648; Risk.min_price := 0;
                       Risk.max_price := 100 |} |}.

(** 65 orders: the first breaks the position limit, the last (index 64)
    passes, the ones between break the limit. *)
Definition mem_65 : Risk.Memory :=
  mem_with (repeat (order 0 5000 100) 64 ++ [order 0 1 100]).

(** Two weights and volatilities of 1 at stride 8, correlations
    [[1, -2], [-2, 1]]. *)
Definition two_weights : list F32.t := [f32 1; f32 0; f32 1; f32 0].
Definition not_psd : list F32.t := [f32 1; f32 (-2); f32 (-2); f32 1].

(** Correlations [[1, 0], [0, 1]]. *)
Definition uncorrelated : list F32.t := [f32 1; f32 0; f32 0; f32 1].

Definition tick (p q ts : Z) : MarketData.RawTick :=
  {| MarketData.price := f64 p; MarketData.quantity := f64 q;
     MarketData.timestamp := f64 ts; MarketData.padding := F64.zero |}.

End Examples.

(** ** The order of a book side and sequences of calls *)

Module BookOrder.

Import OrderBook.

(** A value that fits a 64-bit register. *)
Definition word64 (z : Z) : Prop := 0 <= z < 2 ^ 64.

(** [a] comes strictly before [b] on the side, by the signed compares of
    the search: the higher price first on the bid side (side 0), the
    lower price first on any other side. *)
Definition before (side a b : Z) : Prop :=
  if side =? 0 then Word.signed64 a > Word.signed64 b
  else Word.signed64 a < Word.signed64 b.

Definition price_at (arr : list Level) (i : Z) : Z := price_field (load_level arr i).

(** The first [count] slots are in strict order. *)
Definition sorted (side : Z) (arr : list Level) (count : Z) : Prop :=
  forall i j, 0 <= i -> i < j -> j < count ->
              before side (price_at arr i) (price_at arr j).

Definition prices_are_words (arr : list Level) (count : Z) : Prop :=
  forall i, 0 <= i < count -> word64 (price_at arr i).

(** A side as the routine leaves it: a 32-bit count, the live levels
    inside the memory tracked, their prices 64-bit words in strict order. *)
Definition side_ok (b : Book) (side : Z) : Prop :=
  0 <= side_count b side < 2 ^ 32 /\
  side_count b side <= Z.of_nat (length (side_array b side)) /\
  prices_are_words (side_array b side) (side_count b side) /\
  sorted side (side_array b side) (side_count b side).

Definition well_formed (b : Book) : Prop := side_ok b BID /\ side_ok b ASK.

(** The arguments of one call of the routine. *)
Record Call := { call_side : Z; call_price : Z; call_quantity : Z; call_action : Z }.

Definition apply_call (b : Book) (c : Call) : Book :=
  snd (nautilus_update_l2_level b (call_side c) (call_price c)
                                (call_quantity c) (call_action c)).

(** Calls one after the other on the same book. *)
Definition run (b : Book) (calls : list Call) : Book := fold_left apply_call calls b.

(** The side has [n] free slots: [n] more levels fit the array behind
    its pointer. *)
Definition room (b : Book) (side : Z) (n : Z) : Prop :=
  side_count b side + n <= Z.of_nat (length (side_array b side)).

End BookOrder.

Module BookExamples.

Import OrderBook.

(** Three asks, 101.00, 102.00 and 105.00, and two bids, 100.00 and
    99.00, in memory of eight slots a side. *)
Definition small_book : Book :=
  {| bids_array :=
       [ {| price_field := scaled 100; quantity_field := scaled 2 |};
         {| price_field := scaled 99; quantity_field := scaled 1 |} ]
       ++ repeat zero_level 6;
     asks_array :=
       [ {| price_field := scaled 101; quantity_field := scaled 3 |};
         {| price_field := scaled 102; quantity_field := scaled 1 |};
         {| price_field := scaled 105; quantity_field := scaled 4 |} ]
       ++ repeat zero_level 5;
     bid_count := 2; ask_count := 3;
     bid_capacity := 8; ask_capacity := 8;
     instrument_id := 1; sequence := 5; timestamp_ns := 0 |}.

End BookExamples.

(** ** Relations used to state properties of the tick batches *)

Module TickOrder.
Import MarketData.

(** Two ticks with the same price and the same timestamp; quantity and
    padding are free. *)
Definition same_price_and_time (a b : RawTick) : Prop :=
  price a = price b /\ timestamp a = timestamp b.

End TickOrder.

(** ** Classes of floating-point values used to state properties *)

Module FloatClass.

Definition is_zero (x : spec_float) : bool :=
  match x with S754_zero _ => true | _ => false end.

(** A finite number other than zero. *)
Definition is_finite_nonzero (x : spec_float) : bool :=
  match x with S754_finite _ _ _ => true | _ => false end.

(** Zero or a finite number: neither an infinity nor a NaN. *)
Definition is_finite (x : spec_float) : bool :=
  match x with S754_zero _ | S754_finite _ _ _ => true | _ => false end.

End FloatClass.

(** ** The routines of optimized_core.s and their callers in [AssemblyEngine] *)

Module OptimizedCore.
Import Signals.

(** [_fast_order_book_update]: [x0] the price, [x1] the quantity,
    [x2] the side. *)
Definition fast_order_book_update (x0 x1 x2 : Z) : Z :=
  let x3 := Word.wrap64 (x0 + x1) in
  let x4 := Word.lsl64 x3 x2 in
  let x0' := Z.lxor x3 x4 in
  Z.land x0' 255.

(** [simd_loop], lines 31-38: [x3] passes, each adding four floats to
    the lanes of [v16]. *)
Fixpoint simd_loop (x3 : nat) (v16 : V4) (x0 : list F32.t) : V4 * list F32.t :=
  match x3 with
  | O => (v16, x0)
  | S x3' =>
      let '(v0, x0') := ld1_4s x0 in
      simd_loop x3' (map2 F32.fadd v16 v0) x0'
  end.

(** [scalar_loop], lines 43-50: [fadd s16, s16, s0] writes lane 0 of
    [v16]; a scalar write to an [s] register clears the other lanes. *)
Fixpoint scalar_loop (x2 : nat) (v16 : V4) (x0 : list F32.t) : V4 :=
  match x2 with
  | O => v16
  | S x2' =>
      let s0 := nth 0 x0 F32.zero in
      let s16 := F32.fadd (lane v16 0) s0 in
      scalar_loop x2' [s16; F32.zero; F32.zero; F32.zero] (skipn 1 x0)
  end.

(** [faddp vd.4s, vn.4s, vm.4s]: sums of adjacent pairs, those of [vn]
    in the low lanes. *)
Definition faddp (vn vm : V4) : V4 :=
  [F32.fadd (lane vn 0) (lane vn 1); F32.fadd (lane vn 2) (lane vn 3);
   F32.fadd (lane vm 0) (lane vm 1); F32.fadd (lane vm 2) (lane vm 3)].

(** [_fast_array_sum]: [x0] the floats, [x1] the count; the result is
    the register [x0] as the [uint64_t] the header declares: [fcvtzs]
    leaves a two's-complement word, so a negative sum [s] is returned
    as [2^64 + s]. *)
Definition fast_array_sum (x0 : list F32.t) (x1 : Z) : Z :=
  let v16 := dup F32.zero in
  let x3 := x1 / 4 in
  let '(v16, x0) := simd_loop (Z.to_nat x3) v16 x0 in
  let x2 := Z.land x1 3 in
  let v16 := scalar_loop (Z.to_nat x2) v16 x0 in
  let v16 := faddp v16 v16 in
  let v16 := faddp v16 v16 in
  Word.wrap64 (IEEE.fcvtzs (lane v16 0)).

(** Loads and stores through a post-incremented pointer, on a buffer
    with the pointer as an offset into it.  The source and the
    destination are two buffers that do not overlap. *)
Definition read_bytes (src : list Byte.byte) (x1 n : nat) : list Byte.byte :=
  firstn n (skipn x1 src).

Definition write_bytes (dst : list Byte.byte) (x0 : nat) (bs : list Byte.byte)
  : list Byte.byte :=
  firstn x0 dst ++ bs ++ skipn (x0 + length bs) dst.

(** [copy_64_loop], lines 89-96: [x4] chunks of four 16-byte
    registers. *)
Fixpoint copy_64_loop (x4 : nat) (dst src : list Byte.byte) (x0 x1 : nat)
  : list Byte.byte * nat * nat :=
  match x4 with
  | O => (dst, x0, x1)
  | S x4' =>
      let v0_v3 := read_bytes src x1 64 in
      copy_64_loop x4' (write_bytes dst x0 v0_v3) src (x0 + 64) (x1 + 64)
  end.

(** [copy_byte_loop], lines 101-108. *)
Fixpoint copy_byte_loop (x3 : nat) (dst src : list Byte.byte) (x0 x1 : nat)
  : list Byte.byte :=
  match x3 with
  | O => dst
  | S x3' =>
      let w5 := read_bytes src x1 1 in
      copy_byte_loop x3' (write_bytes dst x0 w5) src (x0 + 1) (x1 + 1)
  end.

(** [_fast_memory_copy]: the destination buffer after the call. *)
Definition fast_memory_copy (dst src : list Byte.byte) (x2 : Z) : list Byte.byte :=
  let x4 := x2 / 64 in
  let '(dst, x0, x1) := copy_64_loop (Z.to_nat x4) dst src 0 0 in
  let x3 := Z.land x2 63 in
  copy_byte_loop (Z.to_nat x3) dst src x0 x1.

(** A one-dimensional [uint8] array as the buffer argument
    [cnp.ndarray[uint8_t, ndim=1]] hands it over: the memory around
    [&src[0]], byte by byte at its offset from that address, the stride
    between two elements and the number of elements.  A view such as
    [a[::2]] has a stride other than 1. *)
Record ByteView := {
  byte_at : Z -> Byte.byte;
  stride : Z;
  shape0 : nat
}.

(** [src[k]]. *)
Definition element (a : ByteView) (k : nat) : Byte.byte :=
  byte_at a (Z.of_nat k * stride a).

(** The array as the list of its elements. *)
Definition elements (a : ByteView) : list Byte.byte :=
  map (element a) (seq 0 (shape0 a)).

(** The [shape0] consecutive bytes from [&src[0]] on: what
    [fast_memory_copy] is given to read. *)
Definition bytes_from_base (a : ByteView) : list Byte.byte :=
  map (fun k => byte_at a (Z.of_nat k)) (seq 0 (shape0 a)).

(** [AssemblyEngine.memory_copy_test]: a zeroed contiguous array of
    [src.shape[0]] bytes is the destination, and [size] bytes are copied
    from [&src[0]].  Index 0 of an empty array is out of bounds: there
    is no result then. *)
Definition memory_copy_test (src : ByteView) : option (list Byte.byte) :=
  match shape0 src with
  | O => None
  | S _ =>
      let size := Z.of_nat (shape0 src) in
      let dst := repeat Byte.x00 (shape0 src) in
      Some (fast_memory_copy dst (bytes_from_base src) size)
  end.

(** The bytes of [l] laid out one after the other from [&src[0]]. *)
Definition contiguous_view (l : list Byte.byte) : ByteView :=
  {| byte_at := fun z => nth (Z.to_nat z) l Byte.x00;
     stride := 1;
     shape0 := length l |}.

(** Every second byte of [l]: the view [l[::2]]. *)
Definition every_second (l : list Byte.byte) : ByteView :=
  {| byte_at := fun z => nth (Z.to_nat z) l Byte.x00;
     stride := 2;
     shape0 := (length l + 1) / 2 |}.

(** The floats of an array four by four, as the vector loop reads
    them. *)
Definition Block : Type := F32.t * F32.t * F32.t * F32.t.

Definition block_words (b : Block) : list F32.t :=
  let '(b0, b1, b2, b3) := b in [b0; b1; b2; b3].

Definition block_lane (k : nat) (b : Block) : F32.t := nth k (block_words b) F32.zero.

(** A running float32 sum from the left, starting at +0. *)
Definition total (xs : list F32.t) : F32.t := fold_left F32.fadd xs F32.zero.

End OptimizedCore.

(** ** The packed risk checks of order_book.s *)

Module PackedRisk.

(** The NZCV flags. *)
Record Flags := { flag_n : bool; flag_z : bool; flag_c : bool; flag_v : bool }.

(** [cmp xn, xm]: the flags of the 64-bit subtraction [xn - xm]. *)
Definition cmp (xn xm : Z) : Flags :=
  let a := Word.wrap64 xn in
  let b := Word.wrap64 xm in
  let r := Word.wrap64 (a - b) in
  {| flag_n := Z.testbit r 63;
     flag_z := r =? 0;
     flag_c := 2 ^ 64 <=? a + (2 ^ 64 - 1 - b) + 1;
     flag_v := negb (Word.signed64 a - Word.signed64 b =? Word.signed64 r) |}.

(** The condition codes the routines use. *)
Inductive Cond := HS | LS | HI.

Definition holds (c : Cond) (f : Flags) : bool :=
  match c with
  | HS => flag_c f
  | LS => negb (flag_c f) || flag_z f
  | HI => flag_c f && negb (flag_z f)
  end.

(** The flags of the immediate [#0]. *)
Definition nzcv_0 : Flags :=
  {| flag_n := false; flag_z := false; flag_c := false; flag_v := false |}.

(** [ccmp xn, xm, #0, cond]. *)
Definition ccmp (xn xm : Z) (c : Cond) (f : Flags) : Flags :=
  if holds c f then cmp xn xm else nzcv_0.

Definition cset (c : Cond) (f : Flags) : Z := if holds c f then 1 else 0.

(** [ubfx xd, xn, #lsb, #width]. *)
Definition ubfx (xn lsb width : Z) : Z := Z.land (Z.shiftr xn lsb) (Z.ones width).

(** The fields of a packed order and of the packed limits. *)
Definition order_price (order : Z) : Z := ubfx order 32 32.
Definition order_quantity (order : Z) : Z := ubfx order 0 32.
Definition min_qty (limits : Z) : Z := ubfx limits 0 16.
Definition max_qty (limits : Z) : Z := ubfx limits 16 16.
Definition min_price (limits : Z) : Z := ubfx limits 32 16.
Definition max_price (limits : Z) : Z := ubfx limits 48 16.

(** The compare chain of lines 253-258, and again of lines 336-341:
    [price] and [quantity] against the four unpacked limits. *)
Definition compare_chain (price quantity x4 x5 x6 x7 : Z) : Z :=
  let f := cmp price x6 in
  let f := ccmp price x7 HS f in
  let f := ccmp quantity x4 LS f in
  let f := ccmp quantity x5 HS f in
  cset HI f.

(** [_ultra_fast_risk_single]: [x0] the packed order, [x1] the packed
    limits. *)
Definition ultra_fast_risk_single (x0 x1 : Z) : Z :=
  let x2 := ubfx x0 32 32 in
  let x3 := ubfx x0 0 32 in
  let x4 := ubfx x1 0 16 in
  let x5 := ubfx x1 16 16 in
  let x6 := ubfx x1 32 16 in
  let x7 := ubfx x1 48 16 in
  compare_chain x2 x3 x4 x5 x6 x7.

(** A [.4s] vector register of 32-bit lanes. *)
Definition W4 := list Z.

Definition wlane (v : W4) (k : nat) : Z := nth k v 0.

Definition wmap2 (f : Z -> Z -> Z) (a b : W4) : W4 :=
  map (fun p => f (fst p) (snd p)) (combine a b).

(** [dup vd.4s, wn]. *)
Definition dup_w (x : Z) : W4 := repeat (Word.wrap32 x) 4.

(** Two consecutive 64-bit words seen as four 32-bit lanes. *)
Definition lanes_of (a b : Z) : W4 :=
  [ubfx a 0 32; ubfx a 32 32; ubfx b 0 32; ubfx b 32 32].

(** [uzp1]/[uzp2]: the even, the odd lanes of the pair of registers. *)
Definition uzp1 (vn vm : W4) : W4 := [wlane vn 0; wlane vn 2; wlane vm 0; wlane vm 2].
Definition uzp2 (vn vm : W4) : W4 := [wlane vn 1; wlane vn 3; wlane vm 1; wlane vm 3].

(** [cmhs vd, vn, vm]: all ones where [vn >= vm], unsigned.  [cmls vd,
    vn, vm] is [cmhs vd, vm, vn]. *)
Definition cmhs (vn vm : W4) : W4 :=
  wmap2 (fun n m => if m <=? n then 4294967295 else 0) vn vm.
Definition cmls (vn vm : W4) : W4 := cmhs vm vn.

Definition vand (vn vm : W4) : W4 := wmap2 Z.land vn vm.

(** [ushr vd.4s, vn.4s, #31]. *)
Definition ushr31 (vn : W4) : W4 := map (fun x => Z.shiftr x 31) vn.

(** Lines 292-300, and again lines 303-310: one group of four orders. *)
Definition check_four (qty price v16 v17 v18 v19 : W4) : W4 :=
  let v8 := cmhs qty v16 in
  let v9 := cmls qty v17 in
  let v10 := cmhs price v18 in
  let v11 := cmls price v19 in
  let v12 := vand v8 v9 in
  let v13 := vand v10 v11 in
  vand v12 v13.

(** [process_loop], lines 276-322: [n] passes of eight orders; returns
    the words stored through [x1] and the unread orders. *)
Fixpoint process_loop (n : nat) (x0 : list Z) (v16 v17 v18 v19 : W4)
  : list Z * list Z :=
  match n with
  | O => ([], x0)
  | S n' =>
      let v0 := lanes_of (nth 0 x0 0) (nth 1 x0 0) in
      let v1 := lanes_of (nth 2 x0 0) (nth 3 x0 0) in
      let v2 := lanes_of (nth 4 x0 0) (nth 5 x0 0) in
      let v3 := lanes_of (nth 6 x0 0) (nth 7 x0 0) in
      let x0' := skipn 8 x0 in
      let v4 := uzp1 v0 v1 in
      let v5 := uzp2 v0 v1 in
      let v6 := uzp1 v2 v3 in
      let v7 := uzp2 v2 v3 in
      let v14 := check_four v4 v5 v16 v17 v18 v19 in
      let v15 := check_four v6 v7 v16 v17 v18 v19 in
      let v14 := ushr31 v14 in
      let v15 := ushr31 v15 in
      let '(out, x0'') := process_loop n' x0' v16 v17 v18 v19 in
      (v14 ++ v15 ++ out, x0'')
  end.

(** [remainder_loop], lines 328-345: one order per pass. *)
Fixpoint remainder_loop (n : nat) (x0 : list Z) (x4 x5 x6 x7 : Z) : list Z :=
  match n with
  | O => []
  | S n' =>
      let x8 := nth 0 x0 0 in
      let x9 := ubfx x8 32 32 in
      let x10 := ubfx x8 0 32 in
      let w11 := compare_chain x9 x10 x4 x5 x6 x7 in
      w11 :: remainder_loop n' (skipn 1 x0) x4 x5 x6 x7
  end.

(** [_ultra_fast_risk_batch_simd]: [x0] the packed orders, [x2] the
    count, [x3] the packed limits; the result is the sequence of 32-bit
    words stored through [x1].  The first loop runs while [x2 >= 8] as a
    signed word, the second until [x2] reaches 0. *)
Definition ultra_fast_risk_batch_simd (x0 : list Z) (x2 x3 : Z) : list Z :=
  let x4 := ubfx x3 0 16 in
  let x5 := ubfx x3 16 16 in
  let x6 := ubfx x3 32 16 in
  let x7 := ubfx x3 48 16 in
  let v16 := dup_w x4 in
  let v17 := dup_w x5 in
  let v18 := dup_w x6 in
  let v19 := dup_w x7 in
  let passes := Z.to_nat (Word.signed64 x2 / 8) in
  let '(out, x0') := process_loop passes x0 v16 v17 v18 v19 in
  let x2' := Word.wrap64 (x2 - 8 * Z.of_nat passes) in
  out ++ remainder_loop (Z.to_nat x2') x0' x4 x5 x6 x7.

(** An order inside all four limits, bounds included. *)
Definition within_bounds (order limits : Z) : bool :=
  (min_qty limits <=? order_quantity order)
  && (order_quantity order <=? max_qty limits)
  && (min_price limits <=? order_price order)
  && (order_price order <=? max_price limits).

(** Price, quantity and the four limits packed into words. *)
Definition pack_order (price quantity : Z) : Z := price * 2 ^ 32 + quantity.
Definition pack_limits (minq maxq minp maxp : Z) : Z :=
  minq + maxq * 2 ^ 16 + minp * 2 ^ 32 + maxp * 2 ^ 48.

End PackedRisk.

(** ** The positions buffer of [AssemblyRiskEngine] *)

Module RiskBindings.
Import Risk.

(** A value that converts to a C [int]. *)
Definition fits_c_int (z : Z) : bool := (- 2 ^ 31 <=? z) && (z <? 2 ^ 31).

(** [_copy_positions_to_buffer], lines 240-248 of the bindings: the
    items of the dict in iteration order, the symbol id in the first
    word of a slot and the position in the second.  Storing into the
    [int] buffer converts each key and each position to a C [int]; a
    value outside its range makes the conversion fail, and there is no
    buffer then. *)
Definition copy_positions_to_buffer (positions : list (Z * Z))
  : option (list PositionSlot) :=
  if forallb (fun item => fits_c_int (fst item) && fits_c_int (snd item)) positions
  then Some (map (fun item => {| slot_word0 := fst item; slot_word1 := snd item |})
                 positions)
  else None.

(** [AssemblyRiskEngine.validate_order_batch] with the order and limits
    buffers as filled and the positions as the dict passed: an empty
    batch returns the empty list before anything is copied. *)
Definition validate_with_positions
    (order_buffer : list OrderRecord) (positions : list (Z * Z))
    (limits_buffer : LimitSet) : option (list bool) :=
  match order_buffer with
  | [] => Some []
  | _ :: _ =>
      match copy_positions_to_buffer positions with
      | None => None
      | Some position_buffer =>
          Some (validate_order_batch
                  {| orders := order_buffer;
                     positions := position_buffer;
                     limits := limits_buffer |})
      end
  end.

(** *** The snapshot as the specification words it

    [PositionSnapshot]: ordered (symbol id, signed position) pairs;
    [positions[order.symbol]] is the position paired with the symbol. *)
Fixpoint held_position (snapshot : list (Z * Z)) (sym : Z) : option Z :=
  match snapshot with
  | [] => None
  | (k, position) :: tl => if k =? sym then Some position else held_position tl sym
  end.

(** The rule of the specification for one order on a snapshot. *)
Definition rule_holds (snapshot : list (Z * Z)) (o : OrderRecord) (l : LimitSet) : Prop :=
  exists position,
    held_position snapshot (symbol_id o) = Some position /\
    within_limits (position + quantity o) (price o) l.

End RiskBindings.

(** ** The portfolio variance as the specification words it *)

Module VarianceReference.

(** [weight_i] and [volatility_i]: the [i]-th float of the arrays the
    header declares as [float* positions] and [float* volatilities];
    [correlation_ij]: the floats of the matrix row by row. *)
Definition weight_i (positions : list F32.t) (i : nat) : F32.t :=
  nth i positions F32.zero.

Definition volatility_i (volatilities : list F32.t) (i : nat) : F32.t :=
  nth i volatilities F32.zero.

Definition correlation_ij (correlations : list F32.t) (n i j : nat) : F32.t :=
  nth (i * n + j) correlations F32.zero.

(** [weight_i * weight_j * volatility_i * volatility_j * correlation_ij]. *)
Definition term (positions correlations volatilities : list F32.t) (n : nat)
    (ij : nat * nat) : F32.t :=
  let '(i, j) := ij in
  F32.fmul
    (F32.fmul
       (F32.fmul (F32.fmul (weight_i positions i) (weight_i positions j))
                 (volatility_i volatilities i))
       (volatility_i volatilities j))
    (correlation_ij correlations n i j).

(** The sum over all [i] and [j] below [n]. *)
Definition variance (positions correlations volatilities : list F32.t) (n : nat) : F32.t :=
  fold_left (fun acc ij => F32.fadd acc (term positions correlations volatilities n ij))
            (list_prod (seq 0 n) (seq 0 n)) F32.zero.

(** [sqrt(max(variance, 0))], as the scaled integer the routine is
    documented to return. *)
Definition portfolio_variance (positions correlations volatilities : list F32.t) (n : nat)
  : Z :=
  Risk.clamped_result (variance positions correlations volatilities n).

End VarianceReference.

(** ** Inputs of the risk examples *)

Module RiskExamples.

(** 65 orders that all break the position limit. *)
Definition mem_65_failing : Risk.Memory :=
  Examples.mem_with (repeat (Examples.order 0 5000 100) 65).

(** A position limit of 1. *)
Definition limits_1 : Risk.LimitSet :=
  {| Risk.max_position_size := 1; Risk.min_price := 0; Risk.max_price := 100000 |}.

(** Buffers of four floats for two positions: weights 1 and 1,
    volatilities all 1. *)
Definition weights_1_1 : list F32.t := map Examples.f32 [1; 1; 0; 0].
Definition volatilities_1 : list F32.t := map Examples.f32 [1; 1; 1; 1].

End RiskExamples.

(** ** The EMA of nautilus_hot_paths.s *)

Module HotPaths.
Import Signals.

(** [ema_simd_loop], lines 176-197: the lanes are computed as in
    [Signals.ema_vector_loop]; nothing is stored. *)
Fixpoint ema_simd_loop (x4 : nat) (v16 v17 : V4) (x19 : list F32.t) (s18 : F32.t)
  : list F32.t * F32.t :=
  match x4 with
  | O => (x19, s18)
  | S x4' =>
      let '(v0, x19') := ld1_4s x19 in
      let v1 := dup s18 in
      let v2 := map2 F32.fmul v16 v0 in
      let v3 := map2 F32.fmul v17 v1 in
      let v4 := map2 F32.fadd v2 v3 in
      ema_simd_loop x4' v16 v17 x19' (lane v4 3)
  end.

(** [ema_scalar_loop], lines 203-214. *)
Fixpoint ema_scalar_loop (x3 : nat) (s16 s17 : F32.t) (x19 : list F32.t) (s18 : F32.t)
  : F32.t :=
  match x3 with
  | O => s18
  | S x3' =>
      let s0 := nth 0 x19 F32.zero in
      let s1 := F32.fmul s16 s0 in
      let s2 := F32.fmul s17 s18 in
      ema_scalar_loop x3' s16 s17 (skipn 1 x19) (F32.fadd s1 s2)
  end.

(** [_fast_ema_calculation] on [1 + length rest] prices: the value
    returned in [s0].  The first price is read before any test of the
    count, so the input is taken non-empty. *)
Definition fast_ema_calculation (p0 : F32.t) (rest : list F32.t) (alpha : F32.t) : F32.t :=
  let v16 := dup alpha in
  let v17 := map2 F32.fsub (dup F32.one) v16 in
  let s18 := p0 in
  let x20 := Z.of_nat (length rest) in
  let x4 := x20 / 4 in
  let '(x19, s18') := ema_simd_loop (Z.to_nat x4) v16 v17 rest s18 in
  let x3 := Z.land x20 3 in
  ema_scalar_loop (Z.to_nat x3) (lane v16 0) (lane v17 0) x19 s18'.

End HotPaths.

(** ** The single check of ultra_fast_risk.s *)

Module UltraFastRisk.
Import PackedRisk.

(** [_ultra_fast_risk_validate]: the fields are unpacked by shifts and
    masks, the chain of compares is that of [_ultra_fast_risk_single]. *)
Definition ultra_fast_risk_validate (x0 x1 : Z) : Z :=
  let x2 := Z.shiftr x0 32 in
  let x3 := Z.land x0 4294967295 in
  let x4 := Z.land x1 65535 in
  let x5 := Z.shiftr x1 16 in
  let x5 := Z.land x5 65535 in
  let x6 := Z.shiftr x1 32 in
  let x6 := Z.land x6 65535 in
  let x7 := Z.shiftr x1 48 in
  compare_chain x2 x3 x4 x5 x6 x7.

End UltraFastRisk.

(** ** Buffers that differ only where the variance routine does not look *)

Module RiskBuffers.


End RiskBuffers.

(** * Properties *)

(** ** Words *)

Lemma signed32_wrap32 z : Word.signed32 (Word.wrap32 z) = Word.signed32 z.
Proof.
  unfold Word.signed32, Word.wrap32.
  rewrite Zplus_mod_idemp_l. reflexivity.
Qed.

Lemma signed32_int32 z : Risk.int32 z -> Word.signed32 z = z.
Proof.
  unfold Risk.int32, Word.signed32. intros H.
  rewrite Z.mod_small; lia.
Qed.

Lemma signed32_add_l a b : Word.signed32 (Word.signed32 a + b) = Word.signed32 (a + b).
Proof.
  unfold Word.signed32.
  replace ((a + 2 ^ 31) mod 2 ^ 32 - 2 ^ 31 + b + 2 ^ 31)
    with ((a + 2 ^ 31) mod 2 ^ 32 + b) by lia.
  rewrite Zplus_mod_idemp_l. f_equal. f_equal. lia.
Qed.

Lemma signed32_sum a b :
  Word.signed32 (Word.wrap32 a + Word.wrap32 b) = Word.signed32 (Word.signed32 a + b).
Proof.
  unfold Word.signed32, Word.wrap32.
  change (2 ^ 32) with 4294967296. change (2 ^ 31) with 2147483648.
  Z.to_euclidean_division_equations. lia.
Qed.

Lemma signed32_neg a : Word.signed32 (- Word.wrap32 a) = Word.signed32 (- a).
Proof.
  unfold Word.signed32, Word.wrap32.
  change (2 ^ 32) with 4294967296. change (2 ^ 31) with 2147483648.
  Z.to_euclidean_division_equations. lia.
Qed.

Lemma signed32_range z : Risk.int32 (Word.signed32 z).
Proof.
  unfold Risk.int32, Word.signed32.
  pose proof (Z.mod_pos_bound (z + 2 ^ 31) (2 ^ 32) ltac:(lia)). lia.
Qed.

Lemma wrap32_uint32 z : Risk.uint32 z -> Word.wrap32 z = z.
Proof. unfold Risk.uint32, Word.wrap32. intros H. apply Z.mod_small. lia. Qed.

Lemma signed64_small z : 0 <= z < 2 ^ 63 -> Word.signed64 z = z.
Proof. unfold Word.signed64. intros H. rewrite Z.mod_small; lia. Qed.

Lemma lsl64_one s : Word.lsl64 1 s = 2 ^ (s mod 64).
Proof.
  unfold Word.lsl64, Word.wrap64.
  pose proof (Z.mod_pos_bound s 64 ltac:(lia)) as Hs.
  rewrite Z.shiftl_1_l. apply Z.mod_small. split.
  - apply Z.pow_nonneg. lia.
  - apply Z.pow_lt_mono_r; lia.
Qed.

Lemma testbit_lsl64_one s k : Z.testbit (Word.lsl64 1 s) k = (s mod 64 =? k).
Proof.
  rewrite lsl64_one. apply Z.pow2_bits_eqb.
  pose proof (Z.mod_pos_bound s 64 ltac:(lia)). lia.
Qed.

(** [(mask & (1 << i)) != 0] reads bit [i]. *)
Lemma land_one_shifted mask i :
  0 <= i -> negb (Z.land mask (Z.shiftl 1 i) =? 0) = Z.testbit mask i.
Proof.
  intros Hi. rewrite Z.shiftl_1_l.
  destruct (Z.testbit mask i) eqn:Hb.
  - apply negb_true_iff, Z.eqb_neq. intros H0.
    assert (Hc : Z.testbit (Z.land mask (2 ^ i)) i = true).
    { rewrite Z.land_spec, Hb, Z.pow2_bits_true; auto. }
    rewrite H0, Z.bits_0 in Hc. discriminate.
  - apply negb_false_iff, Z.eqb_eq. apply Z.bits_inj'. intros k Hk.
    rewrite Z.land_spec, Z.bits_0, Z.pow2_bits_eqb by lia.
    destruct (Z.eqb_spec i k) as [->|]; [rewrite Hb|]; auto using andb_false_r.
Qed.

(** ** Risk validation: the loop *)

Section ValidationLoop.

Import Risk.

Lemma validation_body_mem s : mem (validation_body s) = mem s.
Proof. reflexivity. Qed.

Lemma validation_body_x5 s : x5 (validation_body s) = x5 s + 1.
Proof. reflexivity. Qed.

Lemma validation_loop_mem n : forall s, mem (validation_loop n s) = mem s.
Proof.
  induction n as [|n IH]; intros s; simpl; [reflexivity|].
  rewrite IH. apply validation_body_mem.
Qed.

(** Memory is the same in every state the loop goes through. *)
Lemma validation_trace_mem n :
  forall s, Forall (fun s' => mem s' = mem s) (validation_trace n s).
Proof.
  induction n as [|n IH]; intros s; simpl.
  - constructor; auto.
  - constructor; [reflexivity|].
    specialize (IH (validation_body s)). rewrite validation_body_mem in IH.
    exact IH.
Qed.

(** A bit of the mask after [n] passes: it was set before, or one of
    the [n] orders passed its check and landed on that bit. *)
Lemma validation_loop_bits n : forall s k,
  Z.testbit (x4 (validation_loop n s)) k = true <->
  Z.testbit (x4 s) k = true \/
  exists j, (j < n)%nat /\
            order_check (mem s) (x5 s + Z.of_nat j) = true /\
            (x5 s + Z.of_nat j) mod 64 = k.
Proof.
  induction n as [|n IH]; intros s k; simpl.
  - split; [auto|]. intros [H|[j [Hj _]]]; [exact H|lia].
  - rewrite IH. rewrite validation_body_mem, validation_body_x5.
    unfold validation_body at 1; simpl.
    split.
    + intros [H|[j [Hj [Hc Hm]]]].
      * destruct (order_check (mem s) (x5 s)) eqn:Hc; [|auto].
        rewrite Z.lor_spec, testbit_lsl64_one in H.
        apply orb_true_iff in H. destruct H as [H|H]; [auto|].
        right. exists 0%nat. rewrite Z.add_0_r.
        apply Z.eqb_eq in H. repeat split; auto; lia.
      * right. exists (S j). replace (x5 s + Z.of_nat (S j)) with (x5 s + 1 + Z.of_nat j) by lia.
        repeat split; auto; lia.
    + intros [H|[j [Hj [Hc Hm]]]].
      * left. destruct (order_check (mem s) (x5 s)); [|exact H].
        rewrite Z.lor_spec, H. reflexivity.
      * destruct j as [|j].
        -- left. rewrite Z.add_0_r in Hc, Hm. rewrite Hc.
           rewrite Z.lor_spec, testbit_lsl64_one.
           apply orb_true_iff. right. apply Z.eqb_eq. exact Hm.
        -- right. exists j.
           replace (x5 s + 1 + Z.of_nat j) with (x5 s + Z.of_nat (S j)) by lia.
           repeat split; auto; lia.
Qed.

(** The routine called with the batch length, as the bindings do. *)
Lemma batch_call (m : Memory) :
  Z.of_nat (length (orders m)) < 2 ^ 63 ->
  nautilus_validate_order_batch m (Z.of_nat (length (orders m))) =
  (x4 (validation_loop (length (orders m)) (validation_init m)), m).
Proof.
  intros Hn. unfold nautilus_validate_order_batch.
  rewrite signed64_small by lia. rewrite Nat2Z.id.
  rewrite validation_loop_mem. reflexivity.
Qed.

Lemma mask_bit (m : Memory) k :
  Z.of_nat (length (orders m)) < 2 ^ 63 ->
  Z.testbit (fst (nautilus_validate_order_batch m (Z.of_nat (length (orders m))))) k = true <->
  exists j, (j < length (orders m))%nat /\
            order_check m (Z.of_nat j) = true /\ Z.of_nat j mod 64 = k.
Proof.
  intros Hn. rewrite batch_call by exact Hn. simpl fst.
  rewrite validation_loop_bits. simpl.
  split.
  - intros [H|H]; [rewrite Z.bits_0 in H; discriminate|exact H].
  - auto.
Qed.

Lemma mask_to_list_length count mask : length (mask_to_list count mask) = count.
Proof. unfold mask_to_list. rewrite length_map, length_seq. reflexivity. Qed.

Lemma mask_to_list_nth count mask i :
  (i < count)%nat -> nth i (mask_to_list count mask) false = Z.testbit mask (Z.of_nat i).
Proof.
  intros Hi. unfold mask_to_list.
  set (f := fun i : nat => negb (Z.land mask (Z.shiftl 1 (Z.of_nat i)) =? 0)).
  rewrite nth_indep with (d' := f 0%nat)
    by (rewrite length_map, length_seq; exact Hi).
  rewrite map_nth, seq_nth by exact Hi. subst f. simpl.
  apply land_one_shifted. lia.
Qed.

Lemma validate_order_batch_length m :
  length (validate_order_batch m) = length (orders m).
Proof.
  unfold validate_order_batch.
  destruct (length (orders m)) eqn:E; [reflexivity|].
  apply mask_to_list_length.
Qed.

(** The reported boolean of order [i] is bit [i] of the returned mask. *)
Lemma validate_order_batch_nth m i :
  (i < length (orders m))%nat ->
  nth i (validate_order_batch m) false =
  Z.testbit (fst (nautilus_validate_order_batch m (Z.of_nat (length (orders m))))) (Z.of_nat i).
Proof.
  intros Hi. unfold validate_order_batch.
  destruct (length (orders m)) eqn:E; [lia|].
  apply mask_to_list_nth. exact Hi.
Qed.

(** Up to 64 orders every reported boolean is the order's own check. *)
Lemma report_faithful_upto_64 m i :
  (length (orders m) <= 64)%nat -> (i < length (orders m))%nat ->
  nth i (validate_order_batch m) false = order_check m (Z.of_nat i).
Proof.
  intros Hn Hi. rewrite validate_order_batch_nth by exact Hi.
  assert (Hlt : Z.of_nat (length (orders m)) < 2 ^ 63) by lia.
  destruct (order_check m (Z.of_nat i)) eqn:Hc.
  - apply mask_bit; [exact Hlt|]. exists i. repeat split; auto.
    apply Z.mod_small. lia.
  - apply not_true_is_false. intros Hb.
    apply mask_bit in Hb; [|exact Hlt].
    destruct Hb as [j [Hj [Hcj Hm]]].
    rewrite Z.mod_small in Hm by lia.
    assert (j = i) by lia. subst j. congruence.
Qed.

(** The check of an order under the word sizes of the routine, in
    plain integers. *)
Lemma order_check_spec (m : Memory) (i : nat) :
  let o := nth i (orders m) zero_order in
  uint32 (symbol_id o) -> int32 (quantity o) -> int32 (price o) ->
  int32 (max_position_size (limits m)) -> - 2 ^ 31 < max_position_size (limits m) ->
  int32 (min_price (limits m)) -> int32 (max_price (limits m)) ->
  int32 (position_of m (symbol_id o) + quantity o) ->
  order_check m (Z.of_nat i) = true <->
  within_limits (position_of m (symbol_id o) + quantity o) (price o) (limits m).
Proof.
  intros o Hsym Hq Hp Hmax Hmaxlo Hmin Hmaxp Hsum.
  unfold order_check, within_limits. rewrite Nat2Z.id. fold o.
  rewrite (wrap32_uint32 (symbol_id o)) by exact Hsym.
  rewrite !signed32_wrap32.
  assert (E14 : Word.signed32
                  (Word.wrap32 (slot_word0 (nth (Z.to_nat (symbol_id o)) (positions m) zero_slot))
                   + Word.wrap32 (quantity o))
                = position_of m (symbol_id o) + quantity o).
  { rewrite signed32_sum. apply signed32_int32. exact Hsum. }
  rewrite E14.
  assert (E16 : Word.signed32 (- Word.wrap32 (max_position_size (limits m)))
                = - max_position_size (limits m)).
  { rewrite signed32_neg. apply signed32_int32. unfold int32 in *. lia. }
  rewrite E16.
  rewrite !signed32_int32 by assumption.
  repeat match goal with
         | |- context [?a >? ?b] => destruct (Z.gtb_spec a b)
         | |- context [?a <? ?b] => destruct (Z.ltb_spec a b)
         end; split; intros Hgoal; try discriminate; try reflexivity; lia.
Qed.

End ValidationLoop.

(** ** Risk validation: the claims *)

Section ValidationClaims.

Import Risk RiskBindings.

Lemma checks_nth m i :
  (i < length (orders m))%nat -> nth i (checks m) false = order_check m (Z.of_nat i).
Proof.
  intros Hi. unfold checks.
  set (f := fun i : nat => order_check m (Z.of_nat i)).
  rewrite nth_indep with (d' := f 0%nat) by (rewrite length_map, length_seq; exact Hi).
  rewrite map_nth, seq_nth by exact Hi. reflexivity.
Qed.

Lemma order_check_alone m i : order_check (alone m i) 0 = order_check m (Z.of_nat i).
Proof. unfold order_check, alone. simpl. rewrite Nat2Z.id. reflexivity. Qed.

(** No bit at or above 64 is ever set in the mask. *)
Lemma mask_high_bits m k :
  Z.of_nat (length (orders m)) < 2 ^ 63 -> 64 <= k ->
  Z.testbit (fst (nautilus_validate_order_batch m (Z.of_nat (length (orders m))))) k = false.
Proof.
  intros Hn Hk. apply not_true_is_false. intros Hb.
  apply mask_bit in Hb; [|exact Hn]. destruct Hb as [j [_ [_ Hm]]].
  pose proof (Z.mod_pos_bound (Z.of_nat j) 64 ltac:(lia)). lia.
Qed.

(** The check at the word size, on the word the routine loads as the
    position.  A loaded word and a quantity whose 32-bit sum wraps
    around are reported valid although the true sum is far above the
    limit.  With the most negative word as limit the negated limit wraps
    onto itself and a loaded word equal to it is reported valid.  And
    the order at index 64 of a batch of 65 is within its limits and is
    reported invalid. *)
Lemma validate_batch_rule_fails_outside_its_range :
  ~ (nth 0 (validate_order_batch Examples.mem_overflow) false = true <->
     within_limits (position_of Examples.mem_overflow 0 + 2147483647) 50
                   (limits Examples.mem_overflow)) /\
  ~ (nth 0 (validate_order_batch Examples.mem_min_limit) false = true <->
     within_limits (position_of Examples.mem_min_limit 0 + 0) 50
                   (limits Examples.mem_min_limit)) /\
  ~ (nth 64 (validate_order_batch Examples.mem_65) false = true <->
     within_limits (position_of Examples.mem_65 0 + 1) 100
                   (limits Examples.mem_65)).
Proof.
  split; [|split].
  - intros [H _].
    assert (Hv : nth 0 (validate_order_batch Examples.mem_overflow) false = true)
      by (vm_compute; reflexivity).
    specialize (H Hv). destruct H as [[_ H] _].
    vm_compute in H. apply H. reflexivity.
  - intros [H _].
    assert (Hv : nth 0 (validate_order_batch Examples.mem_min_limit) false = true)
      by (vm_compute; reflexivity).
    specialize (H Hv). destruct H as [[H _] _].
    vm_compute in H. apply H. reflexivity.
  - intros [_ H].
    assert (Hw : within_limits (position_of Examples.mem_65 0 + 1) 100
                               (limits Examples.mem_65))
      by (vm_compute; repeat split; discriminate).
    specialize (H Hw). vm_compute in H. discriminate.
Qed.

(** The four compares are inclusive.  In a batch of at most 64 orders
    whose words are in range and whose symbol lies inside the positions
    buffer, and as long as the loaded word plus the quantity fits a
    signed 32-bit word and the position limit is not the most negative
    word, an order is reported valid exactly when
    [-max_position_size <= loaded word + quantity <= max_position_size]
    and [min_price <= price <= max_price].  The loaded word is the
    first word of slot [symbol_id]. *)
Theorem validate_batch_inclusive_bounds (m : Memory) (i : nat) :
  (length (orders m) <= 64)%nat -> (i < length (orders m))%nat ->
  uint32 (symbol_id (nth i (orders m) zero_order)) ->
  symbol_id (nth i (orders m) zero_order) < Z.of_nat (length (positions m)) ->
  int32 (quantity (nth i (orders m) zero_order)) ->
  int32 (price (nth i (orders m) zero_order)) ->
  int32 (max_position_size (limits m)) -> - 2 ^ 31 < max_position_size (limits m) ->
  int32 (min_price (limits m)) -> int32 (max_price (limits m)) ->
  int32 (position_of m (symbol_id (nth i (orders m) zero_order))
         + quantity (nth i (orders m) zero_order)) ->
  nth i (validate_order_batch m) false = true <->
  within_limits
    (position_of m (symbol_id (nth i (orders m) zero_order))
     + quantity (nth i (orders m) zero_order))
    (price (nth i (orders m) zero_order)) (limits m).
Proof.
  intros Hn Hi Hsym _ Hq Hp Hmax Hmaxlo Hmin Hmaxp Hsum.
  rewrite report_faithful_upto_64 by assumption.
  apply order_check_spec; assumption.
Qed.

(** The boundary: a loaded word of 400 and a quantity of 600 reach the
    limit 1000 exactly and the order is valid. *)
Lemma validate_batch_inclusive_bounds_witness :
  nth 0 (validate_order_batch (Examples.mem_with [Examples.order 0 600 100])) false = true <->
  within_limits (400 + 600) 100 Examples.limits_1000.
Proof.
  apply (validate_batch_inclusive_bounds (Examples.mem_with [Examples.order 0 600 100]) 0);
    unfold uint32, int32; cbn; lia.
Defined.

(** C6: the routine takes the wrong word as the position.  The
    snapshot is laid out as (symbol id, position) pairs, one pair per
    8-byte slot, and the routine loads the first word of slot
    [symbol_id]: the symbol id of a pair, not a position.  With the
    snapshot {0: 900} an order of 200 for symbol 0 under the limit 1000
    is reported valid although 900 + 200 is beyond the limit; with the
    snapshot {0: 0, 1: 0, 2: 0} an order of 0 for symbol 2 under the
    limit 1 is reported invalid although 0 + 0 is within it. *)
Theorem validate_batch_reads_symbol_id_as_position :
  validate_with_positions [Examples.order 0 200 50] [(0, 900)] Examples.limits_1000
    = Some [true] /\
  held_position [(0, 900)] 0 = Some 900 /\
  ~ rule_holds [(0, 900)] (Examples.order 0 200 50) Examples.limits_1000 /\
  validate_with_positions [Examples.order 2 0 50] [(0, 0); (1, 0); (2, 0)]
                          RiskExamples.limits_1
    = Some [false] /\
  held_position [(0, 0); (1, 0); (2, 0)] 2 = Some 0 /\
  rule_holds [(0, 0); (1, 0); (2, 0)] (Examples.order 2 0 50) RiskExamples.limits_1.
Proof.
  split; [vm_compute; reflexivity|].
  split; [reflexivity|].
  split.
  { intros [position [Hp [[_ Hmax] _]]].
    cbn in Hp. injection Hp as <-. cbn in Hmax. lia. }
  split; [vm_compute; reflexivity|].
  split; [reflexivity|].
  exists 0. split; [reflexivity|].
  unfold within_limits. cbn. lia.
Qed.

(** One unit beyond the limit is invalid; the limit itself, on either
    side, is valid. *)
Example validate_batch_boundary :
  validate_order_batch
    (Examples.mem_with [Examples.order 0 600 100; Examples.order 0 601 100;
                        Examples.order 0 (-1400) 100; Examples.order 0 (-1401) 100;
                        Examples.order 0 0 0; Examples.order 0 0 100000;
                        Examples.order 0 0 (-1); Examples.order 0 0 100001])
  = [true; false; true; false; true; true; false; false].
Proof. vm_compute. reflexivity. Qed.

(** C7: during a call nothing is written to memory: the buffers are
    the same after the call, and the positions are the same in every
    state the loop goes through.  The check of an order reads the
    snapshot and that order only, so in a batch an order is reported as
    it is when it is the only order on the same snapshot: earlier orders
    of the batch add nothing to its position. *)
Theorem validate_batch_uses_one_snapshot (m : Memory) (x3 : Z) (i : nat) :
  snd (nautilus_validate_order_batch m x3) = m /\
  Forall (fun s => positions (mem s) = positions m)
         (validation_trace (Z.to_nat (Word.signed64 x3)) (validation_init m)) /\
  order_check m (Z.of_nat i) = order_check (alone m i) 0 /\
  ((length (orders m) <= 64)%nat -> (i < length (orders m))%nat ->
   nth i (validate_order_batch m) false = nth 0 (validate_order_batch (alone m i)) false).
Proof.
  split; [|split; [|split]].
  - unfold nautilus_validate_order_batch. cbn [snd].
    apply validation_loop_mem.
  - eapply Forall_impl; [|apply validation_trace_mem].
    intros s Hs. rewrite Hs. reflexivity.
  - symmetry. apply order_check_alone.
  - intros Hn Hi.
    rewrite report_faithful_upto_64 by assumption.
    rewrite report_faithful_upto_64 by (simpl; lia).
    symmetry. apply order_check_alone.
Qed.

(** Two orders of 600 on a position of 400 with limit 1000: the second
    is decided as if the first were not there. *)
Lemma validate_batch_uses_one_snapshot_witness :
  let m := Examples.mem_with [Examples.order 0 600 100; Examples.order 0 600 100] in
  snd (nautilus_validate_order_batch m 2) = m /\
  nth 1 (validate_order_batch m) false = nth 0 (validate_order_batch (alone m 1)) false.
Proof.
  cbv zeta.
  destruct (validate_batch_uses_one_snapshot
              (Examples.mem_with [Examples.order 0 600 100; Examples.order 0 600 100])
              2 1) as [Hframe [_ [_ Hrep]]].
  split; [exact Hframe|].
  apply Hrep; cbn; lia.
Defined.

Example two_orders_same_symbol :
  validate_order_batch
    (Examples.mem_with [Examples.order 0 600 100; Examples.order 0 600 100])
  = [true; true].
Proof. vm_compute. reflexivity. Qed.

(** The claim C10 as written fails in two ways.  A batch of more than
    64 orders can be reported faithfully: 65 orders that all fail are.
    And the entry reported for an order at index 64 is not the bit of
    order 0: with only the last of 65 orders passing, bit 0 of the mask
    is set and the entry at index 64 is false. *)
Lemma validate_batch_over_64_not_as_claimed :
  (64 < length (orders RiskExamples.mem_65_failing))%nat /\
  validate_order_batch RiskExamples.mem_65_failing = checks RiskExamples.mem_65_failing /\
  Z.testbit (fst (nautilus_validate_order_batch Examples.mem_65 65)) (64 - 64) = true /\
  nth 64 (validate_order_batch Examples.mem_65) false = false.
Proof.
  split; [vm_compute; apply Nat.leb_le; reflexivity|].
  split; [vm_compute; reflexivity|].
  split; vm_compute; reflexivity.
Qed.

(** C10 (amended): the results travel as bits of one 64-bit mask and
    are read back with [1 << i] on unbounded integers.  Up to 64 orders
    the returned list is the list of the orders' checks.  A passing
    order [i] sets bit [i mod 64] of the mask, which for [i >= 64] is
    the bit of order [i - 64].  The entry returned for an order at an
    index of 64 or more is always false, and the entry returned for an
    order [j] below 64 is true exactly when some order at an index
    congruent to [j] modulo 64 passes.  So the returned list is the list
    of checks exactly when no order at an index of 64 or more passes. *)
Theorem validate_batch_mask_wraps_at_64 (m : Memory) :
  Z.of_nat (length (orders m)) < 2 ^ 63 ->
  ((length (orders m) <= 64)%nat -> validate_order_batch m = checks m) /\
  (forall i, (i < length (orders m))%nat -> order_check m (Z.of_nat i) = true ->
     Z.testbit (fst (nautilus_validate_order_batch m (Z.of_nat (length (orders m)))))
               (Z.of_nat i mod 64) = true) /\
  (forall i, (64 <= i)%nat ->
     Word.lsl64 1 (Z.of_nat i) = Word.lsl64 1 (Z.of_nat (i - 64))) /\
  (forall i, (64 <= i < length (orders m))%nat ->
     nth i (validate_order_batch m) false = false) /\
  (forall j, (j < 64)%nat -> (j < length (orders m))%nat ->
     (nth j (validate_order_batch m) false = true <->
      exists i, (i < length (orders m))%nat /\ (i mod 64 = j)%nat /\
                order_check m (Z.of_nat i) = true)) /\
  (validate_order_batch m = checks m <->
   forall i, (64 <= i < length (orders m))%nat -> order_check m (Z.of_nat i) = false).
Proof.
  intros Hlen.
  assert (Hhigh : forall i, (64 <= i < length (orders m))%nat ->
                    nth i (validate_order_batch m) false = false).
  { intros i [Hi1 Hi2]. rewrite validate_order_batch_nth by exact Hi2.
    apply mask_high_bits; [exact Hlen|lia]. }
  assert (Hlow : forall j, (j < 64)%nat -> (j < length (orders m))%nat ->
            (nth j (validate_order_batch m) false = true <->
             exists i, (i < length (orders m))%nat /\ (i mod 64 = j)%nat /\
                       order_check m (Z.of_nat i) = true)).
  { intros j Hj64 Hj. rewrite validate_order_batch_nth by exact Hj.
    rewrite mask_bit by exact Hlen. split.
    - intros [i [Hi [Hc Hm]]]. exists i. repeat split; auto.
      pose proof (Nat2Z.inj_mod i 64) as E. change (Z.of_nat 64) with 64 in E. lia.
    - intros [i [Hi [Hm Hc]]]. exists i. repeat split; auto.
      pose proof (Nat2Z.inj_mod i 64) as E. change (Z.of_nat 64) with 64 in E. lia. }
  split; [|split; [|split; [|split; [|split]]]].
  - intros Hn. apply nth_ext with (d := false) (d' := false).
    + rewrite validate_order_batch_length. unfold checks.
      rewrite length_map, length_seq. reflexivity.
    + intros i Hi. rewrite validate_order_batch_length in Hi.
      rewrite report_faithful_upto_64, checks_nth by assumption. reflexivity.
  - intros i Hi Hc. apply mask_bit; [exact Hlen|]. exists i. auto.
  - intros i Hi. rewrite !lsl64_one. f_equal.
    rewrite Nat2Z.inj_sub by exact Hi.
    replace (Z.of_nat i) with (Z.of_nat i - Z.of_nat 64 + 1 * 64) at 1 by lia.
    apply Z.mod_add. lia.
  - exact Hhigh.
  - exact Hlow.
  - split.
    + intros Heq i Hi. rewrite <- checks_nth by lia. rewrite <- Heq.
      apply Hhigh. exact Hi.
    + intros Hnone. apply nth_ext with (d := false) (d' := false).
      * rewrite validate_order_batch_length. unfold checks.
        rewrite length_map, length_seq. reflexivity.
      * intros j Hj. rewrite validate_order_batch_length in Hj.
        rewrite checks_nth by exact Hj.
        destruct (Nat.lt_ge_cases j 64) as [Hj64|Hj64].
        -- destruct (order_check m (Z.of_nat j)) eqn:Hc.
           ++ apply Hlow; [exact Hj64|exact Hj|]. exists j.
              repeat split; auto. apply Nat.mod_small. exact Hj64.
           ++ apply not_true_is_false. intros Ht.
              apply Hlow in Ht; [|exact Hj64|exact Hj].
              destruct Ht as [i [Hi [Hm Hci]]].
              destruct (Nat.lt_ge_cases i 64) as [Hi64|Hi64].
              ** rewrite Nat.mod_small in Hm by exact Hi64. subst i. congruence.
              ** rewrite Hnone in Hci by lia. discriminate.
        -- rewrite Hhigh by lia. symmetry. apply Hnone. lia.
Qed.

(** 65 orders, only the last one within its limit: the report marks
    order 0 and not order 64, and is not the list of checks. *)
Lemma validate_batch_mask_wraps_at_64_witness :
  order_check Examples.mem_65 0 = false /\
  order_check Examples.mem_65 64 = true /\
  nth 0 (validate_order_batch Examples.mem_65) false = true /\
  nth 64 (validate_order_batch Examples.mem_65) false = false /\
  validate_order_batch Examples.mem_65 <> checks Examples.mem_65.
Proof.
  split; [vm_compute; reflexivity|].
  split; [vm_compute; reflexivity|].
  assert (Hlen : Z.of_nat (length (orders Examples.mem_65)) < 2 ^ 63)
    by (vm_compute; reflexivity).
  destruct (validate_batch_mask_wraps_at_64 Examples.mem_65 Hlen)
    as [_ [_ [_ [Hhigh [Hlow Hiff]]]]].
  assert (H64 : (64 <= 64 < length (orders Examples.mem_65))%nat)
    by (vm_compute; split; apply Nat.leb_le; reflexivity).
  split; [|split].
  - apply Hlow.
    + apply Nat.leb_le. reflexivity.
    + vm_compute. apply Nat.leb_le. reflexivity.
    + exists 64%nat. split; [apply H64|]. split; vm_compute; reflexivity.
  - apply Hhigh. exact H64.
  - intros Heq. pose proof (proj1 Hiff Heq 64%nat H64) as Hc.
    vm_compute in Hc. discriminate.
Defined.

End ValidationClaims.

(** ** Portfolio variance *)

Section PortfolioVariance.

Import Risk.

Lemma shiftl_3 a : Z.shiftl a 3 = 8 * a.
Proof. rewrite Z.shiftl_mul_pow2 by lia. change (2 ^ 3) with 8. lia. Qed.

Lemma shiftl_2 a : Z.shiftl a 2 = 4 * a.
Proof. rewrite Z.shiftl_mul_pow2 by lia. change (2 ^ 2) with 4. lia. Qed.

(** The inner loop adds the terms of row [i], columns [j0 ..]. *)
Lemma inner_variance_loop_fold x0 x1 x2 cnt i n : forall j0 s16,
  inner_variance_loop n x0 x1 x2 (Z.of_nat cnt) (Z.of_nat i) (Z.of_nat j0)
    (ldr_s x0 (Z.shiftl (Z.of_nat i) 3)) (ldr_s x2 (Z.shiftl (Z.of_nat i) 3)) s16 =
  fold_left (fun acc ij => F32.fadd acc (term x0 x1 x2 cnt ij))
            (map (fun j => (i, j)) (seq j0 n)) s16.
Proof.
  induction n as [|n IH]; intros j0 s16;
    cbn [inner_variance_loop fold_left map seq]; [reflexivity|].
  replace (Z.of_nat j0 + 1) with (Z.of_nat (S j0)) by lia.
  rewrite IH. f_equal. f_equal.
  unfold term, weight, volatility, correlation.
  rewrite !shiftl_3, shiftl_2. reflexivity.
Qed.

(** The outer loop adds the rows [i0 ..], each from column 0. *)
Lemma outer_variance_loop_fold x0 x1 x2 cnt n :
  Z.of_nat cnt < 2 ^ 63 ->
  forall i0 s16,
  outer_variance_loop n x0 x1 x2 (Z.of_nat cnt) (Z.of_nat i0) s16 =
  fold_left (fun acc ij => F32.fadd acc (term x0 x1 x2 cnt ij))
            (list_prod (seq i0 n) (seq 0 cnt)) s16.
Proof.
  intros Hcnt.
  induction n as [|n IH]; intros i0 s16;
    cbn [outer_variance_loop list_prod seq]; [reflexivity|].
  rewrite fold_left_app, signed64_small, Nat2Z.id by lia.
  replace (Z.of_nat i0 + 1) with (Z.of_nat (S i0)) by lia.
  rewrite IH. f_equal.
  apply (inner_variance_loop_fold x0 x1 x2 cnt i0 cnt 0%nat).
Qed.

Lemma accumulated_variance_is_double_sum x0 x1 x2 x3 :
  0 <= x3 < 2 ^ 63 ->
  accumulated_variance x0 x1 x2 x3 = double_sum x0 x1 x2 (Z.to_nat x3).
Proof.
  intros Hx3. unfold accumulated_variance, double_sum.
  rewrite signed64_small by exact Hx3.
  rewrite <- (Z2Nat.id x3) at 2 by lia.
  apply (outer_variance_loop_fold x0 x1 x2 (Z.to_nat x3) (Z.to_nat x3)
           ltac:(rewrite Z2Nat.id; lia) 0%nat).
Qed.

Lemma binary_round_aux_not_negative prec emax m e l :
  IEEE.not_negative (binary_round_aux prec emax false m e l).
Proof.
  unfold binary_round_aux.
  destruct (shr_fexp prec emax m e l) as [mrs e'].
  destruct (shr_fexp prec emax _ e' loc_Exact) as [mrs' e''].
  destruct (shr_m mrs'); simpl; auto.
  destruct (e'' <=? emax - prec); simpl; auto.
Qed.

Lemma fsqrt_not_negative x : IEEE.not_negative (F32.fsqrt x).
Proof.
  destruct x as [s|[|]| |[|] m e]; simpl; auto.
  unfold F32.fsqrt, IEEE.fsqrt, SFsqrt.
  destruct (SFsqrt_core_binary _ _ _ _) as [[mz ez] lz].
  apply binary_round_aux_not_negative.
Qed.

Lemma scale_factor_value : scale_factor = S754_finite false 12500000 3.
Proof. vm_compute. reflexivity. Qed.

Lemma fmul_scale_not_negative x :
  IEEE.not_negative x -> IEEE.not_negative (F32.fmul x scale_factor).
Proof.
  rewrite scale_factor_value.
  destruct x as [s|[|]| |[|] m e]; simpl; auto; try (intros []).
  apply binary_round_aux_not_negative.
Qed.

Lemma fcvtzs_not_negative x : IEEE.not_negative x -> 0 <= IEEE.fcvtzs x.
Proof.
  destruct x as [s|[|]| |[|] m e]; simpl; try lia; try contradiction.
  intros _. apply Z.min_glb; [lia|]. apply Z.shiftl_nonneg. lia.
Qed.

(** Taking the root of the raw sum and converting gives what clamping
    first would give: the root of a negative number is a NaN, and a NaN
    converts to 0. *)
Lemma unclamped_root_converts_like_clamped v :
  IEEE.fcvtzs (F32.fmul (F32.fsqrt v) scale_factor) = clamped_result v.
Proof.
  unfold clamped_result. rewrite scale_factor_value.
  destruct v as [[|]|[|]| |[|] m e]; reflexivity.
Qed.

(** Inside the routine nothing clamps.  With correlations
    [[1,-2],[-2,1]] and weights and volatilities of 1 at the stride of
    the loads the accumulated sum is -2, it reaches the square root as
    it is, and the root is a NaN.  What is returned is the root scaled
    by 1e8 and truncated: with correlations [[1,0],[0,1]] the sum is 2
    and the result is 141421360. *)
Lemma portfolio_var_root_of_negative_sum :
  accumulated_variance Examples.two_weights Examples.not_psd Examples.two_weights 2
    = Examples.f32 (-2) /\
  portfolio_volatility Examples.two_weights Examples.not_psd Examples.two_weights 2
    = S754_nan /\
  portfolio_volatility Examples.two_weights Examples.not_psd Examples.two_weights 2
    <> F32.fsqrt (IEEE.fmax
                    (accumulated_variance Examples.two_weights Examples.not_psd
                                          Examples.two_weights 2) F32.zero) /\
  accumulated_variance Examples.two_weights Examples.uncorrelated Examples.two_weights 2
    = Examples.f32 2 /\
  nautilus_calculate_portfolio_var Examples.two_weights Examples.uncorrelated
                                   Examples.two_weights 2 = 141421360 /\
  nautilus_calculate_portfolio_var Examples.two_weights Examples.uncorrelated
                                   Examples.two_weights 2
    <> IEEE.fcvtzs (F32.fsqrt (IEEE.fmax (Examples.f32 2) F32.zero)).
Proof.
  repeat split; try (vm_compute; reflexivity); vm_compute; discriminate.
Qed.

(** The missing clamp cannot be seen from outside.  On buffers that
    hold every element the loops read, the routine adds up the products
    of what it loads as weights, volatilities and correlations, takes
    the square root of that sum without clamping it, scales it by 1e8
    and converts it to an integer.  The integer it returns is the one
    clamping the sum at zero first would give, and it is never
    negative. *)
Theorem portfolio_var_returns_clamped_root (x0 x1 x2 : list F32.t) (x3 : Z) :
  0 <= x3 < 2 ^ 63 ->
  2 * x3 - 1 <= Z.of_nat (length x0) ->
  x3 * x3 <= Z.of_nat (length x1) ->
  2 * x3 - 1 <= Z.of_nat (length x2) ->
  let variance := double_sum x0 x1 x2 (Z.to_nat x3) in
  accumulated_variance x0 x1 x2 x3 = variance /\
  nautilus_calculate_portfolio_var x0 x1 x2 x3
    = IEEE.fcvtzs (F32.fmul (F32.fsqrt variance) scale_factor) /\
  nautilus_calculate_portfolio_var x0 x1 x2 x3 = clamped_result variance /\
  0 <= nautilus_calculate_portfolio_var x0 x1 x2 x3.
Proof.
  intros Hx3 _ _ _ variance. subst variance.
  pose proof (accumulated_variance_is_double_sum x0 x1 x2 x3 Hx3) as Hacc.
  unfold nautilus_calculate_portfolio_var, portfolio_volatility.
  rewrite Hacc. repeat split.
  - apply unclamped_root_converts_like_clamped.
  - apply fcvtzs_not_negative, fmul_scale_not_negative, fsqrt_not_negative.
Qed.

(** The correlations [[1,-2],[-2,1]]: the sum is -2 and the result 0. *)
Lemma portfolio_var_returns_clamped_root_witness :
  let variance := double_sum Examples.two_weights Examples.not_psd Examples.two_weights 2 in
  accumulated_variance Examples.two_weights Examples.not_psd Examples.two_weights 2
    = variance /\
  nautilus_calculate_portfolio_var Examples.two_weights Examples.not_psd
                                   Examples.two_weights 2
    = IEEE.fcvtzs (F32.fmul (F32.fsqrt variance) scale_factor) /\
  nautilus_calculate_portfolio_var Examples.two_weights Examples.not_psd
                                   Examples.two_weights 2
    = clamped_result variance /\
  0 <= nautilus_calculate_portfolio_var Examples.two_weights Examples.not_psd
                                        Examples.two_weights 2.
Proof.
  apply (portfolio_var_returns_clamped_root
           Examples.two_weights Examples.not_psd Examples.two_weights 2);
    cbn; lia.
Defined.

(** C8: the routine does not add up the terms of the formula.  It
    loads weight and volatility [i] at byte offset [8 * i] of arrays of
    4-byte floats, so position [i] gets the float at index [2 * i].
    For two positions with weights 1 and 1, volatilities 1 and
    correlations [[1,0],[0,1]] the formula gives a variance of 2 and a
    result of 141421360; the routine takes the third float, 0, as the
    second weight, accumulates 1 and returns 100000000. *)
Theorem portfolio_var_reads_every_other_float :
  VarianceReference.variance RiskExamples.weights_1_1 Examples.uncorrelated
                             RiskExamples.volatilities_1 2 = Examples.f32 2 /\
  VarianceReference.portfolio_variance RiskExamples.weights_1_1 Examples.uncorrelated
                                       RiskExamples.volatilities_1 2 = 141421360 /\
  accumulated_variance RiskExamples.weights_1_1 Examples.uncorrelated
                       RiskExamples.volatilities_1 2 = Examples.f32 1 /\
  nautilus_calculate_portfolio_var RiskExamples.weights_1_1 Examples.uncorrelated
                                   RiskExamples.volatilities_1 2 = 100000000 /\
  VarianceReference.weight_i RiskExamples.weights_1_1 1 = Examples.f32 1 /\
  weight RiskExamples.weights_1_1 1 = Examples.f32 0.
Proof. repeat split; vm_compute; reflexivity. Qed.

Example portfolio_var_not_psd :
  nautilus_calculate_portfolio_var Examples.two_weights Examples.not_psd
                                   Examples.two_weights 2 = 0 /\
  double_sum Examples.two_weights Examples.not_psd Examples.two_weights 2
    = Examples.f32 (-2).
Proof. split; vm_compute; reflexivity. Qed.

End PortfolioVariance.

(** ** Order book *)

Section OrderBookFacts.

Import OrderBook.

Lemma midpoint_bounds x11 x12 :
  x11 < x12 -> x11 <= Z.shiftr (x11 + x12) 1 < x12.
Proof.
  intros H. rewrite Z.shiftr_div_pow2 by lia. change (2 ^ 1) with 2.
  pose proof (Z.div_mod (x11 + x12) 2 ltac:(lia)).
  pose proof (Z.mod_pos_bound (x11 + x12) 2 ltac:(lia)). lia.
Qed.

(** The search reports an index only where it has read the price it
    looks for, inside the range it was given. *)
Lemma binary_search_found x9 x1 x2 x11 x12 i :
  binary_search x9 x1 x2 x11 x12 = found_exact i ->
  x11 <= i < x12 /\ price_field (load_level x9 i) = x2.
Proof.
  funelim (binary_search x9 x1 x2 x11 x12); intros Hf.
  - pose proof (midpoint_bounds x11 x12 l) as Hm.
    destruct (Z.eqb_spec x2 (price_field (load_level x9 (Z.shiftr (x11 + x12) 1)))) as [E|E].
    + inversion Hf; subst i. split; [lia|]. symmetry. exact E.
    + destruct (x1 =? 0).
      * destruct (Word.signed64 x2 >? _).
        -- apply H in Hf. split; [lia|tauto].
        -- apply H0 in Hf. split; [lia|tauto].
      * destruct (Word.signed64 x2 <? _).
        -- apply H in Hf. split; [lia|tauto].
        -- apply H0 in Hf. split; [lia|tauto].
  - discriminate.
Qed.

(** A price that is on no level of the side is not found. *)
Lemma binary_search_absent b side x2 :
  ~ present b side x2 ->
  exists x11,
    binary_search (side_array b side) side x2 0 (side_count b side) = not_found x11.
Proof.
  intros Habs.
  destruct (binary_search (side_array b side) side x2 0 (side_count b side)) as [i|x11] eqn:E.
  - exfalso. apply Habs. apply binary_search_found in E. exists i. exact E.
  - exists x11. reflexivity.
Qed.

Lemma load_store_same arr i v :
  0 <= i -> load_level (store_level arr i v) i = v.
Proof.
  intros _. unfold load_level, store_level.
  generalize (Z.to_nat i) as n. intros n. revert arr.
  induction n as [|n IH]; intros [|x tl]; simpl; auto.
Qed.

(** For a price that is absent from the side the routine looks at the
    quantity only: with a non-zero quantity it stores a new level, adds
    one to the count and to the sequence and reports a change, whatever
    the action and whatever the capacity. *)
Lemma absent_price_nonzero_quantity_inserts b side x2 x3 x4 :
  ~ present b side x2 -> x3 <> 0 ->
  let r := nautilus_update_l2_level b side x2 x3 x4 in
  book_changed (fst r) = true /\
  side_count (snd r) side = Word.wrap32 (side_count b side + 1) /\
  sequence (snd r) = Word.wrap64 (sequence b + 1).
Proof.
  intros Habs Hq r. subst r.
  destruct (binary_search_absent b side x2 Habs) as [x11 E].
  unfold nautilus_update_l2_level, side_array, side_count in *.
  rewrite E. apply Z.eqb_neq in Hq. rewrite Hq.
  cbn [fst snd]. unfold update_counts, side_count, book_changed. cbn.
  destruct (side =? 0), (x11 =? 0); auto.
Qed.

(** With a zero quantity nothing happens for an absent price. *)
Lemma absent_price_zero_quantity_noop b side x2 x4 :
  ~ present b side x2 ->
  nautilus_update_l2_level b side x2 0 x4 = (0, b).
Proof.
  intros Habs.
  destruct (binary_search_absent b side x2 Habs) as [x11 E].
  unfold nautilus_update_l2_level, side_array, side_count in *.
  rewrite E. reflexivity.
Qed.

(** For a price the search finds, any action other than 1 stores the
    quantity as it is, zero included: the level stays and the count is
    written back unchanged. *)
Lemma found_price_update_stores_quantity b side x2 x3 x4 x13 :
  binary_search (side_array b side) side x2 0 (side_count b side) = found_exact x13 ->
  x4 <> 1 ->
  let r := nautilus_update_l2_level b side x2 x3 x4 in
  side_count (snd r) side = Word.wrap32 (side_count b side) /\
  load_level (side_array (snd r) side) x13 =
    {| price_field := price_field (load_level (side_array b side) x13);
       quantity_field := x3 |}.
Proof.
  intros E Ha r. subst r.
  pose proof (binary_search_found _ _ _ _ _ _ E) as [Hr _].
  unfold nautilus_update_l2_level, side_array, side_count in *.
  rewrite E. apply Z.eqb_neq in Ha. rewrite Ha.
  cbn [fst snd]. unfold update_counts. cbn.
  destruct (side =? 0); split; auto; apply load_store_same; lia.
Qed.

(** C2, evaluated: two bids on a side of capacity 2, then an upsert of
    a third price.  The call reports a change, the side holds three
    levels, the count is 3 and the sequence has moved: there is no
    failure and the book is not as it was. *)
Theorem upsert_on_full_side_inserts :
  let r := nautilus_update_l2_level Examples.full_bid_book BID (scaled 120) (scaled 1) UPSERT in
  side_count Examples.full_bid_book BID = side_capacity Examples.full_bid_book BID /\
  ~ present Examples.full_bid_book BID (scaled 120) /\
  fst r = 1 /\
  bid_count (snd r) = 3 /\
  bid_capacity (snd r) = 2 /\
  sequence (snd r) = sequence Examples.full_bid_book + 1 /\
  map price_field (bids_array (snd r)) = [scaled 150; scaled 120; scaled 100] /\
  snd r <> Examples.full_bid_book.
Proof.
  cbv zeta. repeat split; try (vm_compute; reflexivity).
  - intros [i [Hi Hp]]. cbn in Hi.
    assert (i = 0 \/ i = 1) as [-> | ->] by lia;
      vm_compute in Hp; discriminate.
  - vm_compute. discriminate.
Qed.

(** C3, evaluated: an upsert of 100.00 with quantity 1 on an empty bid
    side, then an upsert of the same price with quantity 0.  The level
    is still there with quantity 0, the count is 1 and the best bid is
    still 100.00. *)
Theorem upsert_zero_quantity_keeps_level :
  let b1 := snd (nautilus_update_l2_level (empty_book 4) BID (scaled 100) (scaled 1) UPSERT) in
  let r := nautilus_update_l2_level b1 BID (scaled 100) 0 UPSERT in
  fst r = 3 /\
  bid_count (snd r) = 1 /\
  levels (snd r) BID = [ {| price_field := scaled 100; quantity_field := 0 |} ] /\
  fst (nautilus_get_best_bid_ask (snd r)) = scaled 100 /\
  fst (nautilus_get_best_bid_ask (snd r)) <> 0 /\
  snd r <> snd (nautilus_update_l2_level b1 BID (scaled 100) 0 REMOVE).
Proof.
  cbv zeta. repeat split; try (vm_compute; reflexivity); vm_compute; discriminate.
Qed.

(** C4, evaluated: a remove of 100.00 with quantity 1 on an empty bid
    side.  The call reports book and top changed, the side holds the
    level, the count is 1 and the sequence has moved. *)
Theorem remove_absent_nonzero_quantity_inserts :
  let r := nautilus_update_l2_level (empty_book 4) BID (scaled 100) (scaled 1) REMOVE in
  ~ present (empty_book 4) BID (scaled 100) /\
  fst r = 3 /\
  book_changed (fst r) = true /\
  bid_count (snd r) = 1 /\
  levels (snd r) BID = [ {| price_field := scaled 100; quantity_field := scaled 1 |} ] /\
  sequence (snd r) = sequence (empty_book 4) + 1.
Proof.
  cbv zeta. repeat split; try (vm_compute; reflexivity).
  intros [i [Hi _]]. cbn in Hi. lia.
Qed.

End OrderBookFacts.

(** ** EMA *)

Section EmaFacts.

Import Signals.


(** One pass of the vector loop: every lane is computed from the value
    [s18] held before the pass; the value carried on is lane 3. *)
Lemma ema_vector_pass alpha oma a b c d tl s18 :
  let out k := F32.fadd (F32.fmul alpha k) (F32.fmul oma s18) in
  ema_vector_loop 1 (dup alpha) (dup oma) (a :: b :: c :: d :: tl) s18 =
  ([out a; out b; out c; out d], tl, out d).
Proof. reflexivity. Qed.



(** C1, evaluated: prices 0, 4, 0, 0, 0 and alpha 0.5.  The routine
    gives 0, 2, 0, 0, 0: lanes 1 to 3 of the batch start again from the
    value before the batch.  The recurrence, one element at a time,
    gives 0, 2, 1, 0.5, 0.25. *)
Theorem ema_vectorized_restarts_each_lane :
  let rest := [Examples.f32 4; Examples.f32 0; Examples.f32 0; Examples.f32 0] in
  nautilus_calculate_ema_vectorized (Examples.f32 0) rest Examples.half
    = [Examples.f32 0; Examples.f32 2; Examples.f32 0; Examples.f32 0; Examples.f32 0] /\
  ema_batch (Examples.f32 0) rest Examples.half
    = [Examples.f32 0; Examples.f32 2; Examples.f32 1; F32.dyadic 1 (-1); F32.dyadic 1 (-2)] /\
  nautilus_calculate_ema_vectorized (Examples.f32 0) rest Examples.half
    <> ema_batch (Examples.f32 0) rest Examples.half.
Proof.
  cbv zeta. repeat split; try (vm_compute; reflexivity).
  vm_compute. discriminate.
Qed.

(** The scenario of three prices stays within the scalar tail. *)
Example ema_10_20_30 :
  nautilus_calculate_ema_vectorized (Examples.f32 10) [Examples.f32 20; Examples.f32 30]
                                    Examples.half
  = [Examples.f32 10; Examples.f32 15; F32.dyadic 45 (-1)].
Proof. vm_compute. reflexivity. Qed.

End EmaFacts.

(** ** RSI *)

Section RsiFacts.

Import Signals.

(** The first loop ends on the change at index [P]: one more pass
    adds the change at the next index to the totals. *)
Lemma initial_period_loop_snoc x0 n : forall x20 s20 s21,
  initial_period_loop (S n) x0 x20 s20 s21 =
  let '(g, l) := initial_period_loop n x0 x20 s20 s21 in
  initial_period_loop 1 x0 (x20 + Z.of_nat n) g l.
Proof.
  induction n as [|n IH]; intros x20 s20 s21.
  - cbn [initial_period_loop Z.of_nat]. rewrite Z.add_0_r. reflexivity.
  - change (initial_period_loop (S (S n)) x0 x20 s20 s21)
      with (let s2 := F32.fsub (load x0 x20) (load x0 (x20 - 1)) in
            if IEEE.cond_lt (IEEE.fcmp s2 F32.zero)
            then initial_period_loop (S n) x0 (x20 + 1) s20 (F32.fadd s21 (F32.fneg s2))
            else initial_period_loop (S n) x0 (x20 + 1) (F32.fadd s20 s2) s21).
    change (initial_period_loop (S n) x0 x20 s20 s21)
      with (let s2 := F32.fsub (load x0 x20) (load x0 (x20 - 1)) in
            if IEEE.cond_lt (IEEE.fcmp s2 F32.zero)
            then initial_period_loop n x0 (x20 + 1) s20 (F32.fadd s21 (F32.fneg s2))
            else initial_period_loop n x0 (x20 + 1) (F32.fadd s20 s2) s21).
    cbv zeta.
    replace (x20 + Z.of_nat (S n)) with (x20 + 1 + Z.of_nat n) by lia.
    destruct (IEEE.cond_lt _); apply IH.
Qed.

(** The change read by the last pass of the first loop and the change
    read by the first pass of the second loop are the same one: both
    passes load [prices[P]] and [prices[P-1]]. *)
Lemma second_loop_rereads_last_seed_change x0 x1 P n g l s20 s21 :
  (1 <= P) ->
  initial_period_loop 1 x0 (1 + Z.of_nat (Z.to_nat P - 1)) g l =
    (let s2 := change x0 P in
     if IEEE.cond_lt (IEEE.fcmp s2 F32.zero)
     then (g, F32.fadd l (F32.fneg s2)) else (F32.fadd g s2, l)) /\
  rsi_calculation_loop (S n) x0 x1 P P s20 s21 =
    (let s2 := change x0 P in
     let lt := IEEE.cond_lt (IEEE.fcmp s2 F32.zero) in
     let s3 := if lt then F32.zero else s2 in
     let s4 := if lt then F32.fneg s2 else F32.zero in
     let s20' := F32.fdiv (F32.fadd (F32.fmul (F32.scvtf (P - 1)) s20) s3) (F32.scvtf P) in
     let s21' := F32.fdiv (F32.fadd (F32.fmul (F32.scvtf (P - 1)) s21) s4) (F32.scvtf P) in
     rsi_calculation_loop n x0 (store x1 P (rsi_value s20' s21')) P (P + 1) s20' s21').
Proof.
  intros HP. split.
  - replace (1 + Z.of_nat (Z.to_nat P - 1)) with P by lia.
    cbn [initial_period_loop]. unfold change. cbv zeta.
    destruct (IEEE.cond_lt _); reflexivity.
  - reflexivity.
Qed.

(** C5, evaluated: period 2 on prices 1, 2, 1, 2, 1.  The routine
    writes 25, 62.499996 and 31.25 at positions 2, 3 and 4; Wilder's
    smoothing by hand gives 50, 75 and 37.5.  No value the routine
    writes is a value of the reference, at any position. *)
Theorem rsi_differs_from_wilder_reference :
  let prices := map Examples.f32 [1; 2; 1; 2; 1] in
  calculate_rsi prices 2
    = [F32.zero; F32.zero; Examples.f32 25; F32.dyadic 16383999 (-18); F32.dyadic 125 (-2)] /\
  wilder_rsi_reference prices 2
    = [None; None; Some (Examples.f32 50); Some (Examples.f32 75); Some (F32.dyadic 75 (-1))] /\
  (forall k j, (2 <= k < 5)%nat -> (j < 5)%nat ->
     Some (nth k (calculate_rsi prices 2) F32.zero)
     <> nth j (wilder_rsi_reference prices 2) None).
Proof.
  cbv zeta. repeat split; try (vm_compute; reflexivity).
  intros k j Hk Hj.
  assert (k = 2 \/ k = 3 \/ k = 4)%nat as [-> | [-> | ->]] by lia;
    assert (j = 0 \/ j = 1 \/ j = 2 \/ j = 3 \/ j = 4)%nat
      as [-> | [-> | [-> | [-> | ->]]]] by lia;
    vm_compute; discriminate.
Qed.

End RsiFacts.

(** ** Tick batches *)

Section TickFacts.

Import MarketData.

(** A single tick goes through the scalar path and becomes one record
    of three words. *)
Lemma process_single t instrument :
  process [t] instrument =
  [instrument;
   scaled_price (scaled_event instrument t);
   scaled_quantity (scaled_event instrument t)].
Proof. reflexivity. Qed.

Lemma records_one_at_a_time instrument : forall ticks,
  records (length ticks) (process_one_at_a_time ticks instrument)
  = map (scaled_event instrument) ticks.
Proof.
  induction ticks as [|t tl IH]; [reflexivity|].
  unfold process_one_at_a_time in *.
  cbn [flat_map length]. rewrite process_single.
  cbn [records app nth skipn map]. rewrite IH. reflexivity.
Qed.

(** A pair of ticks goes through the vector path: the two ids, then
    the two prices, then the two values taken from lane 0 of the second
    register of each tick, which holds the timestamp. *)
Lemma process_pair t1 t2 instrument :
  process [t1; t2] instrument =
  [instrument; instrument;
   IEEE.fcvtzs (F64.fmul (price t1) scale_factor);
   IEEE.fcvtzs (F64.fmul (price t2) scale_factor);
   IEEE.fcvtzs (F64.fmul (timestamp t1) scale_factor);
   IEEE.fcvtzs (F64.fmul (timestamp t2) scale_factor)].
Proof. reflexivity. Qed.

(** C9, evaluated: two ticks (price, quantity, timestamp) = (1, 2, 3)
    and (4, 5, 6) for instrument 7.  In one call the stored words are
    7, 7, 1e8, 4e8, 3e8, 6e8; one call per tick stores
    7, 1e8, 2e8, 7, 4e8, 5e8.  Read as records of three words, the
    one-call output is not the sequence of scaled ticks: neither the
    layout nor the quantities agree. *)
Theorem tick_pair_output_differs_from_single_ticks :
  let ticks := [Examples.tick 1 2 3; Examples.tick 4 5 6] in
  process ticks 7 = [7; 7; 100000000; 400000000; 300000000; 600000000] /\
  process_one_at_a_time ticks 7 = [7; 100000000; 200000000; 7; 400000000; 500000000] /\
  process ticks 7 <> process_one_at_a_time ticks 7 /\
  records 2 (process_one_at_a_time ticks 7) = map (scaled_event 7) ticks /\
  records 2 (process ticks 7) <> map (scaled_event 7) ticks.
Proof.
  cbv zeta. repeat split; try (vm_compute; reflexivity); vm_compute; discriminate.
Qed.

End TickFacts.

(** ** Order book: slots, loops and search on a sorted side *)

Section BookArrays.

Import OrderBook BookOrder.

Lemma store_nat_nth i v : forall arr j,
  nth j (store_nat i v arr) zero_level = if Nat.eqb j i then v else nth j arr zero_level.
Proof.
  induction i as [|i IH]; intros [|x tl] [|j]; simpl; try reflexivity.
  - destruct j; reflexivity.
  - rewrite IH. destruct (Nat.eqb j i); [reflexivity|]. destruct j; reflexivity.
  - apply IH.
Qed.

Lemma store_nat_length i v : forall arr,
  length (store_nat i v arr) = Nat.max (length arr) (S i).
Proof.
  induction i as [|i IH]; intros [|x tl]; simpl; try reflexivity.
  - destruct (length tl); reflexivity.
  - rewrite IH. reflexivity.
  - rewrite IH. reflexivity.
Qed.

Lemma load_store arr i v j :
  0 <= i -> 0 <= j ->
  load_level (store_level arr i v) j = if j =? i then v else load_level arr j.
Proof.
  intros Hi Hj. unfold load_level, store_level. rewrite store_nat_nth.
  destruct (Nat.eqb_spec (Z.to_nat j) (Z.to_nat i)), (Z.eqb_spec j i);
    try reflexivity; lia.
Qed.

Lemma store_level_length arr i v :
  0 <= i ->
  Z.of_nat (length (store_level arr i v)) = Z.max (Z.of_nat (length arr)) (i + 1).
Proof. intros Hi. unfold store_level. rewrite store_nat_length. lia. Qed.

(** The insert loop moves the slots [c - n .. c - 1] one slot up. *)
Lemma insert_shift_loop_load n : forall arr c j,
  Z.of_nat n <= c -> 0 <= j ->
  load_level (insert_shift_loop n arr c) j =
  if (c - Z.of_nat n <? j) && (j <=? c) then load_level arr (j - 1) else load_level arr j.
Proof.
  induction n as [|n IH]; intros arr c j Hn Hj.
  - cbn [insert_shift_loop]. 
    destruct (Z.ltb_spec (c - Z.of_nat 0) j), (Z.leb_spec j c); try reflexivity; lia.
  - cbn [insert_shift_loop]. rewrite IH by lia.
    destruct (Z.ltb_spec (c - 1 - Z.of_nat n) j), (Z.leb_spec j (c - 1)),
             (Z.ltb_spec (c - Z.of_nat (S n)) j), (Z.leb_spec j c);
      cbn [andb]; try lia; rewrite load_store by lia;
      match goal with
      | |- context [Z.eqb ?a ?b] => destruct (Z.eqb_spec a b)
      end; try lia; try reflexivity; f_equal; lia.
Qed.

Lemma insert_shift_loop_length n : forall arr c,
  Z.of_nat n <= c ->
  Z.of_nat (length arr) <= Z.of_nat (length (insert_shift_loop n arr c)) /\
  (0 < Z.of_nat n -> c + 1 <= Z.of_nat (length (insert_shift_loop n arr c))).
Proof.
  induction n as [|n IH]; intros arr c Hn; cbn [insert_shift_loop].
  - split; lia.
  - destruct (IH (store_level arr c (load_level arr (c - 1))) (c - 1) ltac:(lia)) as [H1 _].
    rewrite store_level_length in H1 by lia. split; lia.
Qed.

(** The delete loop moves the slots [s .. s + n - 1] one slot down. *)
Lemma shift_loop_load n : forall arr s j,
  1 <= s -> 0 <= j ->
  load_level (shift_loop n arr s) j =
  if (s - 1 <=? j) && (j <? s - 1 + Z.of_nat n) then load_level arr (j + 1)
  else load_level arr j.
Proof.
  induction n as [|n IH]; intros arr s j Hs Hj.
  - cbn [shift_loop].
    destruct (Z.leb_spec (s - 1) j), (Z.ltb_spec j (s - 1 + Z.of_nat 0)); try reflexivity; lia.
  - cbn [shift_loop]. rewrite IH by lia.
    destruct (Z.leb_spec (s + 1 - 1) j), (Z.ltb_spec j (s + 1 - 1 + Z.of_nat n)),
             (Z.leb_spec (s - 1) j), (Z.ltb_spec j (s - 1 + Z.of_nat (S n)));
      cbn [andb]; try lia; rewrite load_store by lia;
      match goal with
      | |- context [Z.eqb ?a ?b] => destruct (Z.eqb_spec a b)
      end; try lia; try reflexivity; f_equal; lia.
Qed.

Lemma shift_loop_length n : forall arr s,
  1 <= s -> Z.of_nat (length arr) <= Z.of_nat (length (shift_loop n arr s)).
Proof.
  induction n as [|n IH]; intros arr s Hs; cbn [shift_loop]; [lia|].
  specialize (IH (store_level arr (s - 1) (load_level arr s)) (s + 1) ltac:(lia)).
  rewrite store_level_length in IH by lia. lia.
Qed.

(** *** The order [before] *)

Lemma before_trans side a b c : before side a b -> before side b c -> before side a c.
Proof. unfold before. destruct (side =? 0); lia. Qed.

Lemma before_irrefl side a : ~ before side a a.
Proof. unfold before. destruct (side =? 0); lia. Qed.

Lemma before_asym side a b : before side a b -> ~ before side b a.
Proof. unfold before. destruct (side =? 0); lia. Qed.

Lemma signed64_inj a b :
  word64 a -> word64 b -> Word.signed64 a = Word.signed64 b -> a = b.
Proof.
  unfold word64, Word.signed64. intros Ha Hb H.
  change (2 ^ 64) with 18446744073709551616 in *.
  change (2 ^ 63) with 9223372036854775808 in *.
  Z.to_euclidean_division_equations. lia.
Qed.

(** Two different words are ordered one way or the other. *)
Lemma before_total side a b :
  word64 a -> word64 b -> a <> b -> before side a b \/ before side b a.
Proof.
  intros Ha Hb Hne.
  assert (Word.signed64 a <> Word.signed64 b)
    by (intros E; apply Hne; apply signed64_inj; assumption).
  unfold before. destruct (side =? 0); lia.
Qed.

(** The test the search makes to go left, as a proposition. *)
Lemma go_left_spec side x2 x15 :
  (if side =? 0 then Word.signed64 x2 >? Word.signed64 x15
   else Word.signed64 x2 <? Word.signed64 x15) = true <-> before side x2 x15.
Proof.
  unfold before. destruct (side =? 0).
  - rewrite Z.gtb_ltb, Z.ltb_lt. lia.
  - apply Z.ltb_lt.
Qed.

Lemma if_side_merge {A} (side a b : bool) (L R : A) :
  (if side then (if a then L else R) else (if b then L else R)) =
  (if (if side then a else b) then L else R).
Proof. destruct side; reflexivity. Qed.

(** On a sorted side a price that is there is found at its index. *)
Lemma binary_search_finds side arr count x2 i lo hi :
  sorted side arr count ->
  0 <= lo -> hi <= count -> lo <= i < hi -> price_at arr i = x2 ->
  binary_search arr side x2 lo hi = found_exact i.
Proof.
  intros Hs. revert i.
  funelim (binary_search arr side x2 lo hi); intros i Hlo Hhi Hi Hp.
  - pose proof (midpoint_bounds x11 x12 l) as Hm.
    set (mid := Z.shiftr (x11 + x12) 1) in *.
    fold (price_at x9 mid).
    assert (Hcmp : forall a b, 0 <= a -> a < b -> b < count ->
                     before x1 (price_at x9 a) (price_at x9 b))
      by (intros a b Ha Hab Hb; apply Hs; lia).
    destruct (Z.eqb_spec x2 (price_at x9 mid)) as [E|E].
    + f_equal. destruct (Z.lt_trichotomy mid i) as [Hlt|[Hsame|Hgt]]; [|exact Hsame|].
      * exfalso. pose proof (Hcmp mid i ltac:(lia) Hlt ltac:(lia)) as Hb.
        rewrite Hp, <- E in Hb. exact (before_irrefl _ _ Hb).
      * exfalso. pose proof (Hcmp i mid ltac:(lia) Hgt ltac:(lia)) as Hb.
        rewrite Hp, <- E in Hb. exact (before_irrefl _ _ Hb).
    + assert (Hne : mid <> i) by (intros ->; apply E; symmetry; exact Hp).
      rewrite if_side_merge.
      pose proof (go_left_spec x1 x2 (price_at x9 mid)) as Hgo.
      destruct (if x1 =? 0
                then Word.signed64 x2 >? Word.signed64 (price_at x9 mid)
                else Word.signed64 x2 <? Word.signed64 (price_at x9 mid)) eqn:Hc.
      * apply (H count Hs); try lia; try assumption.
        destruct (Z_lt_dec i mid); [lia|]. exfalso.
        pose proof (Hcmp mid i ltac:(lia) ltac:(lia) ltac:(lia)) as Hb.
        rewrite Hp in Hb.
        exact (before_asym _ _ _ (proj1 Hgo eq_refl) Hb).
      * apply (H0 count Hs); try lia; try assumption.
        destruct (Z_lt_dec mid i); [lia|]. exfalso.
        pose proof (Hcmp i mid ltac:(lia) ltac:(lia) ltac:(lia)) as Hb.
        rewrite Hp in Hb. apply Hgo in Hb. discriminate.
  - lia.
Qed.

(** On a sorted side, where the search gives up is the place of the
    price: nothing below that index comes after the price or equals it,
    everything from that index on comes after it. *)
Lemma binary_search_gives_place side arr count x2 lo hi pos :
  sorted side arr count ->
  0 <= lo -> lo <= hi -> hi <= count ->
  binary_search arr side x2 lo hi = not_found pos ->
  lo <= pos <= hi /\
  (forall i, lo <= i < pos -> ~ before side x2 (price_at arr i) /\ price_at arr i <> x2) /\
  (forall i, pos <= i < hi -> before side x2 (price_at arr i)).
Proof.
  intros Hs. revert pos.
  funelim (binary_search arr side x2 lo hi); intros pos Hlo Hle Hhi Hf.
  - pose proof (midpoint_bounds x11 x12 l) as Hm.
    set (mid := Z.shiftr (x11 + x12) 1) in *.
    fold (price_at x9 mid) in Hf.
    destruct (Z.eqb_spec x2 (price_at x9 mid)) as [E|E]; [discriminate|].
    rewrite if_side_merge in Hf.
    pose proof (go_left_spec x1 x2 (price_at x9 mid)) as Hgo.
    destruct (if x1 =? 0
              then Word.signed64 x2 >? Word.signed64 (price_at x9 mid)
              else Word.signed64 x2 <? Word.signed64 (price_at x9 mid)) eqn:Hc.
    + assert (Hb : before x1 x2 (price_at x9 mid)) by (apply Hgo; reflexivity).
      destruct (H count Hs pos Hlo ltac:(lia) ltac:(lia) Hf) as [Hp [Hbelow Habove]].
      split; [lia|]. split; [exact Hbelow|].
      intros i Hi. destruct (Z_lt_dec i mid) as [Hlt|Hge]; [apply Habove; lia|].
      destruct (Z.eq_dec i mid) as [->|Hne]; [exact Hb|].
      apply (before_trans _ _ (price_at x9 mid)); [exact Hb|].
      apply Hs; lia.
    + assert (Hnb : ~ before x1 x2 (price_at x9 mid))
        by (intros Hb; apply Hgo in Hb; discriminate).
      destruct (H0 count Hs pos ltac:(lia) ltac:(lia) Hhi Hf) as [Hp [Hbelow Habove]].
      split; [lia|]. split; [|exact Habove].
      intros i Hi. destruct (Z_lt_dec mid i) as [Hlt|Hge]; [apply Hbelow; lia|].
      destruct (Z.eq_dec i mid) as [->|Hne];
        [split; [exact Hnb|intros E'; apply E; symmetry; exact E']|].
      assert (Him : before x1 (price_at x9 i) (price_at x9 mid)) by (apply Hs; lia).
      split.
      * intros Hb. apply Hnb. apply (before_trans _ _ (price_at x9 i)); assumption.
      * intros E'. rewrite E' in Him. exact (Hnb Him).
  - inversion Hf; subst. split; [lia|]. split; intros i Hi; lia.
Qed.

End BookArrays.

(** ** Order book: what one call does to a side *)

Section BookCalls.

Import OrderBook BookOrder.

(** The new level stored at [pos] after the insert loop. *)
Lemma insert_array_spec arr cnt pos new :
  0 <= pos <= cnt -> cnt <= Z.of_nat (length arr) ->
  let arr' := store_level (insert_shift_loop (Z.to_nat (cnt - pos)) arr cnt) pos new in
  (forall j, 0 <= j < pos -> load_level arr' j = load_level arr j) /\
  load_level arr' pos = new /\
  (forall j, pos < j <= cnt -> load_level arr' j = load_level arr (j - 1)) /\
  cnt + 1 <= Z.of_nat (length arr').
Proof.
  intros Hpos Hlen arr'. subst arr'.
  assert (Hn : Z.of_nat (Z.to_nat (cnt - pos)) <= cnt) by lia.
  repeat split.
  - intros j Hj. rewrite load_store, insert_shift_loop_load by lia.
    destruct (Z.eqb_spec j pos); [lia|].
    destruct (Z.ltb_spec (cnt - Z.of_nat (Z.to_nat (cnt - pos))) j); [lia|reflexivity].
  - rewrite load_store by lia. rewrite Z.eqb_refl. reflexivity.
  - intros j Hj. rewrite load_store, insert_shift_loop_load by lia.
    destruct (Z.eqb_spec j pos); [lia|].
    destruct (Z.ltb_spec (cnt - Z.of_nat (Z.to_nat (cnt - pos))) j),
             (Z.leb_spec j cnt); try lia. reflexivity.
  - rewrite store_level_length by lia.
    destruct (insert_shift_loop_length (Z.to_nat (cnt - pos)) arr cnt Hn) as [H1 H2].
    destruct (Z.eq_dec pos cnt) as [->|Hne]; [lia|].
    specialize (H2 ltac:(lia)). lia.
Qed.

(** The slots after the delete loop. *)
Lemma delete_array_spec arr cnt i :
  0 <= i < cnt ->
  let arr' := shift_loop (Z.to_nat (cnt - (i + 1))) arr (i + 1) in
  (forall j, 0 <= j < i -> load_level arr' j = load_level arr j) /\
  (forall j, i <= j < cnt - 1 -> load_level arr' j = load_level arr (j + 1)) /\
  Z.of_nat (length arr) <= Z.of_nat (length arr').
Proof.
  intros Hi arr'. subst arr'. repeat split.
  - intros j Hj. rewrite shift_loop_load by lia.
    destruct (Z.leb_spec (i + 1 - 1) j); [lia|reflexivity].
  - intros j Hj. rewrite shift_loop_load by lia.
    destruct (Z.leb_spec (i + 1 - 1) j),
             (Z.ltb_spec j (i + 1 - 1 + Z.of_nat (Z.to_nat (cnt - (i + 1))))); try lia.
    reflexivity.
  - apply shift_loop_length. lia.
Qed.

Lemma load_level_nat arr j : load_level arr (Z.of_nat j) = nth j arr zero_level.
Proof. unfold load_level. rewrite Nat2Z.id. reflexivity. Qed.

(** From slots to lists: a level put in at [p]. *)
Lemma levels_inserted arr arr' (c p : nat) new :
  (p <= c)%nat -> (c <= length arr)%nat -> (S c <= length arr')%nat ->
  (forall j, (j < p)%nat -> nth j arr' zero_level = nth j arr zero_level) ->
  nth p arr' zero_level = new ->
  (forall j, (p < j <= c)%nat -> nth j arr' zero_level = nth (j - 1) arr zero_level) ->
  firstn (S c) arr' = firstn p (firstn c arr) ++ new :: skipn p (firstn c arr).
Proof.
  intros Hp Hc Hc' Hlt Heq Hgt.
  apply nth_ext with (d := zero_level) (d' := zero_level).
  - rewrite length_app, !length_firstn. cbn [length].
    rewrite length_skipn, !length_firstn. lia.
  - intros j Hj. rewrite length_firstn in Hj.
    rewrite nth_firstn. destruct (Nat.ltb_spec j (S c)); [|lia].
    destruct (Nat.lt_trichotomy j p) as [H1|[H1|H1]].
    + rewrite app_nth1 by (rewrite !length_firstn; lia).
      rewrite !nth_firstn.
      destruct (Nat.ltb_spec j p), (Nat.ltb_spec j c); try lia. apply Hlt. lia.
    + subst j. rewrite app_nth2 by (rewrite !length_firstn; lia).
      rewrite !length_firstn. replace (p - Nat.min p (Nat.min c (length arr)))%nat with 0%nat by lia.
      exact Heq.
    + rewrite app_nth2 by (rewrite !length_firstn; lia).
      rewrite !length_firstn.
      replace (j - Nat.min p (Nat.min c (length arr)))%nat with (S (j - p - 1)) by lia.
      cbn [nth]. rewrite nth_skipn, nth_firstn.
      destruct (Nat.ltb_spec (p + (j - p - 1)) c); [|lia].
      rewrite Hgt by lia. f_equal. lia.
Qed.

(** From slots to lists: the level at [i] taken out. *)
Lemma levels_deleted arr arr' (c i : nat) :
  (i < c)%nat -> (c <= length arr)%nat -> (c - 1 <= length arr')%nat ->
  (forall j, (j < i)%nat -> nth j arr' zero_level = nth j arr zero_level) ->
  (forall j, (i <= j < c - 1)%nat -> nth j arr' zero_level = nth (S j) arr zero_level) ->
  firstn (c - 1) arr' = firstn i (firstn c arr) ++ skipn (S i) (firstn c arr).
Proof.
  intros Hi Hc Hc' Hlt Hge.
  apply nth_ext with (d := zero_level) (d' := zero_level).
  - rewrite length_app, length_skipn, !length_firstn. lia.
  - intros j Hj. rewrite length_firstn in Hj.
    rewrite nth_firstn. destruct (Nat.ltb_spec j (c - 1)); [|lia].
    destruct (Nat.lt_ge_cases j i) as [H1|H1].
    + rewrite app_nth1 by (rewrite !length_firstn; lia).
      rewrite !nth_firstn.
      destruct (Nat.ltb_spec j i), (Nat.ltb_spec j c); try lia. apply Hlt. lia.
    + rewrite app_nth2 by (rewrite !length_firstn; lia).
      rewrite !length_firstn, nth_skipn, nth_firstn.
      replace (S i + (j - Nat.min i (Nat.min c (length arr))))%nat with (S j) by lia.
      destruct (Nat.ltb_spec (S j) c); [|lia].
      apply Hge. lia.
Qed.

(** From slots to lists: the level at [i] replaced. *)
Lemma levels_replaced arr arr' (c i : nat) new :
  (i < c)%nat -> (c <= length arr)%nat -> (c <= length arr')%nat ->
  (forall j, (j < c)%nat -> j <> i -> nth j arr' zero_level = nth j arr zero_level) ->
  nth i arr' zero_level = new ->
  firstn c arr' = firstn i (firstn c arr) ++ new :: skipn (S i) (firstn c arr).
Proof.
  intros Hi Hc Hc' Hne Heq.
  apply nth_ext with (d := zero_level) (d' := zero_level).
  - rewrite length_app, !length_firstn. cbn [length].
    rewrite length_skipn, !length_firstn. lia.
  - intros j Hj. rewrite length_firstn in Hj.
    rewrite nth_firstn. destruct (Nat.ltb_spec j c); [|lia].
    destruct (Nat.lt_trichotomy j i) as [H1|[H1|H1]].
    + rewrite app_nth1 by (rewrite !length_firstn; lia).
      rewrite !nth_firstn.
      destruct (Nat.ltb_spec j i), (Nat.ltb_spec j c); try lia. apply Hne; lia.
    + subst j. rewrite app_nth2 by (rewrite !length_firstn; lia).
      rewrite !length_firstn. replace (i - Nat.min i (Nat.min c (length arr)))%nat with 0%nat by lia.
      exact Heq.
    + rewrite app_nth2 by (rewrite !length_firstn; lia).
      rewrite !length_firstn.
      replace (j - Nat.min i (Nat.min c (length arr)))%nat with (S (j - i - 1)) by lia.
      cbn [nth]. rewrite nth_skipn, nth_firstn.
      replace (S i + (j - i - 1))%nat with j by lia.
      destruct (Nat.ltb_spec j c); [|lia].
      apply Hne; lia.
Qed.

(** *** The book after [update_counts] *)

Lemma side_array_touched b x1 arr cnt :
  side_array (update_counts b x1 arr cnt) x1 = arr.
Proof. unfold side_array, update_counts. cbn. destruct (x1 =? 0); reflexivity. Qed.

Lemma side_count_touched b x1 arr cnt :
  side_count (update_counts b x1 arr cnt) x1 = Word.wrap32 cnt.
Proof. unfold side_count, update_counts. cbn. destruct (x1 =? 0); reflexivity. Qed.

Lemma side_untouched b x1 arr cnt s :
  (s =? 0) <> (x1 =? 0) ->
  side_array (update_counts b x1 arr cnt) s = side_array b s /\
  side_count (update_counts b x1 arr cnt) s = side_count b s.
Proof.
  unfold side_array, side_count, update_counts. cbn.
  destruct (x1 =? 0), (s =? 0); intros H; try congruence; split; reflexivity.
Qed.

Lemma wrap32_small z : 0 <= z < 2 ^ 32 -> Word.wrap32 z = z.
Proof. intros H. apply Z.mod_small. exact H. Qed.

End BookCalls.

(** ** Order book: a call keeps a side in order *)

Section BookSteps.

Import OrderBook BookOrder.

Lemma price_at_load arr arr' j k :
  load_level arr' j = load_level arr k -> price_at arr' j = price_at arr k.
Proof. unfold price_at. intros ->. reflexivity. Qed.

(** [side_ok] looks at the side only through [side =? 0]. *)
Lemma side_ok_same_side b s x1 :
  (s =? 0) = (x1 =? 0) -> side_ok b s -> side_ok b x1.
Proof.
  unfold side_ok, side_count, side_array, sorted, before. intros ->. auto.
Qed.

Lemma side_ok_empty b s arr :
  side_ok (update_counts b s arr (2 ^ 32)) s.
Proof.
  unfold side_ok. rewrite side_array_touched, side_count_touched.
  change (Word.wrap32 (2 ^ 32)) with 0.
  split; [lia|]. split; [lia|]. split; intros i; intros; lia.
Qed.

(** The touched side after a call on a side that was in order. *)
Lemma touched_side_ok b x1 x2 x3 x4 :
  side_ok b x1 -> word64 x2 ->
  side_ok (snd (nautilus_update_l2_level b x1 x2 x3 x4)) x1.
Proof.
  intros Hok Hx2. pose proof Hok as (Hc & Hlen & Hw & Hs).
  change (nautilus_update_l2_level b x1 x2 x3 x4) with
    (match binary_search (side_array b x1) x1 x2 0 (side_count b x1) with
     | found_exact x13 =>
         if x4 =? 1 then
           (if x13 =? 0 then 3 else 1,
            update_counts b x1
              (shift_loop (Z.to_nat (side_count b x1 - (x13 + 1))) (side_array b x1) (x13 + 1))
              (side_count b x1 - 1))
         else
           (if x13 =? 0 then 3 else 1,
            update_counts b x1
              (store_level (side_array b x1) x13
                 {| price_field := price_field (load_level (side_array b x1) x13);
                    quantity_field := x3 |})
              (side_count b x1))
     | not_found x11 =>
         if x3 =? 0 then (0, b)
         else
           (if x11 =? 0 then 3 else 1,
            update_counts b x1
              (store_level
                 (insert_shift_loop (Z.to_nat (side_count b x1 - x11)) (side_array b x1)
                                    (side_count b x1))
                 x11 {| price_field := x2; quantity_field := x3 |})
              (side_count b x1 + 1))
     end).
  set (arr := side_array b x1) in *. set (cnt := side_count b x1) in *.
  destruct (binary_search arr x1 x2 0 cnt) as [i|pos] eqn:E.
  - destruct (binary_search_found _ _ _ _ _ _ E) as [Hi Hp].
    destruct (x4 =? 1); cbn [snd]; unfold side_ok;
      rewrite side_array_touched, side_count_touched, wrap32_small by lia.
    + destruct (delete_array_spec arr cnt i Hi) as (Hlt & Hge & Hl).
      cbv zeta in Hlt, Hge, Hl.
      set (arr' := shift_loop _ arr (i + 1)) in *.
      assert (Hpr : forall j, 0 <= j < cnt - 1 ->
                exists k, price_at arr' j = price_at arr k /\ 0 <= k < cnt /\
                          (j < i -> k = j) /\ (i <= j -> k = j + 1)).
      { intros j Hj. destruct (Z_lt_dec j i).
        - exists j. split; [apply price_at_load, Hlt; lia|lia].
        - exists (j + 1). split; [apply price_at_load, Hge; lia|lia]. }
      split; [lia|]. split; [lia|]. split.
      * intros j Hj. destruct (Hpr j Hj) as (k & -> & Hk & _). apply Hw. exact Hk.
      * intros a c Ha Hac Hcc.
        destruct (Hpr a ltac:(lia)) as (ka & -> & Hka & Hka1 & Hka2).
        destruct (Hpr c ltac:(lia)) as (kc & -> & Hkc & Hkc1 & Hkc2).
        apply Hs; lia.
    + assert (Hpr : forall j, 0 <= j ->
                price_at (store_level arr i
                            {| price_field := price_field (load_level arr i);
                               quantity_field := x3 |}) j = price_at arr j).
      { intros j Hj. unfold price_at. rewrite load_store by lia.
        destruct (Z.eqb_spec j i) as [->|]; reflexivity. }
      split; [lia|]. split; [rewrite store_level_length by lia; lia|]. split.
      * intros j Hj. rewrite Hpr by lia. apply Hw. exact Hj.
      * intros a c Ha Hac Hcc. rewrite !Hpr by lia. apply Hs; lia.
  - destruct (binary_search_gives_place x1 arr cnt x2 0 cnt pos Hs
                ltac:(lia) ltac:(lia) ltac:(lia) E) as (Hpos & Hbelow & Habove).
    destruct (x3 =? 0); cbn [snd]; [exact Hok|].
    destruct (Z_lt_dec (cnt + 1) (2 ^ 32)) as [Hroom|Hfull];
      [|replace (cnt + 1) with (2 ^ 32) by lia; apply side_ok_empty].
    unfold side_ok.
    rewrite side_array_touched, side_count_touched, wrap32_small by lia.
    destruct (insert_array_spec arr cnt pos {| price_field := x2; quantity_field := x3 |}
                Hpos Hlen) as (Hlt & Heq & Hgt & Hl).
    cbv zeta in Hlt, Heq, Hgt, Hl.
    set (arr' := store_level _ pos _) in *.
    assert (Hbefore : forall k, 0 <= k < pos -> before x1 (price_at arr k) x2).
    { intros k Hk. destruct (Hbelow k Hk) as [Hnb Hne].
      destruct (before_total x1 (price_at arr k) x2) as [H|H]; auto.
      - apply Hw. lia.
      - contradiction. }
    assert (Hnew : price_at arr' pos = x2) by (unfold price_at; rewrite Heq; reflexivity).
    assert (Hlow : forall j, 0 <= j < pos -> price_at arr' j = price_at arr j)
      by (intros j Hj; apply price_at_load, Hlt; exact Hj).
    assert (Hhigh : forall j, pos < j <= cnt -> price_at arr' j = price_at arr (j - 1))
      by (intros j Hj; apply price_at_load, Hgt; exact Hj).
    split; [lia|]. split; [lia|]. split.
    + intros j Hj.
      destruct (Z.lt_trichotomy j pos) as [H|[->|H]].
      * rewrite Hlow by lia. apply Hw. lia.
      * rewrite Hnew. exact Hx2.
      * rewrite Hhigh by lia. apply Hw. lia.
    + intros a c Ha Hac Hcc.
      destruct (Z.lt_trichotomy a pos) as [H|[->|H]];
        destruct (Z.lt_trichotomy c pos) as [H'|[->|H']]; try lia.
      * rewrite !Hlow by lia. apply Hs; lia.
      * rewrite Hlow, Hnew by lia. apply Hbefore. lia.
      * rewrite Hlow, Hhigh by lia. apply Hs; lia.
      * rewrite Hnew, Hhigh by lia. apply Habove. lia.
      * rewrite !Hhigh by lia. apply Hs; lia.
Qed.

(** The other side is the same book side after the call. *)
Lemma other_side_same b x1 x2 x3 x4 s :
  (s =? 0) <> (x1 =? 0) ->
  side_array (snd (nautilus_update_l2_level b x1 x2 x3 x4)) s = side_array b s /\
  side_count (snd (nautilus_update_l2_level b x1 x2 x3 x4)) s = side_count b s.
Proof.
  intros Hs. unfold nautilus_update_l2_level.
  destruct (binary_search _ x1 x2 0 _) as [i|pos].
  - destruct (x4 =? 1); cbn [snd]; apply side_untouched; exact Hs.
  - destruct (x3 =? 0); cbn [snd]; [split; reflexivity|].
    apply side_untouched; exact Hs.
Qed.

Lemma update_keeps_side_ok b x1 x2 x3 x4 s :
  side_ok b s -> word64 x2 ->
  side_ok (snd (nautilus_update_l2_level b x1 x2 x3 x4)) s.
Proof.
  intros Hok Hx2.
  destruct (Bool.bool_dec (s =? 0) (x1 =? 0)) as [Hsame|Hdiff].
  - apply (side_ok_same_side _ x1 s); [congruence|].
    apply touched_side_ok; [|exact Hx2].
    apply (side_ok_same_side _ s x1); assumption.
  - destruct (other_side_same b x1 x2 x3 x4 s Hdiff) as [Ha Hc].
    unfold side_ok in *. rewrite Ha, Hc. exact Hok.
Qed.

End BookSteps.

(** ** Order book: properties of the routine *)

Section BookProperties.

Import OrderBook BookOrder.

Lemma update_shape b x1 x2 x3 x4 :
  nautilus_update_l2_level b x1 x2 x3 x4 =
  match binary_search (side_array b x1) x1 x2 0 (side_count b x1) with
  | found_exact x13 =>
      if x4 =? 1 then
        (if x13 =? 0 then 3 else 1,
         update_counts b x1
           (shift_loop (Z.to_nat (side_count b x1 - (x13 + 1))) (side_array b x1) (x13 + 1))
           (side_count b x1 - 1))
      else
        (if x13 =? 0 then 3 else 1,
         update_counts b x1
           (store_level (side_array b x1) x13
              {| price_field := price_field (load_level (side_array b x1) x13);
                 quantity_field := x3 |})
           (side_count b x1))
  | not_found x11 =>
      if x3 =? 0 then (0, b)
      else
        (if x11 =? 0 then 3 else 1,
         update_counts b x1
           (store_level
              (insert_shift_loop (Z.to_nat (side_count b x1 - x11)) (side_array b x1)
                                 (side_count b x1))
              x11 {| price_field := x2; quantity_field := x3 |})
           (side_count b x1 + 1))
  end.
Proof. reflexivity. Qed.

Lemma levels_length b side :
  0 <= side_count b side <= Z.of_nat (length (side_array b side)) ->
  length (levels b side) = Z.to_nat (side_count b side).
Proof. intros H. unfold levels. rewrite length_firstn. lia. Qed.

Lemma levels_nth b side j :
  (j < Z.to_nat (side_count b side))%nat ->
  nth j (levels b side) zero_level = load_level (side_array b side) (Z.of_nat j).
Proof.
  intros H. unfold levels. rewrite nth_firstn, load_level_nat.
  destruct (Nat.ltb_spec j (Z.to_nat (side_count b side))); [reflexivity|lia].
Qed.

Lemma small_book_ok : well_formed BookExamples.small_book.
Proof.
  split; (split; [cbn; lia|]); (split; [cbn; lia|]); split.
  - intros i Hi. cbn in Hi.
    assert (i = 0 \/ i = 1) as [-> | ->] by lia; vm_compute; split; congruence.
  - intros i j Hi Hij Hj. cbn in Hj.
    assert (i = 0 /\ j = 1) as [-> ->] by lia. vm_compute. reflexivity.
  - intros i Hi. cbn in Hi.
    assert (i = 0 \/ i = 1 \/ i = 2) as [-> | [-> | ->]] by lia;
      vm_compute; split; congruence.
  - intros i j Hi Hij Hj. cbn in Hj.
    assert ((i = 0 /\ j = 1) \/ (i = 0 /\ j = 2) \/ (i = 1 /\ j = 2))
      as [[-> ->] | [[-> ->] | [-> ->]]] by lia; vm_compute; reflexivity.
Qed.

(** Where the search ends for a price that is on no level of a side in
    order. *)
Lemma absent_price_place (b : Book) (side x2 : Z) :
  side_ok b side -> word64 x2 -> ~ present b side x2 ->
  exists pos,
    binary_search (side_array b side) side x2 0 (side_count b side) = not_found pos /\
    0 <= pos <= side_count b side /\
    (forall i, 0 <= i < pos -> before side (price_at (side_array b side) i) x2) /\
    (forall i, pos <= i < side_count b side ->
       before side x2 (price_at (side_array b side) i)).
Proof.
  intros (Hc & Hlen & Hw & Hs) Hx2 Habs.
  destruct (binary_search_absent b side x2 Habs) as [pos E].
  exists pos. split; [exact E|].
  destruct (binary_search_gives_place side (side_array b side) (side_count b side)
              x2 0 (side_count b side) pos Hs
              ltac:(lia) ltac:(lia) ltac:(lia) E) as (Hpos & Hbelow & Habove).
  split; [exact Hpos|]. split; [|exact Habove].
  intros i Hi. destruct (Hbelow i Hi) as [Hnb Hne].
  destruct (before_total side (price_at (side_array b side) i) x2) as [H|H]; auto.
  - apply Hw. lia.
  - contradiction.
Qed.

(** X1: on a side in order the search is exact.  A price that is on a
    level is found at the index of that level; a price that is on no
    level ends the search at the one place where it fits: every level
    below that index comes before the price and every level from that
    index on comes after it. *)
Theorem search_is_exact_on_sorted_side (b : Book) (side x2 : Z) :
  side_ok b side -> word64 x2 ->
  (forall i, 0 <= i < side_count b side -> price_at (side_array b side) i = x2 ->
     binary_search (side_array b side) side x2 0 (side_count b side) = found_exact i) /\
  (~ present b side x2 ->
   exists pos,
     binary_search (side_array b side) side x2 0 (side_count b side) = not_found pos /\
     0 <= pos <= side_count b side /\
     (forall i, 0 <= i < pos -> before side (price_at (side_array b side) i) x2) /\
     (forall i, pos <= i < side_count b side ->
        before side x2 (price_at (side_array b side) i))).
Proof.
  intros Hok Hx2. split.
  - destruct Hok as (Hc & Hlen & Hw & Hs).
    intros i Hi Hp. apply (binary_search_finds side _ (side_count b side)); auto; lia.
  - intros Habs. apply absent_price_place; assumption.
Qed.

(** The ask at 102.00 is found at index 1; 103.00 fits at index 2. *)
Lemma search_is_exact_on_sorted_side_witness :
  binary_search (asks_array BookExamples.small_book) ASK (scaled 102) 0 3 = found_exact 1 /\
  exists pos,
    binary_search (asks_array BookExamples.small_book) ASK (scaled 103) 0 3 = not_found pos /\
    0 <= pos <= 3.
Proof.
  destruct (search_is_exact_on_sorted_side BookExamples.small_book ASK (scaled 102)
              (proj2 small_book_ok) ltac:(vm_compute; split; congruence)) as [Hfound _].
  destruct (search_is_exact_on_sorted_side BookExamples.small_book ASK (scaled 103)
              (proj2 small_book_ok) ltac:(vm_compute; split; congruence)) as [_ Habsent].
  split.
  - apply (Hfound 1); [cbn; lia|vm_compute; reflexivity].
  - destruct Habsent as (pos & E & Hpos & _).
    + intros (i & Hi & Hp). cbn in Hi.
      assert (i = 0 \/ i = 1 \/ i = 2) as [-> | [-> | ->]] by lia;
        vm_compute in Hp; discriminate.
    + exists pos. split; [exact E|exact Hpos].
Defined.

(** X2: on a side in order, a call for a price that is on no level, with
    a non-zero quantity, puts the new level in at its place and keeps
    every other level in its order: the levels before it come before the
    price, the levels after it come after the price.  The count goes up
    by one, and the call reports a change of the top exactly when the
    new level is the first one.  The action is not looked at. *)
Theorem absent_price_is_inserted_in_order (b : Book) (side x2 x3 x4 : Z) :
  side_ok b side -> word64 x2 -> ~ present b side x2 -> x3 <> 0 ->
  side_count b side + 1 < 2 ^ 32 ->
  let r := nautilus_update_l2_level b side x2 x3 x4 in
  exists pos : nat,
    (pos <= length (levels b side))%nat /\
    levels (snd r) side =
      firstn pos (levels b side)
      ++ {| price_field := x2; quantity_field := x3 |} :: skipn pos (levels b side) /\
    Forall (fun l => before side (price_field l) x2) (firstn pos (levels b side)) /\
    Forall (fun l => before side x2 (price_field l)) (skipn pos (levels b side)) /\
    side_count (snd r) side = side_count b side + 1 /\
    fst r = (if Nat.eqb pos 0 then 3 else 1).
Proof.
  intros Hok Hx2 Habs Hq Hroom r. subst r.
  pose proof Hok as (Hc & Hlen & Hw & Hs).
  destruct (absent_price_place b side x2 Hok Hx2 Habs)
    as (pos & E & Hpos & Hbelow & Habove).
  rewrite update_shape, E. apply Z.eqb_neq in Hq. rewrite Hq. cbn [fst snd].
  assert (HL : length (levels b side) = Z.to_nat (side_count b side))
    by (apply levels_length; lia).
  set (arr := side_array b side) in *. set (cnt := side_count b side) in *.
  destruct (insert_array_spec arr cnt pos {| price_field := x2; quantity_field := x3 |}
              Hpos Hlen) as (Hlt & Heq & Hgt & Hl).
  cbv zeta in Hlt, Heq, Hgt, Hl.
  set (arr' := store_level _ pos _) in *.
  exists (Z.to_nat pos). split; [lia|]. split; [|split; [|split; [|split]]].
  - unfold levels at 1. rewrite side_array_touched, side_count_touched, wrap32_small by lia.
    replace (Z.to_nat (cnt + 1)) with (S (Z.to_nat cnt)) by lia.
    unfold levels. fold arr. fold cnt.
    apply levels_inserted; try lia.
    + intros j Hj. rewrite <- !load_level_nat. apply Hlt. lia.
    + rewrite <- load_level_nat, Z2Nat.id by lia. exact Heq.
    + intros j Hj. rewrite <- !load_level_nat.
      rewrite Hgt by lia. f_equal. lia.
  - apply Forall_nth. intros j d Hj.
    rewrite length_firstn in Hj.
    rewrite nth_indep with (d' := zero_level) by (rewrite length_firstn; lia).
    rewrite nth_firstn. destruct (Nat.ltb_spec j (Z.to_nat pos)); [|lia].
    rewrite levels_nth by (fold cnt; lia). apply Hbelow. lia.
  - apply Forall_nth. intros j d Hj.
    rewrite length_skipn in Hj.
    rewrite nth_indep with (d' := zero_level) by (rewrite length_skipn; lia).
    rewrite nth_skipn, levels_nth by (fold cnt; lia). apply Habove. lia.
  - rewrite side_count_touched, wrap32_small by lia. reflexivity.
  - destruct (Z.eqb_spec pos 0), (Nat.eqb_spec (Z.to_nat pos) 0); try reflexivity; lia.
Qed.

End BookProperties.

Section BookBounds.

Import OrderBook BookOrder.

(** An index the search gives as a place lies between its bounds,
    whatever the array holds. *)
Lemma binary_search_place_range x9 x1 x2 x11 x12 pos :
  x11 <= x12 ->
  binary_search x9 x1 x2 x11 x12 = not_found pos -> x11 <= pos <= x12.
Proof.
  funelim (binary_search x9 x1 x2 x11 x12); intros Hle Hf.
  - pose proof (midpoint_bounds x11 x12 l) as Hm.
    destruct (x2 =? price_field (load_level x9 (Z.shiftr (x11 + x12) 1)));
      [discriminate|].
    destruct (x1 =? 0).
    + destruct (Word.signed64 x2 >? _).
      * apply H in Hf; lia.
      * apply H0 in Hf; lia.
    + destruct (Word.signed64 x2 <? _).
      * apply H in Hf; lia.
      * apply H0 in Hf; lia.
  - inversion Hf; subst. lia.
Qed.

Lemma store_level_in_place arr i v :
  0 <= i < Z.of_nat (length arr) -> length (store_level arr i v) = length arr.
Proof.
  intros Hi. pose proof (store_level_length arr i v ltac:(lia)). lia.
Qed.

Lemma insert_shift_loop_in_place n : forall arr c,
  Z.of_nat n <= c -> c < Z.of_nat (length arr) ->
  length (insert_shift_loop n arr c) = length arr.
Proof.
  induction n as [|n IH]; intros arr c Hn Hc; cbn [insert_shift_loop]; [reflexivity|].
  rewrite IH by (rewrite ?store_level_in_place; lia).
  apply store_level_in_place. lia.
Qed.

Lemma shift_loop_in_place n : forall arr s,
  1 <= s -> s - 1 + Z.of_nat n <= Z.of_nat (length arr) ->
  length (shift_loop n arr s) = length arr.
Proof.
  induction n as [|n IH]; intros arr s Hs Hn; cbn [shift_loop]; [reflexivity|].
  rewrite IH by (rewrite ?store_level_in_place; lia).
  apply store_level_in_place. lia.
Qed.

Lemma wrap32_le z : 0 <= z -> Word.wrap32 z <= z.
Proof. intros Hz. unfold Word.wrap32. apply Z.mod_le; lia. Qed.

(** With a free slot on the touched side every store of a call lands
    inside the side's array: the array keeps its length, and the count
    grows by one at most. *)
Lemma update_in_place b x1 x2 x3 x4 :
  0 <= side_count b x1 < Z.of_nat (length (side_array b x1)) ->
  length (side_array (snd (nautilus_update_l2_level b x1 x2 x3 x4)) x1)
    = length (side_array b x1) /\
  side_count (snd (nautilus_update_l2_level b x1 x2 x3 x4)) x1 <= side_count b x1 + 1.
Proof.
  intros Hc. rewrite update_shape.
  set (arr := side_array b x1) in *. set (cnt := side_count b x1) in *.
  destruct (binary_search arr x1 x2 0 cnt) as [i|pos] eqn:E.
  - destruct (binary_search_found _ _ _ _ _ _ E) as [Hi _].
    destruct (x4 =? 1); cbn [snd];
      rewrite side_array_touched, side_count_touched.
    + split.
      * apply shift_loop_in_place; lia.
      * pose proof (wrap32_le (cnt - 1) ltac:(lia)). lia.
    + split.
      * apply store_level_in_place. lia.
      * pose proof (wrap32_le cnt ltac:(lia)). lia.
  - pose proof (binary_search_place_range arr x1 x2 0 cnt pos ltac:(lia) E) as Hpos.
    destruct (x3 =? 0); cbn [snd].
    + fold arr. fold cnt. split; [reflexivity|lia].
    + rewrite side_array_touched, side_count_touched. split.
      * rewrite store_level_in_place; rewrite insert_shift_loop_in_place; lia.
      * pose proof (wrap32_le (cnt + 1) ltac:(lia)). lia.
Qed.

Lemma same_side_fields (b : Book) (s x1 : Z) :
  (s =? 0) = (x1 =? 0) ->
  side_array b s = side_array b x1 /\ side_count b s = side_count b x1.
Proof. intros H. unfold side_array, side_count. rewrite H. split; reflexivity. Qed.

(** One call uses up one free slot of a side at most, and moves no
    array. *)
Lemma step_keeps_room b x1 x2 x3 x4 s n :
  0 <= side_count b s -> 0 <= n -> room b s (n + 1) ->
  room (snd (nautilus_update_l2_level b x1 x2 x3 x4)) s n /\
  length (side_array (snd (nautilus_update_l2_level b x1 x2 x3 x4)) s)
    = length (side_array b s).
Proof.
  intros Hc Hn Hroom. unfold room in *.
  destruct (Bool.bool_dec (s =? 0) (x1 =? 0)) as [Hsame|Hother].
  - destruct (same_side_fields b s x1 Hsame) as [Ea Ec].
    destruct (same_side_fields (snd (nautilus_update_l2_level b x1 x2 x3 x4)) s x1 Hsame)
      as [Ea' Ec'].
    rewrite Ea', Ec', Ea, Ec in *.
    destruct (update_in_place b x1 x2 x3 x4 ltac:(lia)) as [Hl Hcnt].
    rewrite Hl. split; [lia|reflexivity].
  - destruct (other_side_same b x1 x2 x3 x4 s Hother) as [Ea Ec].
    rewrite Ea, Ec. split; [lia|reflexivity].
Qed.

End BookBounds.

Section BookProperties2.

Import OrderBook BookOrder.

Lemma sequence_touched b x1 arr cnt :
  sequence (update_counts b x1 arr cnt) = Word.wrap64 (sequence b + 1).
Proof. reflexivity. Qed.

(** An ask at 103.00 goes between 102.00 and 105.00. *)
Lemma absent_price_is_inserted_in_order_witness :
  let r := nautilus_update_l2_level BookExamples.small_book ASK (scaled 103) (scaled 7) UPSERT in
  exists pos : nat,
    (pos <= length (levels BookExamples.small_book ASK))%nat /\
    levels (snd r) ASK =
      firstn pos (levels BookExamples.small_book ASK)
      ++ {| price_field := scaled 103; quantity_field := scaled 7 |}
         :: skipn pos (levels BookExamples.small_book ASK) /\
    Forall (fun l => before ASK (price_field l) (scaled 103))
           (firstn pos (levels BookExamples.small_book ASK)) /\
    Forall (fun l => before ASK (scaled 103) (price_field l))
           (skipn pos (levels BookExamples.small_book ASK)) /\
    side_count (snd r) ASK = side_count BookExamples.small_book ASK + 1 /\
    fst r = (if Nat.eqb pos 0 then 3 else 1).
Proof.
  apply (absent_price_is_inserted_in_order BookExamples.small_book ASK
           (scaled 103) (scaled 7) UPSERT).
  - exact (proj2 small_book_ok).
  - vm_compute. split; congruence.
  - intros (i & Hi & Hp). cbn in Hi.
    assert (i = 0 \/ i = 1 \/ i = 2) as [-> | [-> | ->]] by lia;
      vm_compute in Hp; discriminate.
  - vm_compute. discriminate.
  - cbn. lia.
Defined.

(** X3: on a side in order, a remove of a price that is on a level takes
    exactly that level out and keeps the others in their order; the
    count goes down by one, the sequence goes up by one and the top is
    reported changed exactly when the level was the first one.  The
    quantity passed is not looked at. *)
Theorem present_price_remove_deletes_level (b : Book) (side x2 x3 i : Z) :
  side_ok b side -> 0 <= i < side_count b side ->
  price_at (side_array b side) i = x2 ->
  let r := nautilus_update_l2_level b side x2 x3 REMOVE in
  levels (snd r) side =
    firstn (Z.to_nat i) (levels b side) ++ skipn (S (Z.to_nat i)) (levels b side) /\
  side_count (snd r) side = side_count b side - 1 /\
  sequence (snd r) = Word.wrap64 (sequence b + 1) /\
  fst r = (if i =? 0 then 3 else 1).
Proof.
  intros Hok Hi Hp r. subst r.
  pose proof Hok as (Hc & Hlen & Hw & Hs).
  rewrite update_shape.
  rewrite (binary_search_finds side _ (side_count b side) x2 i 0 (side_count b side))
    by (auto; lia).
  change (REMOVE =? 1) with true. cbn [fst snd].
  set (arr := side_array b side) in *. set (cnt := side_count b side) in *.
  destruct (delete_array_spec arr cnt i Hi) as (Hlt & Hge & Hl).
  cbv zeta in Hlt, Hge, Hl.
  set (arr' := shift_loop _ arr (i + 1)) in *.
  split; [|split; [|split]]; try reflexivity.
  - unfold levels. rewrite side_array_touched, side_count_touched, wrap32_small by lia.
    fold arr. fold cnt.
    replace (Z.to_nat (cnt - 1)) with (Z.to_nat cnt - 1)%nat by lia.
    apply levels_deleted; try lia.
    + intros j Hj. rewrite <- !load_level_nat. apply Hlt. lia.
    + intros j Hj. rewrite <- !load_level_nat.
      rewrite Hge by lia. f_equal. lia.
  - rewrite side_count_touched, wrap32_small by lia. reflexivity.
Qed.

(** Removing the ask at 102.00 leaves 101.00 and 105.00. *)
Lemma present_price_remove_deletes_level_witness :
  let r := nautilus_update_l2_level BookExamples.small_book ASK (scaled 102) 0 REMOVE in
  levels (snd r) ASK =
    firstn 1 (levels BookExamples.small_book ASK)
    ++ skipn 2 (levels BookExamples.small_book ASK) /\
  side_count (snd r) ASK = side_count BookExamples.small_book ASK - 1 /\
  sequence (snd r) = Word.wrap64 (sequence BookExamples.small_book + 1) /\
  fst r = 1.
Proof.
  apply (present_price_remove_deletes_level BookExamples.small_book ASK (scaled 102) 0 1).
  - exact (proj2 small_book_ok).
  - cbn. lia.
  - vm_compute. reflexivity.
Defined.

(** X4: on a side in order, a call with an action other than remove for
    a price that is on a level overwrites the quantity of that level in
    place, zero included, and changes nothing else on the side: the
    other levels, the order and the count stay. *)
Theorem present_price_update_overwrites_quantity (b : Book) (side x2 x3 x4 i : Z) :
  side_ok b side -> 0 <= i < side_count b side ->
  price_at (side_array b side) i = x2 -> x4 <> 1 ->
  let r := nautilus_update_l2_level b side x2 x3 x4 in
  levels (snd r) side =
    firstn (Z.to_nat i) (levels b side)
    ++ {| price_field := x2; quantity_field := x3 |}
       :: skipn (S (Z.to_nat i)) (levels b side) /\
  side_count (snd r) side = side_count b side /\
  sequence (snd r) = Word.wrap64 (sequence b + 1) /\
  fst r = (if i =? 0 then 3 else 1).
Proof.
  intros Hok Hi Hp Ha r. subst r.
  pose proof Hok as (Hc & Hlen & Hw & Hs).
  rewrite update_shape.
  rewrite (binary_search_finds side _ (side_count b side) x2 i 0 (side_count b side))
    by (auto; lia).
  apply Z.eqb_neq in Ha. rewrite Ha. cbn [fst snd].
  unfold price_at in Hp. rewrite Hp.
  set (arr := side_array b side) in *. set (cnt := side_count b side) in *.
  split; [|split; [|split]]; try reflexivity.
  - unfold levels. rewrite side_array_touched, side_count_touched, wrap32_small by lia.
    fold arr. fold cnt.
    apply levels_replaced; try lia.
    + pose proof (store_level_length arr i {| price_field := x2; quantity_field := x3 |}
                    ltac:(lia)). lia.
    + intros j Hj Hne. rewrite <- !load_level_nat. rewrite load_store by lia.
      destruct (Z.eqb_spec (Z.of_nat j) i); [lia|reflexivity].
    + rewrite <- load_level_nat, Z2Nat.id, load_store by lia.
      rewrite Z.eqb_refl. reflexivity.
  - rewrite side_count_touched, wrap32_small by lia. reflexivity.
Qed.

(** The ask at 101.00 set to quantity 0: the level stays, first. *)
Lemma present_price_update_overwrites_quantity_witness :
  let r := nautilus_update_l2_level BookExamples.small_book ASK (scaled 101) 0 UPSERT in
  levels (snd r) ASK =
    firstn 0 (levels BookExamples.small_book ASK)
    ++ {| price_field := scaled 101; quantity_field := 0 |}
       :: skipn 1 (levels BookExamples.small_book ASK) /\
  side_count (snd r) ASK = side_count BookExamples.small_book ASK /\
  sequence (snd r) = Word.wrap64 (sequence BookExamples.small_book + 1) /\
  fst r = 3.
Proof.
  apply (present_price_update_overwrites_quantity
           BookExamples.small_book ASK (scaled 101) 0 UPSERT 0).
  - exact (proj2 small_book_ok).
  - cbn. lia.
  - vm_compute. reflexivity.
  - vm_compute. discriminate.
Defined.

(** X5: as long as the calls find room, a book whose two sides are in
    strict order (bids falling, asks rising, no price twice) stays such
    a book.  For calls with prices that are 64-bit words, on a book with
    at least as many free slots on each side as there are calls, every
    store lands inside the arrays, which keep their lengths, and the
    book after the calls is in order again. *)
Theorem run_keeps_book_in_order (calls : list Call) : forall b : Book,
  well_formed b ->
  room b BID (Z.of_nat (length calls)) -> room b ASK (Z.of_nat (length calls)) ->
  Forall (fun c => word64 (call_price c)) calls ->
  well_formed (run b calls) /\
  length (bids_array (run b calls)) = length (bids_array b) /\
  length (asks_array (run b calls)) = length (asks_array b).
Proof.
  induction calls as [|c tl IH]; intros b Hb Hbid Hask Hw;
    [split; [exact Hb|split; reflexivity]|].
  apply Forall_cons_iff in Hw. destruct Hw as [Hc Htl].
  unfold run. cbn [fold_left]. fold (run (apply_call b c) tl).
  destruct Hb as [Hokb Hoka].
  pose proof Hokb as ((Hcb & _) & _). pose proof Hoka as ((Hca & _) & _).
  cbn [length] in Hbid, Hask. rewrite Nat2Z.inj_succ in Hbid, Hask.
  destruct (step_keeps_room b (call_side c) (call_price c) (call_quantity c)
              (call_action c) BID (Z.of_nat (length tl)) Hcb ltac:(lia)
              ltac:(unfold room in *; lia)) as [Hrb Hlb].
  destruct (step_keeps_room b (call_side c) (call_price c) (call_quantity c)
              (call_action c) ASK (Z.of_nat (length tl)) Hca ltac:(lia)
              ltac:(unfold room in *; lia)) as [Hra Hla].
  fold (apply_call b c) in Hrb, Hlb, Hra, Hla.
  destruct (IH (apply_call b c)) as (Hwf & Hl1 & Hl2); try assumption.
  - unfold apply_call. split; apply update_keeps_side_ok; assumption.
  - split; [exact Hwf|]. split.
    + rewrite Hl1. exact Hlb.
    + rewrite Hl2. exact Hla.
Qed.

Lemma run_keeps_book_in_order_witness :
  let calls :=
    [ {| call_side := BID; call_price := scaled 98; call_quantity := 5; call_action := UPSERT |};
      {| call_side := ASK; call_price := scaled 100; call_quantity := 5; call_action := REMOVE |};
      {| call_side := BID; call_price := scaled 100; call_quantity := 0; call_action := REMOVE |};
      {| call_side := ASK; call_price := scaled 105; call_quantity := 9; call_action := UPSERT |} ] in
  well_formed (run BookExamples.small_book calls) /\
  length (bids_array (run BookExamples.small_book calls))
    = length (bids_array BookExamples.small_book) /\
  length (asks_array (run BookExamples.small_book calls))
    = length (asks_array BookExamples.small_book).
Proof.
  apply run_keeps_book_in_order.
  - exact small_book_ok.
  - unfold room. cbn. lia.
  - unfold room. cbn. lia.
  - repeat constructor; vm_compute; congruence.
Defined.

(** X6: on a side in order, inserting a price that was on no level and
    then removing that price gives back the levels and the count the side
    had; the sequence has moved by two. *)
Theorem insert_then_remove_restores_side (b : Book) (side x2 x3 x4 q : Z) :
  side_ok b side -> word64 x2 -> ~ present b side x2 -> x3 <> 0 ->
  side_count b side + 1 < 2 ^ 32 ->
  let b1 := snd (nautilus_update_l2_level b side x2 x3 x4) in
  let b2 := snd (nautilus_update_l2_level b1 side x2 q REMOVE) in
  levels b2 side = levels b side /\
  side_count b2 side = side_count b side /\
  sequence b2 = Word.wrap64 (Word.wrap64 (sequence b + 1) + 1).
Proof.
  intros Hok Hx2 Habs Hq Hroom b1 b2.
  pose proof (touched_side_ok b side x2 x3 x4 Hok Hx2) as Hok1. fold b1 in Hok1.
  pose proof Hok as (Hc & Hlen & Hw & Hs).
  destruct (absent_price_place b side x2 Hok Hx2 Habs)
    as (pos & E & Hpos & Hbelow & Habove).
  assert (Eb1 : b1 = update_counts b side
                  (store_level
                     (insert_shift_loop (Z.to_nat (side_count b side - pos))
                                        (side_array b side) (side_count b side))
                     pos {| price_field := x2; quantity_field := x3 |})
                  (side_count b side + 1)).
  { unfold b1. rewrite update_shape, E. apply Z.eqb_neq in Hq. rewrite Hq. reflexivity. }
  destruct (insert_array_spec (side_array b side) (side_count b side) pos
              {| price_field := x2; quantity_field := x3 |} Hpos Hlen)
    as (Hlt & Heq & Hgt & Hl).
  cbv zeta in Hlt, Heq, Hgt, Hl.
  set (arr := side_array b side) in *. set (cnt := side_count b side) in *.
  set (arr1 := store_level _ pos _) in *.
  assert (Ha1 : side_array b1 side = arr1) by (rewrite Eb1; apply side_array_touched).
  assert (Hc1 : side_count b1 side = cnt + 1)
    by (rewrite Eb1, side_count_touched, wrap32_small by lia; reflexivity).
  destruct Hok1 as (_ & _ & _ & Hs1). rewrite Ha1, Hc1 in Hs1.
  assert (Eb2 : b2 = update_counts b1 side
                  (shift_loop (Z.to_nat (cnt + 1 - (pos + 1))) arr1 (pos + 1))
                  (cnt + 1 - 1)).
  { unfold b2. rewrite update_shape, Ha1, Hc1.
    rewrite (binary_search_finds side arr1 (cnt + 1) x2 pos 0 (cnt + 1))
      by (auto; try lia; unfold price_at; rewrite Heq; reflexivity).
    reflexivity. }
  destruct (delete_array_spec arr1 (cnt + 1) pos ltac:(lia)) as (Hlt2 & Hge2 & Hl2).
  cbv zeta in Hlt2, Hge2, Hl2.
  set (arr2 := shift_loop _ arr1 (pos + 1)) in *.
  rewrite Eb2. split; [|split].
  - unfold levels. rewrite side_array_touched, side_count_touched, wrap32_small by lia.
    fold arr. fold cnt. replace (cnt + 1 - 1) with cnt by lia.
    apply nth_ext with (d := zero_level) (d' := zero_level).
    + rewrite !length_firstn. lia.
    + intros j Hj. rewrite length_firstn in Hj.
      rewrite !nth_firstn. destruct (Nat.ltb_spec j (Z.to_nat cnt)); [|reflexivity].
      rewrite <- !load_level_nat.
      destruct (Z_lt_dec (Z.of_nat j) pos).
      * rewrite Hlt2, Hlt by lia. reflexivity.
      * rewrite Hge2, Hgt by lia. f_equal. lia.
  - rewrite side_count_touched, wrap32_small by lia. lia.
  - rewrite sequence_touched, Eb1, sequence_touched. reflexivity.
Qed.

Lemma insert_then_remove_restores_side_witness :
  let b1 := snd (nautilus_update_l2_level BookExamples.small_book BID (scaled 98) 5 UPSERT) in
  let b2 := snd (nautilus_update_l2_level b1 BID (scaled 98) 0 REMOVE) in
  levels b2 BID = levels BookExamples.small_book BID /\
  side_count b2 BID = side_count BookExamples.small_book BID /\
  sequence b2 = Word.wrap64 (Word.wrap64 (sequence BookExamples.small_book + 1) + 1).
Proof.
  apply (insert_then_remove_restores_side BookExamples.small_book BID (scaled 98) 5 UPSERT 0).
  - exact (proj1 small_book_ok).
  - vm_compute. split; congruence.
  - intros (i & Hi & Hp). cbn in Hi.
    assert (i = 0 \/ i = 1) as [-> | ->] by lia; vm_compute in Hp; discriminate.
  - lia.
  - cbn. lia.
Defined.

(** X7: a call on a side with a free slot stays on that side.  Every
    store lands inside the side's array, which keeps its length; the
    other side of the book, the capacities, the instrument id and the
    timestamp are as before.  The call returns 0, 1 or 3; when it
    returns 0 the book is as it was, and otherwise it reports a change
    and the sequence has gone up by one. *)
Theorem call_leaves_the_rest_of_the_book (b : Book) (x1 x2 x3 x4 : Z) :
  0 <= side_count b x1 < Z.of_nat (length (side_array b x1)) ->
  let r := nautilus_update_l2_level b x1 x2 x3 x4 in
  length (side_array (snd r) x1) = length (side_array b x1) /\
  (forall s, (s =? 0) <> (x1 =? 0) ->
     side_array (snd r) s = side_array b s /\ side_count (snd r) s = side_count b s) /\
  bid_capacity (snd r) = bid_capacity b /\
  ask_capacity (snd r) = ask_capacity b /\
  instrument_id (snd r) = instrument_id b /\
  timestamp_ns (snd r) = timestamp_ns b /\
  ((fst r = 0 /\ snd r = b) \/
   ((fst r = 1 \/ fst r = 3) /\ book_changed (fst r) = true /\
    sequence (snd r) = Word.wrap64 (sequence b + 1))).
Proof.
  intros Hroom r. subst r. split; [|split].
  - apply update_in_place. exact Hroom.
  - intros s Hs. apply other_side_same. exact Hs.
  - rewrite update_shape.
    destruct (binary_search _ x1 x2 0 _) as [i|pos].
    + destruct (x4 =? 1), (i =? 0); cbn [fst snd];
        repeat split; right; repeat split; auto.
    + destruct (x3 =? 0); cbn [fst snd].
      * repeat split; left; split; reflexivity.
      * destruct (pos =? 0); repeat split; right; repeat split; auto.
Qed.

(** An ask at 103.00 on the book with five free ask slots. *)
Lemma call_leaves_the_rest_of_the_book_witness :
  let r := nautilus_update_l2_level BookExamples.small_book ASK (scaled 103) (scaled 7) UPSERT in
  length (side_array (snd r) ASK) = length (side_array BookExamples.small_book ASK) /\
  (forall s, (s =? 0) <> (ASK =? 0) ->
     side_array (snd r) s = side_array BookExamples.small_book s /\
     side_count (snd r) s = side_count BookExamples.small_book s) /\
  bid_capacity (snd r) = bid_capacity BookExamples.small_book /\
  ask_capacity (snd r) = ask_capacity BookExamples.small_book /\
  instrument_id (snd r) = instrument_id BookExamples.small_book /\
  timestamp_ns (snd r) = timestamp_ns BookExamples.small_book /\
  ((fst r = 0 /\ snd r = BookExamples.small_book) \/
   ((fst r = 1 \/ fst r = 3) /\ book_changed (fst r) = true /\
    sequence (snd r) = Word.wrap64 (sequence BookExamples.small_book + 1))).
Proof.
  apply (call_leaves_the_rest_of_the_book BookExamples.small_book ASK
           (scaled 103) (scaled 7) UPSERT).
  cbn. lia.
Defined.

(** X8: on a book whose sides are in order, the best bid returned is 0
    when there is no bid and otherwise the price of the first bid, which
    no bid exceeds; the best ask is 0 when there is no ask and otherwise
    the price of the first ask, which no ask undercuts (prices compared
    as signed words, as the search compares them). *)
Theorem best_prices_are_the_extremes (b : Book) :
  well_formed b ->
  let r := nautilus_get_best_bid_ask b in
  (bid_count b = 0 -> fst r = 0) /\
  (0 < bid_count b ->
     fst r = price_at (bids_array b) 0 /\
     forall i, 0 <= i < bid_count b ->
       Word.signed64 (price_at (bids_array b) i) <= Word.signed64 (fst r)) /\
  (ask_count b = 0 -> snd r = 0) /\
  (0 < ask_count b ->
     snd r = price_at (asks_array b) 0 /\
     forall i, 0 <= i < ask_count b ->
       Word.signed64 (snd r) <= Word.signed64 (price_at (asks_array b) i)).
Proof.
  intros [(Hbc & _ & _ & Hbs) (Hac & _ & _ & Has)] r. subst r.
  unfold side_count, side_array in *. cbn in Hbc, Hbs, Hac, Has.
  unfold nautilus_get_best_bid_ask. cbn [fst snd].
  rewrite !wrap32_small by assumption.
  split; [|split; [|split]].
  - intros ->. reflexivity.
  - intros Hpos. destruct (Z.eqb_spec (bid_count b) 0); [lia|].
    split; [reflexivity|]. intros i Hi.
    destruct (Z.eq_dec i 0) as [->|Hne]; [unfold price_at; lia|].
    specialize (Hbs 0 i ltac:(lia) ltac:(lia) ltac:(lia)).
    unfold before in Hbs. cbn in Hbs. unfold price_at in *. lia.
  - intros ->. reflexivity.
  - intros Hpos. destruct (Z.eqb_spec (ask_count b) 0); [lia|].
    split; [reflexivity|]. intros i Hi.
    destruct (Z.eq_dec i 0) as [->|Hne]; [unfold price_at; lia|].
    specialize (Has 0 i ltac:(lia) ltac:(lia) ltac:(lia)).
    unfold before in Has. cbn in Has. unfold price_at in *. lia.
Qed.

Lemma best_prices_are_the_extremes_witness :
  let r := nautilus_get_best_bid_ask BookExamples.small_book in
  (bid_count BookExamples.small_book = 0 -> fst r = 0) /\
  (0 < bid_count BookExamples.small_book ->
     fst r = price_at (bids_array BookExamples.small_book) 0 /\
     forall i, 0 <= i < bid_count BookExamples.small_book ->
       Word.signed64 (price_at (bids_array BookExamples.small_book) i)
       <= Word.signed64 (fst r)) /\
  (ask_count BookExamples.small_book = 0 -> snd r = 0) /\
  (0 < ask_count BookExamples.small_book ->
     snd r = price_at (asks_array BookExamples.small_book) 0 /\
     forall i, 0 <= i < ask_count BookExamples.small_book ->
       Word.signed64 (snd r)
       <= Word.signed64 (price_at (asks_array BookExamples.small_book) i)).
Proof.
  apply (best_prices_are_the_extremes BookExamples.small_book).
  exact small_book_ok.
Defined.

End BookProperties2.

(** ** Tick batches of any length *)

Section TickBatches.

Import MarketData TickOrder.

Lemma pair_induction {A : Type} (P : list A -> Prop) :
  P [] -> (forall a, P [a]) -> (forall a b tl, P tl -> P (a :: b :: tl)) ->
  forall l, P l.
Proof.
  intros H0 H1 H2.
  assert (H : forall l, P l /\ forall a, P (a :: l)).
  { induction l as [|b tl [IH1 IH2]]; split; auto. }
  intros l. apply H.
Qed.

Lemma land_one_add_two n : Z.land (n + 2) 1 = Z.land n 1.
Proof.
  change (Z.land (n + 2) 1) with (Z.land (n + 2) (Z.ones 1)).
  change (Z.land n 1) with (Z.land n (Z.ones 1)).
  rewrite !Z.land_ones by lia.
  replace (n + 2) with (n + 1 * 2 ^ 1) by lia. apply Z.mod_add. lia.
Qed.

Lemma half_add_two n : 0 <= n -> Z.to_nat ((n + 2) / 2) = S (Z.to_nat (n / 2)).
Proof.
  intros Hn. replace (n + 2) with (n + 1 * 2) by lia.
  rewrite Z.div_add by lia.
  pose proof (Z.div_pos n 2 Hn ltac:(lia)). lia.
Qed.

(** Two more ticks in front: one more pass of the vector loop. *)
Lemma batch_two_more (a b : RawTick) (ws : list F64.t) (n x3 : Z) :
  0 <= n ->
  nautilus_process_tick_batch (tick_words a ++ tick_words b ++ ws) (n + 2) x3 =
  [x3; x3;
   IEEE.fcvtzs (F64.fmul (price a) scale_factor);
   IEEE.fcvtzs (F64.fmul (price b) scale_factor);
   IEEE.fcvtzs (F64.fmul (timestamp a) scale_factor);
   IEEE.fcvtzs (F64.fmul (timestamp b) scale_factor)]
  ++ nautilus_process_tick_batch ws n x3.
Proof.
  intros Hn. unfold nautilus_process_tick_batch.
  rewrite half_add_two by exact Hn.
  unfold remaining_ticks. rewrite land_one_add_two.
  cbn [tick_words app tick_vector_loop ld1_2x2d nth skipn zip1 fst snd].
  destruct (tick_vector_loop (Z.to_nat (n / 2)) x3 ws) as [out x0c].
  reflexivity.
Qed.

Lemma process_two_more (a b : RawTick) (tl : list RawTick) (instrument : Z) :
  process (a :: b :: tl) instrument =
  [instrument; instrument;
   IEEE.fcvtzs (F64.fmul (price a) scale_factor);
   IEEE.fcvtzs (F64.fmul (price b) scale_factor);
   IEEE.fcvtzs (F64.fmul (timestamp a) scale_factor);
   IEEE.fcvtzs (F64.fmul (timestamp b) scale_factor)]
  ++ process tl instrument.
Proof.
  unfold process. cbn [flat_map length].
  replace (Z.of_nat (S (S (length tl)))) with (Z.of_nat (length tl) + 2) by lia.
  rewrite batch_two_more by lia. reflexivity.
Qed.

(** X9: a batch is worked off two ticks at a time from the front: the
    words stored for a batch that starts with two ticks are the six
    words of that pair followed by the words of the rest of the batch
    as a batch of its own. *)
Theorem process_batch_by_pairs (a b : RawTick) (tl : list RawTick) (instrument : Z) :
  process (a :: b :: tl) instrument =
  process [a; b] instrument ++ process tl instrument.
Proof.
  rewrite process_pair. unfold process. cbn [flat_map length].
  replace (Z.of_nat (S (S (length tl)))) with (Z.of_nat (length tl) + 2) by lia.
  rewrite batch_two_more by lia. reflexivity.
Qed.

(** X10: the routine stores three words per tick, whatever the length
    of the batch: half of the 48 bytes per tick the caller allocates. *)
Theorem process_stores_three_words_per_tick (instrument : Z) :
  forall ticks : list RawTick,
  length (process ticks instrument) = (3 * length ticks)%nat.
Proof.
  apply (pair_induction
           (fun ticks => length (process ticks instrument) = (3 * length ticks)%nat)).
  - reflexivity.
  - intros a. reflexivity.
  - intros a b tl IH. rewrite process_two_more, length_app, IH.
    cbn [length]. lia.
Qed.

(** X11: in a batch of an even number of ticks no stored word depends
    on a quantity: two batches that agree tick by tick on price and
    timestamp give the same output. *)
Theorem even_batch_ignores_quantities (instrument : Z) :
  forall ticks ticks' : list RawTick,
  Forall2 same_price_and_time ticks ticks' ->
  Nat.even (length ticks) = true ->
  process ticks instrument = process ticks' instrument.
Proof.
  intros ticks.
  pattern ticks. apply pair_induction; clear ticks.
  - intros ticks' H _. inversion H. reflexivity.
  - intros a ticks' _ Hev. discriminate Hev.
  - intros a b tl IH ticks' H Hev.
    inversion H as [|a0 a' l0 l0' [Hpa Hta] H']; subst.
    inversion H' as [|b0 b' l1 tl' [Hpb Htb] H'']; subst.
    rewrite (process_two_more a b tl), (process_two_more a' b' tl').
    rewrite (IH tl' H'' Hev), Hpa, Hta, Hpb, Htb. reflexivity.
Qed.

Lemma even_batch_ignores_quantities_witness :
  process [Examples.tick 1 2 3; Examples.tick 4 5 6] 7
  = process [Examples.tick 1 9 3; Examples.tick 4 8 6] 7.
Proof.
  apply even_batch_ignores_quantities.
  - repeat constructor.
  - reflexivity.
Defined.

End TickBatches.

(** ** EMA over inputs of any length *)

Section EmaBlocks.

Import Signals.

Lemma land_three_add_four n : Z.land (n + 4) 3 = Z.land n 3.
Proof.
  change (Z.land (n + 4) 3) with (Z.land (n + 4) (Z.ones 2)).
  change (Z.land n 3) with (Z.land n (Z.ones 2)).
  rewrite !Z.land_ones by lia.
  replace (n + 4) with (n + 1 * 2 ^ 2) by lia. apply Z.mod_add. lia.
Qed.

Lemma quarter_add_four n : 0 <= n -> Z.to_nat ((n + 4) / 4) = S (Z.to_nat (n / 4)).
Proof.
  intros Hn. replace (n + 4) with (n + 1 * 4) by lia.
  rewrite Z.div_add by lia.
  pose proof (Z.div_pos n 4 Hn ltac:(lia)). lia.
Qed.

(** The value every lane of a pass gets for its price [k] when the
    value before the pass is [s18]. *)
Lemma ema_vector_loop_pass k alpha oma a b c d tl s18 :
  ema_vector_loop (S k) (dup alpha) (dup oma) (a :: b :: c :: d :: tl) s18 =
  let out p := F32.fadd (F32.fmul alpha p) (F32.fmul oma s18) in
  let '(o, x0, s) := ema_vector_loop k (dup alpha) (dup oma) tl (out d) in
  ([out a; out b; out c; out d] ++ o, x0, s).
Proof. reflexivity. Qed.

Lemma ema_vector_loop_length alpha oma : forall k x0 s18,
  length (fst (fst (ema_vector_loop k (dup alpha) (dup oma) x0 s18))) = (4 * k)%nat /\
  snd (fst (ema_vector_loop k (dup alpha) (dup oma) x0 s18)) = skipn (4 * k) x0.
Proof.
  induction k as [|k IH]; intros x0 s18; [split; reflexivity|].
  cbn [ema_vector_loop ld1_4s].
  set (v4 := map2 F32.fadd _ _).
  specialize (IH (skipn 4 x0) (lane v4 3)).
  destruct (ema_vector_loop k (dup alpha) (dup oma) (skipn 4 x0) (lane v4 3))
    as [[o x0'] s'].
  cbn [fst snd] in *. destruct IH as [IHl IHx]. split.
  - rewrite length_app, IHl. subst v4. cbn [dup repeat map2 combine map length]. lia.
  - rewrite IHx, skipn_skipn. f_equal. lia.
Qed.

Lemma ema_scalar_loop_length s16 s17 : forall x4 x0 s18,
  length (ema_scalar_loop x4 s16 s17 x0 s18) = x4.
Proof.
  induction x4 as [|n IH]; intros x0 s18; [reflexivity|].
  cbn [ema_scalar_loop length]. rewrite IH. reflexivity.
Qed.

(** X12: the routine writes one output per price: the first price
    itself, then one value for each price after it, whatever the split
    between the vector loop and the scalar tail. *)
Theorem ema_vectorized_writes_every_output (p0 : F32.t) (rest : list F32.t) (alpha : F32.t) :
  length (nautilus_calculate_ema_vectorized p0 rest alpha) = S (length rest) /\
  nth 0 (nautilus_calculate_ema_vectorized p0 rest alpha) F32.zero = p0.
Proof.
  unfold nautilus_calculate_ema_vectorized.
  change (map2 F32.fsub (dup F32.one) (dup alpha)) with (dup (F32.fsub F32.one alpha)).
  set (n := Z.of_nat (length rest)).
  pose proof (ema_vector_loop_length alpha (F32.fsub F32.one alpha)
                (Z.to_nat (n / 4)) rest p0) as [Hl _].
  destruct (ema_vector_loop (Z.to_nat (n / 4)) (dup alpha)
              (dup (F32.fsub F32.one alpha)) rest p0) as [[o x0] s].
  cbn [fst snd] in Hl. split; [|reflexivity].
  cbn [length]. rewrite length_app, Hl, ema_scalar_loop_length.
  change (Z.land n 3) with (Z.land n (Z.ones 2)).
  rewrite Z.land_ones by lia.
  assert (0 <= n) by (unfold n; lia).
  pose proof (Z.div_pos n 4 ltac:(lia) ltac:(lia)).
  pose proof (Z.mod_pos_bound n 4 ltac:(lia)).
  pose proof (Z.div_mod n 4 ltac:(lia)).
  change (2 ^ 2) with 4. lia.
Qed.

(** X13: with four or more prices after the first, the first four are
    each combined with the first price alone, and the routine goes on
    from the fourth of these values as it would from a first price:
    within a block no output is fed into the next one. *)
Theorem ema_vectorized_block_restart (p0 a b c d : F32.t) (tl : list F32.t) (alpha : F32.t) :
  let out p := F32.fadd (F32.fmul alpha p) (F32.fmul (F32.fsub F32.one alpha) p0) in
  nautilus_calculate_ema_vectorized p0 (a :: b :: c :: d :: tl) alpha =
  p0 :: out a :: out b :: out c :: nautilus_calculate_ema_vectorized (out d) tl alpha.
Proof.
  intros out. unfold nautilus_calculate_ema_vectorized.
  change (map2 F32.fsub (dup F32.one) (dup alpha)) with (dup (F32.fsub F32.one alpha)).
  cbn [length].
  replace (Z.of_nat (S (S (S (S (length tl)))))) with (Z.of_nat (length tl) + 4) by lia.
  rewrite quarter_add_four, land_three_add_four by lia.
  rewrite ema_vector_loop_pass. cbv zeta. fold out.
  destruct (ema_vector_loop (Z.to_nat (Z.of_nat (length tl) / 4)) (dup alpha)
              (dup (F32.fsub F32.one alpha)) tl (out d)) as [[o x0] s].
  reflexivity.
Qed.


End EmaBlocks.

(** ** RSI: what is written, and where *)

Section RsiFrame.

Import Signals FloatClass.

Lemma rsi_store_nat_length v : forall mem i, length (store_nat i v mem) = length mem.
Proof.
  induction mem as [|x tl IH]; intros [|i]; cbn [store_nat length]; auto.
Qed.

Lemma rsi_store_length mem i v : length (store mem i v) = length mem.
Proof.
  unfold store. destruct (0 <=? i); [apply rsi_store_nat_length|reflexivity].
Qed.

Lemma rsi_store_nat_nth v : forall mem i k,
  nth k (store_nat i v mem) F32.zero =
  if Nat.eqb k i && Nat.ltb i (length mem) then v else nth k mem F32.zero.
Proof.
  induction mem as [|x tl IH]; intros i k.
  - destruct i; cbn [store_nat length]; rewrite andb_false_r; reflexivity.
  - destruct i as [|i], k as [|k]; cbn [store_nat nth length]; try reflexivity.
    rewrite IH. reflexivity.
Qed.

Lemma rsi_load_store_other mem i v k :
  k <> i -> load (store mem i v) k = load mem k.
Proof.
  intros Hne. unfold load. rewrite rsi_store_length.
  destruct ((0 <=? k) && (k <? Z.of_nat (length mem))) eqn:Hin; [|reflexivity].
  unfold store. destruct (Z.leb_spec 0 i); [|reflexivity].
  rewrite rsi_store_nat_nth.
  destruct (Nat.eqb_spec (Z.to_nat k) (Z.to_nat i)); [|reflexivity].
  apply andb_prop in Hin. destruct Hin as [Hk _]. apply Z.leb_le in Hk. lia.
Qed.

Lemma rsi_load_store_same mem i v :
  0 <= i < Z.of_nat (length mem) -> load (store mem i v) i = v.
Proof.
  intros Hi. unfold load. rewrite rsi_store_length.
  destruct (Z.leb_spec 0 i); [|lia].
  destruct (Z.ltb_spec i (Z.of_nat (length mem))); [|lia].
  cbn [andb]. unfold store.
  destruct (Z.leb_spec 0 i); [|lia].
  rewrite rsi_store_nat_nth, Nat.eqb_refl.
  destruct (Nat.ltb_spec (Z.to_nat i) (length mem)); [reflexivity|lia].
Qed.

(** The second loop writes the positions [x20 .. x20 + n - 1] and no
    other. *)
Lemma rsi_loop_frame x0 x19 : forall n x1 x20 s20 s21,
  length (rsi_calculation_loop n x0 x1 x19 x20 s20 s21) = length x1 /\
  forall k, k < x20 \/ x20 + Z.of_nat n <= k ->
    load (rsi_calculation_loop n x0 x1 x19 x20 s20 s21) k = load x1 k.
Proof.
  induction n as [|n IH]; intros x1 x20 s20 s21; [split; reflexivity|].
  cbn [rsi_calculation_loop]. cbv zeta.
  match goal with
  | |- context [rsi_calculation_loop n x0 (store x1 x20 ?v) x19 (x20 + 1) ?a ?b] =>
      destruct (IH (store x1 x20 v) (x20 + 1) a b) as [IHl IHk]
  end.
  split.
  - rewrite IHl. apply rsi_store_length.
  - intros k Hk. rewrite IHk by lia. apply rsi_load_store_other. lia.
Qed.

(** X15: the routine writes outputs at the positions from the period
    up to the count only: the output buffer keeps its length, and every
    position below the period or from the count on holds what it held
    before the call (zero, for the zeroed buffer the bindings pass). *)
Theorem rsi_writes_from_the_period_on (x0 x1 : list F32.t) (x2 x3 : Z) :
  0 <= x3 < 2 ^ 63 -> 0 <= x2 < 2 ^ 63 ->
  let out := nautilus_calculate_rsi_vectorized x0 x1 x2 x3 in
  length out = length x1 /\
  forall k, k < x3 \/ x2 <= k -> load out k = load x1 k.
Proof.
  intros H3 H2 out. subst out. unfold nautilus_calculate_rsi_vectorized.
  destruct (initial_period_loop _ x0 1 F32.zero F32.zero) as [g l].
  rewrite !signed64_small by assumption.
  match goal with
  | |- context [rsi_calculation_loop ?n x0 x1 x3 x3 ?a ?b] =>
      destruct (rsi_loop_frame x0 x3 n x1 x3 a b) as [Hl Hk]
  end.
  split; [exact Hl|].
  intros k Hk'. apply Hk. lia.
Qed.

Lemma rsi_writes_from_the_period_on_witness :
  let x0 := map Examples.f32 [1; 2; 1; 2; 1] in
  let x1 := repeat F32.zero 5 in
  let out := nautilus_calculate_rsi_vectorized x0 x1 5 2 in
  length out = length x1 /\
  forall k, k < 2 \/ 5 <= k -> load out k = load x1 k.
Proof.
  apply (rsi_writes_from_the_period_on
           (map Examples.f32 [1; 2; 1; 2; 1]) (repeat F32.zero 5) 5 2); lia.
Defined.

(** Without a falling price the first loop leaves the loss total
    alone. *)
Lemma initial_loop_without_loss x0 : forall n x20 s20 s21,
  (forall k, x20 <= k < x20 + Z.of_nat n ->
     IEEE.cond_lt (IEEE.fcmp (change x0 k) F32.zero) = false) ->
  snd (initial_period_loop n x0 x20 s20 s21) = s21.
Proof.
  induction n as [|n IH]; intros x20 s20 s21 Hup; [reflexivity|].
  cbn [initial_period_loop]. cbv zeta.
  pose proof (Hup x20 ltac:(lia)) as H0. unfold change in H0. rewrite H0.
  apply IH. intros k Hk. apply Hup. lia.
Qed.

Lemma fmul_finite_zero s z :
  is_finite s = true -> is_zero z = true -> is_zero (F32.fmul s z) = true.
Proof. destruct s, z; cbn; intros; congruence. Qed.

Lemma fadd_zero_zero a b :
  is_zero a = true -> is_zero b = true -> is_zero (F32.fadd a b) = true.
Proof.
  destruct a as [sa|sa| |sa ma ea], b as [sb|sb| |sb mb eb]; cbn; try congruence.
  destruct sa, sb; reflexivity.
Qed.

Lemma fdiv_zero_finite z s :
  is_zero z = true -> is_finite_nonzero s = true -> is_zero (F32.fdiv z s) = true.
Proof. destruct z, s; cbn; intros; congruence. Qed.

Lemma rsi_value_without_loss s20 s21 :
  is_zero s21 = true -> rsi_value s20 s21 = hundred.
Proof. destruct s21 as [[|]|[|]| |]; cbn; try congruence; reflexivity. Qed.

(** While no price falls the loss average stays zero and every pass
    writes 100. *)
Lemma rsi_loop_without_loss x0 x19 :
  is_finite (F32.scvtf (x19 - 1)) = true ->
  is_finite_nonzero (F32.scvtf x19) = true ->
  forall n x1 x20 s20 s21,
  0 <= x20 -> x20 + Z.of_nat n <= Z.of_nat (length x1) ->
  is_zero s21 = true ->
  (forall k, x20 <= k < x20 + Z.of_nat n ->
     IEEE.cond_lt (IEEE.fcmp (change x0 k) F32.zero) = false) ->
  forall k, x20 <= k < x20 + Z.of_nat n ->
    load (rsi_calculation_loop n x0 x1 x19 x20 s20 s21) k = hundred.
Proof.
  intros H5 H6.
  induction n as [|n IH]; intros x1 x20 s20 s21 H20 Hlen Hz Hup k Hk; [lia|].
  cbn [rsi_calculation_loop]. cbv zeta.
  pose proof (Hup x20 ltac:(lia)) as H0. unfold change in H0. rewrite H0.
  set (s21' := F32.fdiv (F32.fadd (F32.fmul (F32.scvtf (x19 - 1)) s21) F32.zero)
                        (F32.scvtf x19)).
  assert (Hz' : is_zero s21' = true).
  { apply fdiv_zero_finite; [|exact H6].
    apply fadd_zero_zero; [|reflexivity].
    apply fmul_finite_zero; assumption. }
  rewrite (rsi_value_without_loss _ s21' Hz').
  destruct (Z.eq_dec k x20) as [->|Hne].
  - match goal with
    | |- load (rsi_calculation_loop n x0 ?m x19 (x20 + 1) ?a ?b) x20 = _ =>
        destruct (rsi_loop_frame x0 x19 n m (x20 + 1) a b) as [_ Hfr]
    end.
    rewrite Hfr by lia. apply rsi_load_store_same. lia.
  - apply IH; try assumption; try lia.
    + rewrite rsi_store_length. lia.
    + intros j Hj. apply Hup. lia.
Qed.

(** X16: when no price is below the one before it, the routine writes
    exactly 100 at every position from the period up to the count.
    The period and the period less one are taken to convert to a finite
    float, the first not zero. *)
Theorem rsi_is_100_when_no_price_falls (x0 x1 : list F32.t) (count P : Z) :
  Z.of_nat (length x0) = count -> Z.of_nat (length x1) = count ->
  1 <= P < count -> count < 2 ^ 63 ->
  is_finite (F32.scvtf (P - 1)) = true ->
  is_finite_nonzero (F32.scvtf P) = true ->
  (forall k, 1 <= k < count ->
     IEEE.cond_lt (IEEE.fcmp (change x0 k) F32.zero) = false) ->
  forall k, P <= k < count ->
    load (nautilus_calculate_rsi_vectorized x0 x1 count P) k = hundred.
Proof.
  intros Hl0 Hl1 HP Hc H5 H6 Hup k Hk.
  unfold nautilus_calculate_rsi_vectorized.
  rewrite !signed64_small by lia.
  pose proof (initial_loop_without_loss x0 (Z.to_nat P) 1 F32.zero F32.zero) as Hloss.
  destruct (initial_period_loop (Z.to_nat P) x0 1 F32.zero F32.zero) as [g l].
  cbn [snd] in Hloss. rewrite Hloss by (intros j Hj; apply Hup; lia).
  apply (rsi_loop_without_loss x0 P H5 H6); try lia.
  - apply fdiv_zero_finite; [reflexivity|exact H6].
  - intros j Hj. apply Hup. lia.
Qed.

(** Prices 1, 2, 2, 3, 5 with period 2: 100 at position 3. *)
Lemma rsi_is_100_when_no_price_falls_witness :
  load (nautilus_calculate_rsi_vectorized
          (map Examples.f32 [1; 2; 2; 3; 5]) (repeat F32.zero 5) 5 2) 3 = hundred.
Proof.
  apply (rsi_is_100_when_no_price_falls
           (map Examples.f32 [1; 2; 2; 3; 5]) (repeat F32.zero 5) 5 2);
    try reflexivity; try lia.
  intros k Hk.
  assert (k = 1 \/ k = 2 \/ k = 3 \/ k = 4) as [-> | [-> | [-> | ->]]] by lia;
    vm_compute; reflexivity.
Defined.

End RsiFrame.

(** ** optimized_core.s *)

Section OptimizedCoreFacts.

Import Signals OptimizedCore.

Lemma firstn_add_skipn {A : Type} (n : nat) : forall (o : nat) (l : list A),
  firstn (o + n) l = firstn o l ++ firstn n (skipn o l).
Proof.
  induction o as [|o IH]; intros l; [reflexivity|].
  destruct l as [|x tl]; cbn [Nat.add firstn skipn app].
  - rewrite firstn_nil. reflexivity.
  - rewrite IH. reflexivity.
Qed.

(** One load and store of [n] bytes at offset [o] extends the copied
    prefix by [n]. *)
Lemma copy_step (src dst0 : list Byte.byte) (o n : nat) :
  (o + n <= length src)%nat -> (o + n <= length dst0)%nat ->
  write_bytes (firstn o src ++ skipn o dst0) o (read_bytes src o n) =
  firstn (o + n) src ++ skipn (o + n) dst0.
Proof.
  intros Hs Hd. unfold write_bytes, read_bytes.
  assert (Hlo : length (firstn o src) = o) by (rewrite length_firstn; lia).
  assert (Hln : length (firstn n (skipn o src)) = n)
    by (rewrite length_firstn, length_skipn; lia).
  rewrite Hln.
  rewrite firstn_app, Hlo, Nat.sub_diag, firstn_O, app_nil_r.
  rewrite firstn_all2 by lia.
  rewrite skipn_app, Hlo.
  rewrite (skipn_all2 (firstn o src)) by lia.
  replace (o + n - o)%nat with n by lia.
  rewrite skipn_skipn, (Nat.add_comm n o). cbn [app].
  rewrite firstn_add_skipn, <- app_assoc. reflexivity.
Qed.

Lemma copy_64_loop_spec (src dst0 : list Byte.byte) : forall x4 o,
  (o + 64 * x4 <= length src)%nat -> (o + 64 * x4 <= length dst0)%nat ->
  copy_64_loop x4 (firstn o src ++ skipn o dst0) src o o =
  (firstn (o + 64 * x4) src ++ skipn (o + 64 * x4) dst0,
   (o + 64 * x4)%nat, (o + 64 * x4)%nat).
Proof.
  induction x4 as [|k IH]; intros o Hs Hd.
  - rewrite Nat.mul_0_r, Nat.add_0_r. reflexivity.
  - cbn [copy_64_loop]. rewrite copy_step by lia.
    rewrite IH by lia.
    replace (o + 64 + 64 * k)%nat with (o + 64 * S k)%nat by lia. reflexivity.
Qed.

Lemma copy_byte_loop_spec (src dst0 : list Byte.byte) : forall x3 o,
  (o + x3 <= length src)%nat -> (o + x3 <= length dst0)%nat ->
  copy_byte_loop x3 (firstn o src ++ skipn o dst0) src o o =
  firstn (o + x3) src ++ skipn (o + x3) dst0.
Proof.
  induction x3 as [|k IH]; intros o Hs Hd.
  - rewrite Nat.add_0_r. reflexivity.
  - cbn [copy_byte_loop]. rewrite copy_step by lia.
    rewrite IH by lia.
    replace (o + 1 + k)%nat with (o + S k)%nat by lia. reflexivity.
Qed.

Lemma fast_memory_copy_spec (dst src : list Byte.byte) (x2 : Z) :
  0 <= x2 <= Z.of_nat (length src) -> x2 <= Z.of_nat (length dst) ->
  fast_memory_copy dst src x2 =
  firstn (Z.to_nat x2) src ++ skipn (Z.to_nat x2) dst.
Proof.
  intros Hs Hd. unfold fast_memory_copy.
  change (Z.land x2 63) with (Z.land x2 (Z.ones 6)).
  rewrite Z.land_ones by lia. change (2 ^ 6) with 64.
  pose proof (Z.div_pos x2 64 ltac:(lia) ltac:(lia)).
  pose proof (Z.mod_pos_bound x2 64 ltac:(lia)).
  pose proof (Z.div_mod x2 64 ltac:(lia)).
  pose proof (copy_64_loop_spec src dst (Z.to_nat (x2 / 64)) 0
                ltac:(lia) ltac:(lia)) as H64.
  cbn [firstn skipn app Nat.add] in H64. rewrite H64.
  rewrite copy_byte_loop_spec by lia.
  replace (64 * Z.to_nat (x2 / 64) + Z.to_nat (x2 mod 64))%nat with (Z.to_nat x2) by lia.
  reflexivity.
Qed.

(** X17: a copy of [x2] bytes between two buffers that hold at least
    that many puts the first [x2] bytes of the source at the start of
    the destination and leaves the rest of the destination as it was,
    whatever the split between 64-byte chunks and single bytes. *)
Theorem fast_memory_copy_copies_the_prefix (dst src : list Byte.byte) (x2 : Z) :
  0 <= x2 <= Z.of_nat (length src) -> x2 <= Z.of_nat (length dst) ->
  let dst' := fast_memory_copy dst src x2 in
  firstn (Z.to_nat x2) dst' = firstn (Z.to_nat x2) src /\
  skipn (Z.to_nat x2) dst' = skipn (Z.to_nat x2) dst /\
  length dst' = length dst.
Proof.
  intros Hs Hd dst'. subst dst'. rewrite fast_memory_copy_spec by assumption.
  assert (Hl : length (firstn (Z.to_nat x2) src) = Z.to_nat x2)
    by (rewrite length_firstn; lia).
  split; [|split].
  - rewrite firstn_app, Hl, Nat.sub_diag, firstn_O, app_nil_r.
    apply firstn_all2. lia.
  - rewrite skipn_app, Hl, Nat.sub_diag. cbn [skipn].
    rewrite skipn_all2 by lia. reflexivity.
  - rewrite length_app, Hl, length_skipn. lia.
Qed.

Lemma fast_memory_copy_copies_the_prefix_witness :
  let src := repeat Byte.x41 70 in
  let dst := repeat Byte.x00 80 in
  let dst' := fast_memory_copy dst src 70 in
  firstn (Z.to_nat 70) dst' = firstn (Z.to_nat 70) src /\
  skipn (Z.to_nat 70) dst' = skipn (Z.to_nat 70) dst /\
  length dst' = length dst.
Proof.
  apply (fast_memory_copy_copies_the_prefix (repeat Byte.x00 80) (repeat Byte.x41 70) 70).
  - cbn. lia.
  - cbn. lia.
Defined.

Lemma bytes_from_base_length (src : ByteView) :
  length (bytes_from_base src) = shape0 src.
Proof. unfold bytes_from_base. rewrite length_map, length_seq. reflexivity. Qed.

(** X18: [memory_copy_test] returns an array equal to its input for
    every non-empty contiguous input, that is, for stride 1.  (For a
    view with another stride it copies the consecutive bytes from
    [&src[0]], not the elements.) *)
Theorem memory_copy_test_returns_its_input (src : ByteView) :
  stride src = 1 -> shape0 src <> 0%nat ->
  memory_copy_test src = Some (elements src).
Proof.
  intros Hs Hn.
  assert (Hb : bytes_from_base src = elements src).
  { unfold bytes_from_base, elements, element. apply map_ext.
    intros k. rewrite Hs. f_equal. lia. }
  pose proof (bytes_from_base_length src) as Hl.
  unfold memory_copy_test.
  destruct (shape0 src) as [|n] eqn:E; [contradiction|].
  f_equal.
  rewrite fast_memory_copy_spec by (rewrite ?repeat_length, ?Hl; lia).
  rewrite Nat2Z.id, <- Hl, firstn_all, skipn_all2 by (rewrite repeat_length; lia).
  rewrite app_nil_r. exact Hb.
Qed.

Lemma memory_copy_test_returns_its_input_witness :
  memory_copy_test (contiguous_view [Byte.x01; Byte.x02; Byte.x03]) =
  Some (elements (contiguous_view [Byte.x01; Byte.x02; Byte.x03])).
Proof.
  apply memory_copy_test_returns_its_input.
  - reflexivity.
  - cbn. discriminate.
Defined.

(** Every second byte of 0, 1, ..., 9: the elements are 0, 2, 4, 6, 8
    and the array returned holds 0, 1, 2, 3, 4. *)
Example memory_copy_test_of_a_strided_view :
  let src := every_second [Byte.x00; Byte.x01; Byte.x02; Byte.x03; Byte.x04;
                           Byte.x05; Byte.x06; Byte.x07; Byte.x08; Byte.x09] in
  elements src = [Byte.x00; Byte.x02; Byte.x04; Byte.x06; Byte.x08] /\
  memory_copy_test src = Some [Byte.x00; Byte.x01; Byte.x02; Byte.x03; Byte.x04].
Proof. split; vm_compute; reflexivity. Qed.

(** The vector loop keeps four running sums, one per lane. *)
Lemma simd_loop_spec (tail : list F32.t) : forall blocks a0 a1 a2 a3,
  simd_loop (length blocks) [a0; a1; a2; a3] (flat_map block_words blocks ++ tail) =
  ([fold_left F32.fadd (map (block_lane 0) blocks) a0;
    fold_left F32.fadd (map (block_lane 1) blocks) a1;
    fold_left F32.fadd (map (block_lane 2) blocks) a2;
    fold_left F32.fadd (map (block_lane 3) blocks) a3], tail).
Proof.
  induction blocks as [|[[[b0 b1] b2] b3] tl IH]; intros a0 a1 a2 a3; [reflexivity|].
  cbn [length simd_loop flat_map block_words app ld1_4s nth skipn map2 combine map
       fst snd fold_left block_lane].
  apply IH.
Qed.

(** The scalar loop folds what is left into lane 0 and clears the
    other lanes. *)
Lemma scalar_loop_spec : forall tl t v16,
  scalar_loop (length (t :: tl)) v16 (t :: tl) =
  [fold_left F32.fadd (t :: tl) (lane v16 0); F32.zero; F32.zero; F32.zero].
Proof.
  induction tl as [|t' tl IH]; intros t v16; [reflexivity|].
  change (scalar_loop (length (t :: t' :: tl)) v16 (t :: t' :: tl))
    with (scalar_loop (length (t' :: tl))
            [F32.fadd (lane v16 0) t; F32.zero; F32.zero; F32.zero] (t' :: tl)).
  rewrite IH. reflexivity.
Qed.

Lemma fcvtzs_add_zeros s :
  IEEE.fcvtzs (F32.fadd (F32.fadd s F32.zero) (F32.fadd F32.zero F32.zero)) =
  IEEE.fcvtzs s.
Proof. destruct s as [[|]|[|]| |]; reflexivity. Qed.

(** X19: what [fast_array_sum] returns for an array of whole blocks of
    four followed by fewer than four more floats, as the unsigned
    64-bit word of its interface.  Without trailing floats it is the
    word of the truncated sum of the four lane sums.  With trailing
    floats it is the word of the truncated sum of the first float of
    every block and the trailing floats: the other three floats of
    every block do not count.  A negative sum [s] comes back as
    [2^64 + s]. *)
Theorem fast_array_sum_drops_lanes_before_a_tail
    (blocks : list Block) (tail : list F32.t) :
  (length tail < 4)%nat ->
  fast_array_sum (flat_map block_words blocks ++ tail)
                 (Z.of_nat (4 * length blocks + length tail)) =
  match tail with
  | [] =>
      Word.wrap64
        (IEEE.fcvtzs
           (F32.fadd
              (F32.fadd (total (map (block_lane 0) blocks))
                        (total (map (block_lane 1) blocks)))
              (F32.fadd (total (map (block_lane 2) blocks))
                        (total (map (block_lane 3) blocks)))))
  | _ :: _ =>
      Word.wrap64
        (IEEE.fcvtzs (fold_left F32.fadd tail (total (map (block_lane 0) blocks))))
  end.
Proof.
  intros Ht. unfold fast_array_sum.
  set (n := Z.of_nat (4 * length blocks + length tail)).
  assert (Hdiv : Z.to_nat (n / 4) = length blocks).
  { unfold n. replace (Z.of_nat (4 * length blocks + length tail))
      with (Z.of_nat (length tail) + Z.of_nat (length blocks) * 4) by lia.
    rewrite Z.div_add, Z.div_small by lia. lia. }
  assert (Hmod : Z.to_nat (Z.land n 3) = length tail).
  { change (Z.land n 3) with (Z.land n (Z.ones 2)).
    rewrite Z.land_ones by lia. unfold n.
    replace (Z.of_nat (4 * length blocks + length tail))
      with (Z.of_nat (length tail) + Z.of_nat (length blocks) * 2 ^ 2) by lia.
    rewrite Z.mod_add, Z.mod_small by lia. lia. }
  rewrite Hdiv, Hmod.
  change (dup F32.zero) with [F32.zero; F32.zero; F32.zero; F32.zero].
  rewrite simd_loop_spec. fold (total (map (block_lane 0) blocks)).
  fold (total (map (block_lane 1) blocks)).
  fold (total (map (block_lane 2) blocks)).
  fold (total (map (block_lane 3) blocks)).
  destruct tail as [|t tl].
  - reflexivity.
  - rewrite scalar_loop_spec.
    cbn [faddp lane nth]. f_equal. apply fcvtzs_add_zeros.
Qed.

(** 1, 2, 3, 4 and then 5: the routine returns 6, not 15. *)
Lemma fast_array_sum_drops_lanes_before_a_tail_witness :
  fast_array_sum (map Examples.f32 [1; 2; 3; 4; 5]) 5 = 6.
Proof.
  exact (fast_array_sum_drops_lanes_before_a_tail
           [(Examples.f32 1, Examples.f32 2, Examples.f32 3, Examples.f32 4)]
           [Examples.f32 5] ltac:(cbn; lia)).
Defined.

(** A single float of -10: the word returned is 2^64 - 10. *)
Example fast_array_sum_of_a_negative_float :
  fast_array_sum [Examples.f32 (-10)] 1 = 2 ^ 64 - 10.
Proof. vm_compute. reflexivity. Qed.

(** X20: [fast_order_book_update] keeps no book: its result is a
    number below 256 computed from price + quantity and the side alone.
    For side 0 it is 0 for every price and quantity; for side 1 it is 0
    exactly when the low eight bits of price + quantity are 0. *)
Theorem fast_order_book_update_result (x0 x1 : Z) :
  (forall x2, 0 <= fast_order_book_update x0 x1 x2 < 256) /\
  fast_order_book_update x0 x1 0 = 0 /\
  (fast_order_book_update x0 x1 1 = 0 <-> (x0 + x1) mod 256 = 0).
Proof.
  unfold fast_order_book_update. cbv zeta.
  split; [|split].
  - intros x2. change 255 with (Z.ones 8).
    rewrite Z.land_ones by lia. apply Z.mod_pos_bound. lia.
  - unfold Word.lsl64. change (0 mod 64) with 0. rewrite Z.shiftl_0_r.
    replace (Word.wrap64 (Word.wrap64 (x0 + x1))) with (Word.wrap64 (x0 + x1))
      by (unfold Word.wrap64; symmetry; apply Z.mod_mod; lia).
    rewrite Z.lxor_nilpotent. reflexivity.
  - unfold Word.lsl64. change (1 mod 64) with 1.
    set (s := Word.wrap64 (x0 + x1)).
    assert (Hlow : forall n, 0 <= n < 8 ->
              Z.testbit (Z.land (Z.lxor s (Word.wrap64 (Z.shiftl s 1))) 255) n =
              xorb (Z.testbit s n) (Z.testbit s (n - 1))).
    { intros n Hn. change 255 with (Z.ones 8).
      rewrite Z.land_spec, Z.ones_spec_low, andb_true_r by lia.
      rewrite Z.lxor_spec. unfold Word.wrap64 at 1.
      rewrite Z.mod_pow2_bits_low by lia.
      rewrite Z.shiftl_spec by lia. reflexivity. }
    assert (Hmod : (x0 + x1) mod 256 = Z.land s (Z.ones 8)).
    { rewrite Z.land_ones by lia. unfold s, Word.wrap64.
      change (2 ^ 64) with (2 ^ 8 * 2 ^ 56).
      rewrite Z.rem_mul_r by lia.
      rewrite Z.add_comm, Z.mul_comm, Z.mod_add by lia.
      rewrite Z.mod_mod by lia. reflexivity. }
    rewrite Hmod. split; intros H.
    + apply Z.bits_inj'. intros n Hn. rewrite Z.bits_0, Z.land_spec.
      destruct (Z_lt_dec n 8) as [Hlt|Hge];
        [|rewrite Z.ones_spec_high by lia; apply andb_false_r].
      rewrite Z.ones_spec_low, andb_true_r by lia.
      assert (Hall : forall k, (k < 8)%nat -> forall j, 0 <= j <= Z.of_nat k ->
                Z.testbit s j = false).
      { induction k as [|k IHk]; intros Hk j Hj.
        - assert (j = 0) as -> by lia.
          pose proof (Hlow 0 ltac:(lia)) as H0. rewrite H in H0.
          rewrite Z.bits_0 in H0.
          rewrite (Z.testbit_neg_r s (0 - 1)) in H0 by lia.
          rewrite xorb_false_r in H0. symmetry. exact H0.
        - destruct (Z.eq_dec j (Z.of_nat (S k))) as [->|Hne];
            [|apply IHk; lia].
          pose proof (Hlow (Z.of_nat (S k)) ltac:(lia)) as H0. rewrite H in H0.
          rewrite Z.bits_0 in H0.
          rewrite (IHk ltac:(lia) (Z.of_nat (S k) - 1) ltac:(lia)) in H0.
          rewrite xorb_false_r in H0. symmetry. exact H0. }
      apply (Hall (Z.to_nat n) ltac:(lia) n). lia.
    + apply Z.bits_inj'. intros n Hn. rewrite Z.bits_0.
      destruct (Z_lt_dec n 8) as [Hlt|Hge].
      * rewrite Hlow by lia.
        assert (Hbit : forall j, j < 8 -> Z.testbit s j = false).
        { intros j Hj. destruct (Z_lt_dec j 0) as [Hneg|Hpos];
            [apply Z.testbit_neg_r; lia|].
          assert (Hb : Z.testbit (Z.land s (Z.ones 8)) j = false)
            by (rewrite H; apply Z.bits_0).
          rewrite Z.land_spec, Z.ones_spec_low, andb_true_r in Hb by lia.
          exact Hb. }
        rewrite !Hbit by lia. reflexivity.
      * change 255 with (Z.ones 8).
        rewrite Z.land_spec, Z.ones_spec_high by lia. apply andb_false_r.
Qed.

End OptimizedCoreFacts.

(** ** The packed risk checks *)

Section PackedRiskFacts.

Import PackedRisk.

Lemma ubfx_range x lsb width : 0 <= width -> 0 <= ubfx x lsb width < 2 ^ width.
Proof.
  intros Hw. unfold ubfx. rewrite Z.land_ones by exact Hw.
  apply Z.mod_pos_bound. apply Z.pow_pos_nonneg; lia.
Qed.

Lemma ubfx_word x lsb width : 0 <= width <= 64 -> 0 <= ubfx x lsb width < 2 ^ 64.
Proof.
  intros Hw. pose proof (ubfx_range x lsb width ltac:(lia)).
  assert (2 ^ width <= 2 ^ 64) by (apply Z.pow_le_mono_r; lia). lia.
Qed.

(** On words, C is set when there is no borrow and Z when the operands
    are equal. *)
Lemma cmp_flags a b :
  0 <= a < 2 ^ 64 -> 0 <= b < 2 ^ 64 ->
  flag_c (cmp a b) = (b <=? a) /\ flag_z (cmp a b) = (a =? b).
Proof.
  intros Ha Hb. unfold cmp. cbn [flag_c flag_z].
  unfold Word.wrap64. rewrite (Z.mod_small a), (Z.mod_small b) by lia. split.
  - destruct (Z.leb_spec (2 ^ 64) (a + (2 ^ 64 - 1 - b) + 1)), (Z.leb_spec b a);
      try reflexivity; lia.
  - destruct (Z.eqb_spec a b) as [->|Hne].
    + rewrite Z.sub_diag. reflexivity.
    + destruct (Z.eqb_spec ((a - b) mod 2 ^ 64) 0) as [H0|]; [|reflexivity].
      destruct (Z_lt_dec a b).
      * replace (a - b) with (a - b + 2 ^ 64 + (-1) * 2 ^ 64) in H0 by lia.
        rewrite Z.mod_add, Z.mod_small in H0 by lia. lia.
      * rewrite Z.mod_small in H0 by lia. lia.
Qed.

(** What the chain of conditional compares comes to. *)
Lemma compare_chain_spec p q x4 x5 x6 x7 :
  0 <= p < 2 ^ 64 -> 0 <= q < 2 ^ 64 ->
  0 <= x4 < 2 ^ 64 -> 0 <= x5 < 2 ^ 64 -> 0 <= x6 < 2 ^ 64 -> 0 <= x7 < 2 ^ 64 ->
  compare_chain p q x4 x5 x6 x7 =
  if ((p <? x6) || (p <=? x7)) && (x4 <=? q) && (x5 <? q) then 1 else 0.
Proof.
  intros Hp Hq H4 H5 H6 H7.
  destruct (cmp_flags p x6 Hp H6) as [Hc1 Hz1].
  destruct (cmp_flags p x7 Hp H7) as [Hc2 Hz2].
  destruct (cmp_flags q x4 Hq H4) as [Hc3 Hz3].
  destruct (cmp_flags q x5 Hq H5) as [Hc4 Hz4].
  unfold compare_chain, ccmp, cset, holds.
  destruct (cmp p x6) as [n1 z1 c1 v1], (cmp p x7) as [n2 z2 c2 v2],
           (cmp q x4) as [n3 z3 c3 v3], (cmp q x5) as [n4 z4 c4 v4].
  cbn [flag_c flag_z] in *. subst.
  destruct (Z.leb_spec x6 p), (Z.eqb_spec p x6), (Z.ltb_spec p x6);
    try lia; cbn [negb orb andb flag_c flag_z nzcv_0];
    destruct (Z.leb_spec x7 p), (Z.eqb_spec p x7), (Z.leb_spec p x7);
    try lia; cbn [negb orb andb flag_c flag_z nzcv_0];
    destruct (Z.leb_spec x4 q), (Z.eqb_spec q x4);
    try lia; cbn [negb orb andb flag_c flag_z nzcv_0];
    destruct (Z.leb_spec x5 q), (Z.eqb_spec q x5), (Z.ltb_spec x5 q);
    try lia; cbn [negb orb andb flag_c flag_z nzcv_0]; reflexivity.
Qed.

Lemma single_spec x0 x1 :
  ultra_fast_risk_single x0 x1 =
  if ((order_price x0 <? min_price x1) || (order_price x0 <=? max_price x1))
     && (min_qty x1 <=? order_quantity x0) && (max_qty x1 <? order_quantity x0)
  then 1 else 0.
Proof.
  unfold ultra_fast_risk_single. cbv zeta.
  apply compare_chain_spec; apply ubfx_word; lia.
Qed.

(** X21: what [_ultra_fast_risk_single] reports.  It returns 1 exactly
    when the quantity is at least [min_qty] and above [max_qty] and the
    price is below [min_price] or not above [max_price]; otherwise 0.
    So an order whose quantity is not above [max_qty] gets 0 whatever
    its price, and so does every order priced above both price limits. *)
Theorem ultra_fast_risk_single_result (x0 x1 : Z) :
  (ultra_fast_risk_single x0 x1 = 1 <->
     (order_price x0 < min_price x1 \/ order_price x0 <= max_price x1) /\
     min_qty x1 <= order_quantity x0 /\ max_qty x1 < order_quantity x0) /\
  (ultra_fast_risk_single x0 x1 = 0 \/ ultra_fast_risk_single x0 x1 = 1) /\
  (order_quantity x0 <= max_qty x1 -> ultra_fast_risk_single x0 x1 = 0) /\
  (min_price x1 <= order_price x0 -> max_price x1 < order_price x0 ->
     ultra_fast_risk_single x0 x1 = 0).
Proof.
  rewrite single_spec.
  destruct (Z.ltb_spec (order_price x0) (min_price x1)),
           (Z.leb_spec (order_price x0) (max_price x1)),
           (Z.leb_spec (min_qty x1) (order_quantity x0)),
           (Z.ltb_spec (max_qty x1) (order_quantity x0));
    cbn [orb andb]; repeat split; intros; auto; try lia; try discriminate.
Qed.

Lemma wrap32_ubfx16 x lsb : Word.wrap32 (ubfx x lsb 16) = ubfx x lsb 16.
Proof.
  pose proof (ubfx_range x lsb 16 ltac:(lia)).
  unfold Word.wrap32. apply Z.mod_small. lia.
Qed.

(** One lane of the vector check: 1 when the order is inside all four
    limits, bounds included, and 0 otherwise. *)
Lemma lane_verdict q p x4 x5 x6 x7 :
  Z.shiftr
    (Z.land (Z.land (if x4 <=? q then 4294967295 else 0)
                    (if q <=? x5 then 4294967295 else 0))
            (Z.land (if x6 <=? p then 4294967295 else 0)
                    (if p <=? x7 then 4294967295 else 0))) 31 =
  if (x4 <=? q) && (q <=? x5) && (x6 <=? p) && (p <=? x7) then 1 else 0.
Proof.
  destruct (x4 <=? q), (q <=? x5), (x6 <=? p), (p <=? x7); reflexivity.
Qed.

Lemma process_loop_spec limits : forall n x0,
  (8 * n <= length x0)%nat ->
  process_loop n x0 (dup_w (min_qty limits)) (dup_w (max_qty limits))
               (dup_w (min_price limits)) (dup_w (max_price limits)) =
  (map (fun o => if within_bounds o limits then 1 else 0) (firstn (8 * n) x0),
   skipn (8 * n) x0).
Proof.
  induction n as [|n IH]; intros x0 Hlen; [reflexivity|].
  destruct x0 as [|o0 [|o1 [|o2 [|o3 [|o4 [|o5 [|o6 [|o7 tl]]]]]]]];
    try (cbn [length] in Hlen; lia).
  replace (8 * S n)%nat with (8 + 8 * n)%nat by lia.
  cbn [process_loop nth skipn].
  rewrite IH by (cbn [length] in Hlen; lia).
  unfold min_qty, max_qty, min_price, max_price, dup_w.
  rewrite !wrap32_ubfx16.
  cbn [Nat.add firstn skipn map app repeat lanes_of uzp1 uzp2 wlane nth check_four
       cmhs cmls vand wmap2 combine map fst snd ushr31].
  rewrite !lane_verdict. reflexivity.
Qed.

Lemma remainder_loop_spec limits : forall x0,
  remainder_loop (length x0) x0 (min_qty limits) (max_qty limits)
                 (min_price limits) (max_price limits) =
  map (fun o => ultra_fast_risk_single o limits) x0.
Proof.
  induction x0 as [|o tl IH]; [reflexivity|].
  cbn [length remainder_loop nth skipn map]. rewrite IH. reflexivity.
Qed.

(** The stored words of a batch: the orders of the whole groups of
    eight by the vector check, the orders after them by the compare
    chain. *)
Lemma batch_simd_spec (orders : list Z) (limits : Z) :
  Z.of_nat (length orders) < 2 ^ 63 ->
  ultra_fast_risk_batch_simd orders (Z.of_nat (length orders)) limits =
  map (fun o => if within_bounds o limits then 1 else 0)
      (firstn (8 * (length orders / 8)) orders)
  ++ map (fun o => ultra_fast_risk_single o limits)
         (skipn (8 * (length orders / 8)) orders).
Proof.
  intros Hn. unfold ultra_fast_risk_batch_simd. cbv zeta.
  rewrite signed64_small by lia.
  assert (Hp : Z.to_nat (Z.of_nat (length orders) / 8) = (length orders / 8)%nat).
  { rewrite <- (Nat2Z.id (length orders / 8)). f_equal.
    rewrite Nat2Z.inj_div. reflexivity. }
  rewrite Hp.
  pose proof (Nat.div_mod_eq (length orders) 8) as Hdm.
  pose proof (Nat.mod_upper_bound (length orders) 8 ltac:(lia)) as Hm.
  fold (min_qty limits). fold (max_qty limits).
  fold (min_price limits). fold (max_price limits).
  rewrite process_loop_spec by lia.
  f_equal.
  replace (Z.to_nat (Word.wrap64 (Z.of_nat (length orders)
                                  - 8 * Z.of_nat (length orders / 8))))
    with (length (skipn (8 * (length orders / 8)) orders)).
  - apply remainder_loop_spec.
  - rewrite length_skipn. unfold Word.wrap64. rewrite Z.mod_small by lia. lia.
Qed.

(** X22: in a batch, the word stored for an order in one of the whole
    groups of eight is 1 when the order is inside all four limits and 0
    when it is not; the word stored for an order after the last whole
    group is what [_ultra_fast_risk_single] returns for it.  One word
    is stored per order. *)
Theorem batch_simd_stores_two_kinds_of_verdict (orders : list Z) (limits : Z) :
  Z.of_nat (length orders) < 2 ^ 63 ->
  let out := ultra_fast_risk_batch_simd orders (Z.of_nat (length orders)) limits in
  length out = length orders /\
  forall i, (i < length orders)%nat ->
    nth i out 0 =
    if (i <? 8 * (length orders / 8))%nat
    then (if within_bounds (nth i orders 0) limits then 1 else 0)
    else ultra_fast_risk_single (nth i orders 0) limits.
Proof.
  intros Hn out. subst out. rewrite batch_simd_spec by exact Hn.
  set (k := (8 * (length orders / 8))%nat).
  assert (Hk : (k <= length orders)%nat).
  { unfold k. pose proof (Nat.div_mod_eq (length orders) 8). lia. }
  split.
  - rewrite length_app, !length_map, length_firstn, length_skipn. lia.
  - intros i Hi.
    set (f := fun o => if within_bounds o limits then 1 else 0).
    set (g := fun o => ultra_fast_risk_single o limits).
    destruct (Nat.ltb_spec i k) as [Hlt|Hge].
    + rewrite app_nth1 by (rewrite length_map, length_firstn; lia).
      rewrite (nth_indep _ 0 (f 0)) by (rewrite length_map, length_firstn; lia).
      rewrite map_nth. unfold f. rewrite nth_firstn.
      destruct (Nat.ltb_spec i k); [reflexivity|lia].
    + rewrite app_nth2 by (rewrite length_map, length_firstn; lia).
      rewrite length_map, length_firstn, Nat.min_l by lia.
      rewrite (nth_indep _ 0 (g 0)) by (rewrite length_map, length_skipn; lia).
      rewrite map_nth. unfold g. rewrite nth_skipn. f_equal. f_equal. lia.
Qed.

(** X23: the two paths of a batch give the word 1 opposite meanings.
    For one and the same order, placed once in a whole group of eight
    and once after the last whole group, the two stored words are never
    both 1; and when the order is inside all four limits the first is 1
    and the second is 0. *)
Theorem batch_simd_verdicts_disagree (orders : list Z) (limits : Z) (i j : nat) :
  Z.of_nat (length orders) < 2 ^ 63 ->
  (i < 8 * (length orders / 8))%nat ->
  (8 * (length orders / 8) <= j < length orders)%nat ->
  nth i orders 0 = nth j orders 0 ->
  let out := ultra_fast_risk_batch_simd orders (Z.of_nat (length orders)) limits in
  ~ (nth i out 0 = 1 /\ nth j out 0 = 1) /\
  (within_bounds (nth i orders 0) limits = true ->
   nth i out 0 = 1 /\ nth j out 0 = 0).
Proof.
  intros Hn Hi Hj Hsame out. subst out. rewrite batch_simd_spec by exact Hn.
  set (k := (8 * (length orders / 8))%nat) in *.
  set (f := fun o => if within_bounds o limits then 1 else 0).
  set (g := fun o => ultra_fast_risk_single o limits).
  assert (Ei : nth i (map f (firstn k orders) ++ map g (skipn k orders)) 0
               = f (nth i orders 0)).
  { rewrite app_nth1 by (rewrite length_map, length_firstn; lia).
    rewrite (nth_indep _ 0 (f 0)) by (rewrite length_map, length_firstn; lia).
    rewrite map_nth, nth_firstn.
    destruct (Nat.ltb_spec i k); [reflexivity|lia]. }
  assert (Ej : nth j (map f (firstn k orders) ++ map g (skipn k orders)) 0
               = g (nth j orders 0)).
  { rewrite app_nth2 by (rewrite length_map, length_firstn; lia).
    rewrite length_map, length_firstn, Nat.min_l by lia.
    rewrite (nth_indep _ 0 (g 0)) by (rewrite length_map, length_skipn; lia).
    rewrite map_nth, nth_skipn. f_equal. f_equal. lia. }
  rewrite Ei, Ej, <- Hsame. unfold f, g. rewrite single_spec.
  unfold within_bounds.
  destruct (Z.ltb_spec (order_price (nth i orders 0)) (min_price limits)),
           (Z.leb_spec (order_price (nth i orders 0)) (max_price limits)),
           (Z.leb_spec (min_price limits) (order_price (nth i orders 0))),
           (Z.leb_spec (min_qty limits) (order_quantity (nth i orders 0))),
           (Z.leb_spec (order_quantity (nth i orders 0)) (max_qty limits)),
           (Z.ltb_spec (max_qty limits) (order_quantity (nth i orders 0)));
    cbn [orb andb]; split; try (intros [? ?]); intros; try split;
    try reflexivity; try discriminate; try lia.
Qed.

(** Nine copies of an order of price 50 and quantity 5 under limits
    1..10 for the quantity and 40..60 for the price: the first eight
    words are 1, the ninth is 0. *)
Lemma batch_simd_stores_two_kinds_of_verdict_witness :
  let orders := repeat (pack_order 50 5) 9 in
  let limits := pack_limits 1 10 40 60 in
  let out := ultra_fast_risk_batch_simd orders (Z.of_nat (length orders)) limits in
  length out = length orders /\
  forall i, (i < length orders)%nat ->
    nth i out 0 =
    if (i <? 8 * (length orders / 8))%nat
    then (if within_bounds (nth i orders 0) limits then 1 else 0)
    else ultra_fast_risk_single (nth i orders 0) limits.
Proof.
  apply (batch_simd_stores_two_kinds_of_verdict
           (repeat (pack_order 50 5) 9) (pack_limits 1 10 40 60)).
  cbn. lia.
Defined.

Lemma batch_simd_verdicts_disagree_witness :
  let orders := repeat (pack_order 50 5) 9 in
  let limits := pack_limits 1 10 40 60 in
  let out := ultra_fast_risk_batch_simd orders (Z.of_nat (length orders)) limits in
  ~ (nth 0 out 0 = 1 /\ nth 8 out 0 = 1) /\
  (within_bounds (nth 0 orders 0) limits = true ->
   nth 0 out 0 = 1 /\ nth 8 out 0 = 0).
Proof.
  apply (batch_simd_verdicts_disagree
           (repeat (pack_order 50 5) 9) (pack_limits 1 10 40 60) 0 8).
  - cbn. lia.
  - cbn. lia.
  - cbn. lia.
  - reflexivity.
Defined.

End PackedRiskFacts.

(** ** The positions the validation reads *)

Section RiskBindingsFacts.

Import Risk RiskBindings.

Lemma validation_loop_ext (m1 m2 : Memory) :
  (forall i, order_check m1 i = order_check m2 i) ->
  forall n a b,
  x4 (validation_loop n {| x4 := a; x5 := b; mem := m1 |}) =
  x4 (validation_loop n {| x4 := a; x5 := b; mem := m2 |}).
Proof.
  intros Hext. induction n as [|n IH]; intros a b; [reflexivity|].
  cbn [validation_loop]. unfold validation_body. cbn [x4 x5 mem].
  rewrite Hext. apply IH.
Qed.

Lemma copied_slot_word0 (ps : list (Z * Z)) (k : nat) :
  slot_word0
    (nth k (map (fun item : Z * Z => {| slot_word0 := fst item; slot_word1 := snd item |}) ps)
         zero_slot)
  = nth k (map fst ps) 0.
Proof.
  change zero_slot
    with ((fun item : Z * Z => {| slot_word0 := fst item; slot_word1 := snd item |}) (0, 0)).
  rewrite map_nth. cbn [slot_word0].
  exact (eq_sym (map_nth fst ps (0, 0) k)).
Qed.

Lemma fits_c_int_spec z : fits_c_int z = true <-> int32 z.
Proof.
  unfold fits_c_int, int32. rewrite andb_true_iff, Z.leb_le, Z.ltb_lt. reflexivity.
Qed.

(** Items that fit a C [int] are copied, pair by pair. *)
Lemma copy_positions_of_c_ints (ps : list (Z * Z)) :
  Forall (fun item => int32 (fst item) /\ int32 (snd item)) ps ->
  copy_positions_to_buffer ps =
  Some (map (fun item => {| slot_word0 := fst item; slot_word1 := snd item |}) ps).
Proof.
  intros Hfit. unfold copy_positions_to_buffer.
  replace (forallb _ ps) with true; [reflexivity|].
  symmetry. apply forallb_forall. intros item Hin.
  rewrite Forall_forall in Hfit. destruct (Hfit item Hin) as [Hk Hv].
  apply andb_true_iff. split; apply fits_c_int_spec; assumption.
Qed.

(** X24: the positions the caller passes are never read as positions.
    The bindings write (symbol id, position) into each 8-byte slot in
    dict order and the routine reads the first word of slot
    [symbol_id].  For a dict whose keys and positions fit a C [int] and
    orders whose symbol ids lie inside the buffer, what the routine
    takes as the position of symbol [s] is the key of the [s]-th item of
    the dict, and two dicts with the same keys in the same order give
    the same verdicts whatever positions they hold. *)
Theorem positions_dict_values_are_not_read
    (order_buffer : list OrderRecord) (limits_buffer : LimitSet)
    (ps ps' : list (Z * Z)) :
  Forall (fun item => int32 (fst item) /\ int32 (snd item)) ps ->
  Forall (fun item => int32 (fst item) /\ int32 (snd item)) ps' ->
  map fst ps = map fst ps' ->
  Forall (fun o => 0 <= Word.wrap32 (symbol_id o) < Z.of_nat (length ps)) order_buffer ->
  (exists position_buffer,
     copy_positions_to_buffer ps = Some position_buffer /\
     forall s, 0 <= s < Z.of_nat (length ps) ->
       position_of {| orders := order_buffer;
                      positions := position_buffer;
                      limits := limits_buffer |} s
       = fst (nth (Z.to_nat s) ps (0, 0))) /\
  validate_with_positions order_buffer ps limits_buffer <> None /\
  validate_with_positions order_buffer ps limits_buffer =
  validate_with_positions order_buffer ps' limits_buffer.
Proof.
  intros Hfit Hfit' Hkeys Hsym.
  pose proof (copy_positions_of_c_ints ps Hfit) as Hcopy.
  pose proof (copy_positions_of_c_ints ps' Hfit') as Hcopy'.
  split; [|split].
  - eexists. split; [exact Hcopy|].
    intros s Hs. unfold position_of. cbn [positions].
    rewrite copied_slot_word0.
    replace (nth (Z.to_nat s) (map fst ps) 0) with (fst (nth (Z.to_nat s) ps (0, 0)))
      by (symmetry; exact (map_nth fst ps (0, 0) (Z.to_nat s))).
    apply signed32_int32.
    rewrite Forall_forall in Hfit. apply Hfit. apply nth_In. lia.
  - unfold validate_with_positions. rewrite Hcopy.
    destruct order_buffer; discriminate.
  - unfold validate_with_positions. rewrite Hcopy, Hcopy'.
    destruct order_buffer as [|o tl] eqn:Eo; [reflexivity|].
    rewrite <- Eo. f_equal.
    unfold validate_order_batch. cbn [orders].
    destruct (length order_buffer) as [|n] eqn:Hlen; [reflexivity|].
    f_equal. unfold nautilus_validate_order_batch. cbn [fst].
    unfold validation_init. apply validation_loop_ext.
    intros i. unfold order_check. cbn [orders positions limits].
    rewrite !copied_slot_word0, Hkeys. reflexivity.
Qed.

(** Symbols 0 and 1 holding 900 and 0, or 0 and 900: an order of 200
    for symbol 0 under a limit of 1000 is reported valid both times. *)
Lemma positions_dict_values_are_not_read_witness :
  (exists position_buffer,
     copy_positions_to_buffer [(0, 900); (1, 0)] = Some position_buffer /\
     forall s, 0 <= s < Z.of_nat (length [(0, 900); (1, 0)]) ->
       position_of {| orders := [Examples.order 0 200 50];
                      positions := position_buffer;
                      limits := Examples.limits_1000 |} s
       = fst (nth (Z.to_nat s) [(0, 900); (1, 0)] (0, 0))) /\
  validate_with_positions [Examples.order 0 200 50] [(0, 900); (1, 0)]
                          Examples.limits_1000 <> None /\
  validate_with_positions [Examples.order 0 200 50] [(0, 900); (1, 0)]
                          Examples.limits_1000 =
  validate_with_positions [Examples.order 0 200 50] [(0, 0); (1, 900)]
                          Examples.limits_1000.
Proof.
  apply positions_dict_values_are_not_read.
  - repeat constructor; cbn; lia.
  - repeat constructor; cbn; lia.
  - reflexivity.
  - repeat constructor; cbn; lia.
Defined.

End RiskBindingsFacts.

(** ** The EMA of the hot paths *)

Section HotPathsFacts.

Import Signals.

Lemma last_cons_default {A : Type} : forall (l : list A) (x d : A),
  last (x :: l) d = last l x.
Proof.
  induction l as [|y tl IH]; intros x d; [reflexivity|].
  change (last (x :: y :: tl) d) with (last (y :: tl) d).
  rewrite IH. symmetry. apply IH.
Qed.

Lemma last_app_default {A : Type} : forall (l1 l2 : list A) (d : A),
  last (l1 ++ l2) d = last l2 (last l1 d).
Proof.
  induction l1 as [|x tl IH]; intros l2 d; [reflexivity|].
  cbn [app]. rewrite !last_cons_default. apply IH.
Qed.

Lemma ema_simd_loop_is_vector_loop alpha oma : forall k x0 s18,
  HotPaths.ema_simd_loop k (dup alpha) (dup oma) x0 s18 =
  (snd (fst (ema_vector_loop k (dup alpha) (dup oma) x0 s18)),
   last (fst (fst (ema_vector_loop k (dup alpha) (dup oma) x0 s18))) s18) /\
  snd (ema_vector_loop k (dup alpha) (dup oma) x0 s18) =
  last (fst (fst (ema_vector_loop k (dup alpha) (dup oma) x0 s18))) s18.
Proof.
  induction k as [|k IH]; intros x0 s18; [split; reflexivity|].
  cbn [HotPaths.ema_simd_loop ema_vector_loop ld1_4s].
  set (v4 := map2 F32.fadd _ _).
  destruct (IH (skipn 4 x0) (lane v4 3)) as [IH1 IH2].
  rewrite IH1.
  destruct (ema_vector_loop k (dup alpha) (dup oma) (skipn 4 x0) (lane v4 3))
    as [[o x0'] s'].
  cbn [fst snd] in *.
  assert (Hl : last (v4 ++ o) s18 = last o (lane v4 3)).
  { rewrite last_app_default. f_equal. }
  rewrite Hl. split; [reflexivity|exact IH2].
Qed.

Lemma hot_scalar_loop_is_last s16 s17 : forall n x0 s18,
  HotPaths.ema_scalar_loop n s16 s17 x0 s18 =
  last (ema_scalar_loop n s16 s17 x0 s18) s18.
Proof.
  induction n as [|n IH]; intros x0 s18; [reflexivity|].
  cbn [HotPaths.ema_scalar_loop ema_scalar_loop].
  rewrite last_cons_default. apply IH.
Qed.

(** X25: [_fast_ema_calculation] returns the last value that
    [_nautilus_calculate_ema_vectorized] writes for the same prices and
    alpha: the two routines run the same lanes, the first without
    storing them. *)
Theorem fast_ema_calculation_is_last_vectorized_output
    (p0 : F32.t) (rest : list F32.t) (alpha : F32.t) :
  HotPaths.fast_ema_calculation p0 rest alpha =
  last (nautilus_calculate_ema_vectorized p0 rest alpha) p0.
Proof.
  unfold HotPaths.fast_ema_calculation, nautilus_calculate_ema_vectorized.
  change (map2 F32.fsub (dup F32.one) (dup alpha)) with (dup (F32.fsub F32.one alpha)).
  cbv zeta.
  destruct (ema_simd_loop_is_vector_loop alpha (F32.fsub F32.one alpha)
              (Z.to_nat (Z.of_nat (length rest) / 4)) rest p0) as [H1 H2].
  rewrite H1.
  destruct (ema_vector_loop (Z.to_nat (Z.of_nat (length rest) / 4)) (dup alpha)
              (dup (F32.fsub F32.one alpha)) rest p0) as [[o x0] s].
  cbn [fst snd] in *. subst s.
  rewrite last_cons_default, last_app_default.
  apply hot_scalar_loop_is_last.
Qed.

End HotPathsFacts.

(** ** The two single checks *)

Section UltraFastRiskFacts.

Import PackedRisk UltraFastRisk.

Lemma shiftr_word_high x n :
  0 <= x < 2 ^ 64 -> 0 <= n <= 64 ->
  Z.land (Z.shiftr x n) (Z.ones (64 - n)) = Z.shiftr x n.
Proof.
  intros Hx Hn. rewrite Z.land_ones by lia. apply Z.mod_small.
  rewrite Z.shiftr_div_pow2 by lia. split.
  - apply Z.div_pos; [lia|]. apply Z.pow_pos_nonneg; lia.
  - apply Z.div_lt_upper_bound; [apply Z.pow_pos_nonneg; lia|].
    rewrite <- Z.pow_add_r by lia. replace (n + (64 - n)) with 64 by lia. lia.
Qed.

(** X26: on 64-bit words [_ultra_fast_risk_validate] of
    ultra_fast_risk.s and [_ultra_fast_risk_single] of order_book.s
    return the same value: the unpacking by shifts and masks yields the
    fields the bit-field extracts yield. *)
Theorem risk_validate_is_risk_single (x0 x1 : Z) :
  0 <= x0 < 2 ^ 64 -> 0 <= x1 < 2 ^ 64 ->
  ultra_fast_risk_validate x0 x1 = ultra_fast_risk_single x0 x1.
Proof.
  intros H0 H1. unfold ultra_fast_risk_validate, ultra_fast_risk_single, ubfx.
  cbv zeta. rewrite !Z.shiftr_0_r.
  change 4294967295 with (Z.ones 32). change 65535 with (Z.ones 16).
  pose proof (shiftr_word_high x0 32 H0 ltac:(lia)) as E0.
  pose proof (shiftr_word_high x1 48 H1 ltac:(lia)) as E1.
  change (64 - 32) with 32 in E0. change (64 - 48) with 16 in E1.
  rewrite E0, E1. reflexivity.
Qed.

Lemma risk_validate_is_risk_single_witness :
  ultra_fast_risk_validate (pack_order 50 20) (pack_limits 1 10 40 60) =
  ultra_fast_risk_single (pack_order 50 20) (pack_limits 1 10 40 60).
Proof.
  apply risk_validate_is_risk_single; vm_compute; split; congruence.
Defined.

End UltraFastRiskFacts.

(** ** What the variance routine reads *)

Section VarianceReads.

Import Risk RiskBuffers.







End VarianceReads.
